(** * pq-cli: the progression engine of [pqcli/mechanic.py]

    A shallow embedding of the engine (bars, stats, inventory, equipment,
    spell book, quest book, tasks, player, simulation) together with the
    properties stated for it.

    Conventions of the embedding.
    - Python integers are [Z]; [//] is [Z.div] and [%] is [Z.modulo] (both
      round towards minus infinity, as Python does), with the
      [ZeroDivisionError] written out.
    - A bar position is a Python float.  It is modelled by an exact rational
      ([Q]): rounding of IEEE doubles is not modelled.
    - A method that can raise returns a [result]; a loop whose number of
      iterations is not fixed by its header takes fuel and answers
      [OutOfFuel] when it is exhausted.
    - [emit] appends to a per-object list of emitted signals.
    - Calls to [logger] have no effect on the state and are left out. *)

From Stdlib Require Import ZArith QArith List String Ascii Bool Lia.
From Stdlib Require Import DecimalString Lqa.
Import ListNotations.

Open Scope string_scope.
Open Scope Z_scope.

(** ** Exceptions, results and the state monad *)

Inductive exn : Type :=
| IndexError
| KeyError
| ValueError
| ZeroDivisionError
| AssertionError.

Inductive result (A : Type) : Type :=
| Ok (a : A)
| Raise (e : exn)
| OutOfFuel.

Arguments Ok {A} a.
Arguments Raise {A} e.
Arguments OutOfFuel {A}.

Definition M (S A : Type) : Type := S -> result (A * S).

Definition ret {S A} (a : A) : M S A := fun s => Ok (a, s).

Definition bind {S A B} (m : M S A) (k : A -> M S B) : M S B :=
  fun s =>
    match m s with
    | Ok (a, s') => k a s'
    | Raise e => Raise e
    | OutOfFuel => OutOfFuel
    end.

Definition raise {S A} (e : exn) : M S A := fun _ => Raise e.

Definition out_of_fuel {S A} : M S A := fun _ => OutOfFuel.

Definition get {S} : M S S := fun s => Ok (s, s).

Definition put {S} (s : S) : M S unit := fun _ => Ok (tt, s).

Definition lift_result {S A} (r : result A) : M S A :=
  fun s =>
    match r with
    | Ok a => Ok (a, s)
    | Raise e => Raise e
    | OutOfFuel => OutOfFuel
    end.

Declare Scope monad_scope.
Delimit Scope monad_scope with monad.
Notation "x <- m ;; k" := (bind m (fun x => k))
  (at level 61, m at next level, right associativity) : monad_scope.
Notation "m ;;; k" := (bind m (fun _ => k))
  (at level 61, right associativity) : monad_scope.
Open Scope monad_scope.

(** ** Python helpers *)

(** [l[idx]]: a negative index counts from the end. *)
Definition py_index {A} (l : list A) (idx : Z) : result A :=
  let n := Z.of_nat (List.length l) in
  let i := if idx <? 0 then idx + n else idx in
  if (i <? 0) || (n <=? i) then Raise IndexError
  else match nth_error l (Z.to_nat i) with
       | Some x => Ok x
       | None => Raise IndexError
       end.

Fixpoint remove_nth {A} (n : nat) (l : list A) : list A :=
  match l, n with
  | [], _ => []
  | _ :: tl, O => tl
  | x :: tl, S n' => x :: remove_nth n' tl
  end.

(** [l.pop(idx)] of a list, keeping only the list that is left. *)
Definition py_list_pop {A} (l : list A) (idx : Z) : result (list A) :=
  let n := Z.of_nat (List.length l) in
  let i := if idx <? 0 then idx + n else idx in
  if (i <? 0) || (n <=? i) then Raise IndexError
  else Ok (remove_nth (Z.to_nat i) l).

(** [l[-k:]]: the last [k] elements. *)
Definition py_last_n {A} (k : nat) (l : list A) : list A :=
  skipn (List.length l - k) l.

(** [min(a, b)] returns [b] when [b < a] and [a] otherwise. *)
Definition py_min (a b : Q) : Q :=
  if Qle_bool a b then a else b.

(** [needle in hay] for strings. *)
Fixpoint contains (needle hay : string) : bool :=
  if String.prefix needle hay then true
  else match hay with
       | EmptyString => false
       | String _ rest => contains needle rest
       end.

(** [str.lower] on the ASCII letters. *)
Definition lower_ascii (c : ascii) : ascii :=
  let n := nat_of_ascii c in
  if (65 <=? n)%nat && (n <=? 90)%nat then ascii_of_nat (n + 32) else c.

Fixpoint lower (s : string) : string :=
  match s with
  | EmptyString => EmptyString
  | String c rest => String (lower_ascii c) (lower rest)
  end.

(** [str(n)] for an integer. *)
Definition str_of_Z (n : Z) : string :=
  NilZero.string_of_int (Z.to_int n).

Definition sum_Z (l : list Z) : Z := fold_right Z.add 0 l.

(** ** The random module

    Modelled from the spec: [pqcli/random.py] is not among the sources.  The
    spec describes one seedable generator, [below n] drawing from [[0, n)],
    [odds a b] succeeding with probability [a/b], [choice] drawing uniformly
    from a list and the low-biased variants.  A generator state is the
    sequence of raw values the generator will produce (this is what a seed
    determines) and a cursor into it; every primitive draw reads one raw
    value.  Any sequence of outcomes in range is some seed's. *)

Module random.

Record State : Type := { tape : nat -> Z; cursor : nat }.

Definition seed (t : nat -> Z) : State := {| tape := t; cursor := 0 |}.

Definition Rand (A : Type) : Type := M State A.

(** No value lies in [[0, limit)] when [limit <= 0]. *)
Definition below (limit : Z) : Rand Z :=
  fun g =>
    if limit <=? 0 then Raise ValueError
    else Ok (tape g (cursor g) mod limit,
             {| tape := tape g; cursor := S (cursor g) |}).

Definition odds (chance outof : Z) : Rand bool :=
  r <- below outof ;; ret (r <? chance).

Definition below_low (limit : Z) : Rand Z :=
  a <- below limit ;;
  b <- below limit ;;
  ret (Z.min a b).

Definition pick {A} (l : list A) (i : Z) : Rand A :=
  match nth_error l (Z.to_nat i) with
  | Some x => ret x
  | None => raise IndexError
  end.

Definition choice {A} (l : list A) : Rand A :=
  match l with
  | [] => raise IndexError
  | _ => i <- below (Z.of_nat (List.length l)) ;; pick l i
  end.

Definition choice_low {A} (l : list A) : Rand A :=
  match l with
  | [] => raise IndexError
  | _ => i <- below_low (Z.of_nat (List.length l)) ;; pick l i
  end.

End random.

(** ** Signals *)

(** The enumerations of [pqcli/config.py].

    Modelled from the spec: the declarations are not among the sources.  The
    members that [mechanic.py] names are constructors of their own; the other
    members of the enumeration are [other_stat n] and [other_slot n].  The
    list of members, [list(StatType)] and [list(EquipmentType)], is a field of
    the content provider below. *)
Inductive StatType : Type :=
| strength
| condition
| intelligence
| wisdom
| hp_max
| mp_max
| other_stat (n : nat).

Inductive EquipmentType : Type :=
| weapon
| shield
| hauberk
| other_slot (n : nat).

Definition StatType_eq_dec (a b : StatType) : {a = b} + {a <> b}.
Proof. decide equality. apply Nat.eq_dec. Defined.

Definition EquipmentType_eq_dec (a b : EquipmentType) : {a = b} + {a <> b}.
Proof. decide equality. apply Nat.eq_dec. Defined.

(** The user data of an emitted signal. *)
Inductive SignalData : Type :=
| DataItem (name : string) (quantity : Z)
| DataSpell (name : string) (level : Z)
| DataEquipment (slot : EquipmentType) (name : string).

Definition Signal : Type := (string * list SignalData)%type.

(** ** level_up_time *)

Definition level_up_time (level : Z) : Z := 20 * level * 60.

(** ** Bar *)

Record Bar : Type := {
  position : Q;
  max_ : Z;
  bar_emitted : list Signal
}.

Definition Bar_init (max_0 : Z) (position0 : Q) : Bar :=
  {| position := position0; max_ := max_0;
     bar_emitted := [("change", [])] |}.

Definition Bar_reset (b : Bar) (new_max : Z) (position0 : Q) : Bar :=
  {| position := position0; max_ := new_max;
     bar_emitted := bar_emitted b ++ [("change", [])] |}.

Definition Bar_done (b : Bar) : bool :=
  Qle_bool (inject_Z (max_ b)) (position b).

Definition Bar_reposition (b : Bar) (new_pos : Q) : Bar :=
  {| position := py_min new_pos (inject_Z (max_ b)); max_ := max_ b;
     bar_emitted := bar_emitted b ++ [("change", [])] |}.

Definition Bar_increment (b : Bar) (inc : Q) : Bar :=
  Bar_reposition b (position b + inc)%Q.

(** ** Python dictionaries

    A [dict] keeps its keys in insertion order and has no duplicate key:
    assigning to a key that is present replaces the value in place, assigning
    to an absent key appends. *)

Section Dict.

Context {K V : Type} (K_eq_dec : forall a b : K, {a = b} + {a <> b}).

Fixpoint dict_get (d : list (K * V)) (k : K) : option V :=
  match d with
  | [] => None
  | (k', v) :: rest => if K_eq_dec k k' then Some v else dict_get rest k
  end.

Fixpoint dict_set (d : list (K * V)) (k : K) (v : V) : list (K * V) :=
  match d with
  | [] => [(k, v)]
  | (k', v') :: rest =>
      if K_eq_dec k k' then (k, v) :: rest else (k', v') :: dict_set rest k v
  end.

End Dict.

(** ** Stats *)

Record Stats : Type := {
  values : list (StatType * Z);
  stats_emitted : list Signal
}.

Definition Stats_init (values0 : list (StatType * Z)) : Stats :=
  {| values := values0; stats_emitted := [] |}.

Definition Stats_iter (s : Stats) : list (StatType * Z) := values s.

Definition Stats_getitem (s : Stats) (stat : StatType) : result Z :=
  match dict_get StatType_eq_dec (values s) stat with
  | Some v => Ok v
  | None => Raise KeyError
  end.

Definition Stats_increment (s : Stats) (stat : StatType) (qty : Z)
  : result Stats :=
  match dict_get StatType_eq_dec (values s) stat with
  | Some v =>
      Ok {| values := dict_set StatType_eq_dec (values s) stat (v + qty);
            stats_emitted := stats_emitted s ++ [("change", [])] |}
  | None => Raise KeyError
  end.

(** ** Reference data of the content provider *)

Record Monster : Type := {
  monster_name : string;
  monster_level : Z;
  monster_item : option string
}.

Record EquipmentPreset : Type := {
  preset_name : string;
  preset_quality : Z
}.

Record Modifier : Type := {
  modifier_name : string;
  modifier_quality : Z
}.

Record Race : Type := { race_name : string }.

Record Class : Type := { class_name : string }.

(** ** QuestBook *)

Record QuestBook : Type := {
  quests : list string;
  act : Z;
  plot_bar : Bar;
  quest_bar : Bar;
  quest_monster : option Monster;
  quest_emitted : list Signal
}.

Definition QuestBook_init : QuestBook :=
  {| quests := []; act := 0;
     plot_bar := Bar_init 26 0; quest_bar := Bar_init 1 0;
     quest_monster := None; quest_emitted := [] |}.

Definition current_quest (q : QuestBook) : option string :=
  match quests q with
  | [] => None
  | x :: rest => Some (last rest x)
  end.

Definition add_quest (q : QuestBook) (name : string) : QuestBook :=
  {| quests := py_last_n 100 (quests q) ++ [name];
     act := act q; plot_bar := plot_bar q; quest_bar := quest_bar q;
     quest_monster := quest_monster q; quest_emitted := quest_emitted q |}.

(** ** Inventory *)

Record InventoryItem : Type := {
  item_name : string;
  quantity : Z
}.

Record Inventory : Type := {
  gold : Z;
  items : list InventoryItem;
  encum_bar : Bar;
  inventory_emitted : list Signal
}.

Definition DataOfItem (i : InventoryItem) : SignalData :=
  DataItem (item_name i) (quantity i).

Definition Inventory_init (capacity : Z) : Inventory :=
  {| gold := 0; items := []; encum_bar := Bar_init capacity 0;
     inventory_emitted := [] |}.

Definition Inventory_len (inv : Inventory) : Z :=
  Z.of_nat (List.length (items inv)).

Definition Inventory_getitem (inv : Inventory) (idx : Z)
  : result InventoryItem :=
  py_index (items inv) idx.

Definition add_gold (inv : Inventory) (qty : Z) : Inventory :=
  {| gold := gold inv + qty; items := items inv; encum_bar := encum_bar inv;
     inventory_emitted := inventory_emitted inv ++ [("gold_change", [])] |}.

Definition total_quantity (l : list InventoryItem) : Z :=
  sum_Z (map quantity l).

Definition sync_encumbrance (inv : Inventory) : Inventory :=
  {| gold := gold inv; items := items inv;
     encum_bar :=
       Bar_reposition (encum_bar inv) (inject_Z (total_quantity (items inv)));
     inventory_emitted := inventory_emitted inv |}.

(** [pop] has no [return] statement: the value of a call is [None]. *)
Definition Inventory_pop (inv : Inventory) (index : Z)
  : result (option InventoryItem * Inventory) :=
  match py_index (items inv) index with
  | Ok item =>
      match py_list_pop (items inv) index with
      | Ok items' =>
          let inv1 :=
            sync_encumbrance
              {| gold := gold inv; items := items';
                 encum_bar := encum_bar inv;
                 inventory_emitted := inventory_emitted inv |} in
          Ok (None,
              {| gold := gold inv1; items := items inv1;
                 encum_bar := encum_bar inv1;
                 inventory_emitted :=
                   inventory_emitted inv1 ++ [("item_del", [DataOfItem item])]
              |})
      | Raise e => Raise e
      | OutOfFuel => OutOfFuel
      end
  | Raise e => Raise e
  | OutOfFuel => OutOfFuel
  end.

(** The [for] loop of [add]: the first item of that name gets the quantity
    added; the result is the changed list and the changed item, or [None] when
    the loop ends without [break]. *)
Fixpoint add_existing (l : list InventoryItem) (name : string) (qty : Z)
  : option (list InventoryItem * InventoryItem) :=
  match l with
  | [] => None
  | item :: rest =>
      if String.eqb (item_name item) name then
        let item' := {| item_name := item_name item;
                        quantity := quantity item + qty |} in
        Some (item' :: rest, item')
      else
        match add_existing rest name qty with
        | Some (rest', changed) => Some (item :: rest', changed)
        | None => None
        end
  end.

Definition Inventory_add (inv : Inventory) (name : string) (qty : Z)
  : Inventory :=
  match add_existing (items inv) name qty with
  | Some (items', changed) =>
      sync_encumbrance
        {| gold := gold inv; items := items'; encum_bar := encum_bar inv;
           inventory_emitted :=
             inventory_emitted inv ++ [("item_change", [DataOfItem changed])]
        |}
  | None =>
      let item := {| item_name := name; quantity := qty |} in
      sync_encumbrance
        {| gold := gold inv; items := items inv ++ [item];
           encum_bar := encum_bar inv;
           inventory_emitted :=
             inventory_emitted inv ++ [("item_add", [DataOfItem item])] |}
  end.

Definition set_capacity (inv : Inventory) (capacity : Z) : Inventory :=
  {| gold := gold inv; items := items inv;
     encum_bar :=
       Bar_reset (encum_bar inv) capacity (position (encum_bar inv));
     inventory_emitted := inventory_emitted inv |}.

(** ** Equipment *)

Record Equipment : Type := {
  equipment_items : list (EquipmentType * string);
  equipment_emitted : list Signal
}.

Definition Equipment_init : Equipment :=
  {| equipment_items := [(weapon, "Sharp Rock"); (hauberk, "-3 Burlap")];
     equipment_emitted := [] |}.

Definition Equipment_iter (e : Equipment) : list (EquipmentType * string) :=
  equipment_items e.

Definition Equipment_getitem (e : Equipment) (equipment_type : EquipmentType)
  : option string :=
  dict_get EquipmentType_eq_dec (equipment_items e) equipment_type.

Definition Equipment_put (e : Equipment) (equipment_type : EquipmentType)
  (name : string) : Equipment :=
  {| equipment_items :=
       dict_set EquipmentType_eq_dec (equipment_items e) equipment_type name;
     equipment_emitted :=
       equipment_emitted e
       ++ [("change", [DataEquipment equipment_type name])] |}.

(** ** SpellBook *)

Record Spell : Type := {
  spell_name : string;
  spell_level : Z
}.

Record SpellBook : Type := {
  spells : list Spell;
  spell_emitted : list Signal
}.

Definition SpellBook_init : SpellBook :=
  {| spells := []; spell_emitted := [] |}.

Definition DataOfSpell (s : Spell) : SignalData :=
  DataSpell (spell_name s) (spell_level s).

Fixpoint learn_existing (l : list Spell) (name : string) (lvl : Z)
  : option (list Spell * Spell) :=
  match l with
  | [] => None
  | spell :: rest =>
      if String.eqb (spell_name spell) name then
        let spell' := {| spell_name := spell_name spell;
                         spell_level := spell_level spell + lvl |} in
        Some (spell' :: rest, spell')
      else
        match learn_existing rest name lvl with
        | Some (rest', changed) => Some (spell :: rest', changed)
        | None => None
        end
  end.

Definition SpellBook_add (b : SpellBook) (name : string) (lvl : Z)
  : SpellBook :=
  match learn_existing (spells b) name lvl with
  | Some (spells', changed) =>
      {| spells := spells';
         spell_emitted := spell_emitted b ++ [("change", [DataOfSpell changed])]
      |}
  | None =>
      let spell := {| spell_name := name; spell_level := lvl |} in
      {| spells := spells b ++ [spell];
         spell_emitted := spell_emitted b ++ [("add", [DataOfSpell spell])] |}
  end.

(** ** Tasks *)

Record BaseTask : Type := {
  description : string;
  duration : Z
}.

Inductive Task : Type :=
| KillTask (b : BaseTask) (monster : option Monster)
| BuyTask (b : BaseTask)
| HeadingToKillingFieldsTask (b : BaseTask)
| HeadingToMarketTask (b : BaseTask)
| SellTask (b : BaseTask)
| RegularTask (b : BaseTask)
| PlotTask (b : BaseTask).

Definition base (t : Task) : BaseTask :=
  match t with
  | KillTask b _ | BuyTask b | HeadingToKillingFieldsTask b
  | HeadingToMarketTask b | SellTask b | RegularTask b | PlotTask b => b
  end.

Definition mk_task (ctor : BaseTask -> Task) (d : string) (n : Z) : Task :=
  ctor {| description := d; duration := n |}.

Definition is_KillTask (t : Task) : bool :=
  match t with KillTask _ _ => true | _ => false end.

Definition is_BuyTask (t : Task) : bool :=
  match t with BuyTask _ => true | _ => false end.

Definition is_HeadingToKillingFieldsTask (t : Task) : bool :=
  match t with HeadingToKillingFieldsTask _ => true | _ => false end.

Definition is_HeadingToMarketTask (t : Task) : bool :=
  match t with HeadingToMarketTask _ => true | _ => false end.

Definition is_SellTask (t : Task) : bool :=
  match t with SellTask _ => true | _ => false end.

Definition is_PlotTask (t : Task) : bool :=
  match t with PlotTask _ => true | _ => false end.

(** ** The content provider

    [pqcli/config.py] and [pqcli/lingo.py] are not among the sources: the
    tables and the word combinators that [mechanic.py] imports from them are
    the fields of a record the engine is parameterised by.  [generate_name]
    draws from the generator. *)

Record Content : Type := {
  StatType_members : list StatType;
  EquipmentType_members : list EquipmentType;
  PRIME_STATS : list StatType;
  SPELLS : list string;
  WEAPONS : list EquipmentPreset;
  SHIELDS : list EquipmentPreset;
  ARMORS : list EquipmentPreset;
  OFFENSE_ATTRIB : list Modifier;
  OFFENSE_BAD : list Modifier;
  DEFENSE_ATTRIB : list Modifier;
  DEFENSE_BAD : list Modifier;
  ITEM_OFS : list string;
  ITEM_ATTRIB : list string;
  SPECIALS : list string;
  BORING_ITEMS : list string;
  IMPRESSIVE_TITLES : list string;
  TITLES : list string;
  RACES : list Race;
  CLASSES : list Class;
  MONSTERS : list Monster;
  indefinite : string -> Z -> string;
  definite : string -> Z -> string;
  act_name : Z -> string;
  generate_name : random.Rand string;
  sick : Z -> string -> string;
  young : Z -> string -> string;
  big : Z -> string -> string;
  special : Z -> string -> string
}.

(** ** Player *)

Record Player : Type := {
  player_name : string;
  birthday : Z;
  race : Race;
  class_ : Class;
  stats : Stats;
  exp_bar : Bar;
  level : Z;
  quest_book : QuestBook;
  inventory : Inventory;
  equipment : Equipment;
  spell_book : SpellBook;
  task_bar : Bar;
  task : option Task;
  queue : list Task;
  player_emitted : list Signal
}.

Definition set_stats (p : Player) (x : Stats) : Player :=
  {| player_name := player_name p; birthday := birthday p; race := race p;
     class_ := class_ p; stats := x; exp_bar := exp_bar p; level := level p;
     quest_book := quest_book p; inventory := inventory p;
     equipment := equipment p; spell_book := spell_book p;
     task_bar := task_bar p; task := task p; queue := queue p;
     player_emitted := player_emitted p |}.

Definition set_exp_bar (p : Player) (x : Bar) : Player :=
  {| player_name := player_name p; birthday := birthday p; race := race p;
     class_ := class_ p; stats := stats p; exp_bar := x; level := level p;
     quest_book := quest_book p; inventory := inventory p;
     equipment := equipment p; spell_book := spell_book p;
     task_bar := task_bar p; task := task p; queue := queue p;
     player_emitted := player_emitted p |}.

Definition set_level (p : Player) (x : Z) : Player :=
  {| player_name := player_name p; birthday := birthday p; race := race p;
     class_ := class_ p; stats := stats p; exp_bar := exp_bar p; level := x;
     quest_book := quest_book p; inventory := inventory p;
     equipment := equipment p; spell_book := spell_book p;
     task_bar := task_bar p; task := task p; queue := queue p;
     player_emitted := player_emitted p |}.

Definition set_quest_book (p : Player) (x : QuestBook) : Player :=
  {| player_name := player_name p; birthday := birthday p; race := race p;
     class_ := class_ p; stats := stats p; exp_bar := exp_bar p;
     level := level p; quest_book := x; inventory := inventory p;
     equipment := equipment p; spell_book := spell_book p;
     task_bar := task_bar p; task := task p; queue := queue p;
     player_emitted := player_emitted p |}.

Definition set_inventory (p : Player) (x : Inventory) : Player :=
  {| player_name := player_name p; birthday := birthday p; race := race p;
     class_ := class_ p; stats := stats p; exp_bar := exp_bar p;
     level := level p; quest_book := quest_book p; inventory := x;
     equipment := equipment p; spell_book := spell_book p;
     task_bar := task_bar p; task := task p; queue := queue p;
     player_emitted := player_emitted p |}.

Definition set_equipment (p : Player) (x : Equipment) : Player :=
  {| player_name := player_name p; birthday := birthday p; race := race p;
     class_ := class_ p; stats := stats p; exp_bar := exp_bar p;
     level := level p; quest_book := quest_book p; inventory := inventory p;
     equipment := x; spell_book := spell_book p;
     task_bar := task_bar p; task := task p; queue := queue p;
     player_emitted := player_emitted p |}.

Definition set_spell_book (p : Player) (x : SpellBook) : Player :=
  {| player_name := player_name p; birthday := birthday p; race := race p;
     class_ := class_ p; stats := stats p; exp_bar := exp_bar p;
     level := level p; quest_book := quest_book p; inventory := inventory p;
     equipment := equipment p; spell_book := x;
     task_bar := task_bar p; task := task p; queue := queue p;
     player_emitted := player_emitted p |}.

Definition set_task_bar (p : Player) (x : Bar) : Player :=
  {| player_name := player_name p; birthday := birthday p; race := race p;
     class_ := class_ p; stats := stats p; exp_bar := exp_bar p;
     level := level p; quest_book := quest_book p; inventory := inventory p;
     equipment := equipment p; spell_book := spell_book p;
     task_bar := x; task := task p; queue := queue p;
     player_emitted := player_emitted p |}.

Definition set_queue (p : Player) (x : list Task) : Player :=
  {| player_name := player_name p; birthday := birthday p; race := race p;
     class_ := class_ p; stats := stats p; exp_bar := exp_bar p;
     level := level p; quest_book := quest_book p; inventory := inventory p;
     equipment := equipment p; spell_book := spell_book p;
     task_bar := task_bar p; task := task p; queue := x;
     player_emitted := player_emitted p |}.

Definition Player_emit (p : Player) (signal_name : string) : Player :=
  {| player_name := player_name p; birthday := birthday p; race := race p;
     class_ := class_ p; stats := stats p; exp_bar := exp_bar p;
     level := level p; quest_book := quest_book p; inventory := inventory p;
     equipment := equipment p; spell_book := spell_book p;
     task_bar := task_bar p; task := task p; queue := queue p;
     player_emitted := player_emitted p ++ [(signal_name, [])] |}.

Definition set_task (p : Player) (t : Task) : Player :=
  Player_emit
    {| player_name := player_name p; birthday := birthday p; race := race p;
       class_ := class_ p; stats := stats p; exp_bar := exp_bar p;
       level := level p; quest_book := quest_book p;
       inventory := inventory p; equipment := equipment p;
       spell_book := spell_book p;
       task_bar := Bar_reset (task_bar p) (duration (base t)) 0;
       task := Some t; queue := queue p;
       player_emitted := player_emitted p |}
    "new_task".

Definition equip_price (p : Player) : Z :=
  5 * (level p) ^ 2 + 10 * level p + 20.

Definition QuestBook_emit (q : QuestBook) (signal_name : string) : QuestBook :=
  {| quests := quests q; act := act q; plot_bar := plot_bar q;
     quest_bar := quest_bar q; quest_monster := quest_monster q;
     quest_emitted := quest_emitted q ++ [(signal_name, [])] |}.

Definition set_act (q : QuestBook) (x : Z) : QuestBook :=
  {| quests := quests q; act := x; plot_bar := plot_bar q;
     quest_bar := quest_bar q; quest_monster := quest_monster q;
     quest_emitted := quest_emitted q |}.

Definition set_plot_bar (q : QuestBook) (x : Bar) : QuestBook :=
  {| quests := quests q; act := act q; plot_bar := x;
     quest_bar := quest_bar q; quest_monster := quest_monster q;
     quest_emitted := quest_emitted q |}.

Definition set_quest_bar (q : QuestBook) (x : Bar) : QuestBook :=
  {| quests := quests q; act := act q; plot_bar := plot_bar q;
     quest_bar := x; quest_monster := quest_monster q;
     quest_emitted := quest_emitted q |}.

Definition set_quest_monster (q : QuestBook) (x : option Monster)
  : QuestBook :=
  {| quests := quests q; act := act q; plot_bar := plot_bar q;
     quest_bar := quest_bar q; quest_monster := x;
     quest_emitted := quest_emitted q |}.

(** ** The state of a run: the simulation object and the generator

    [Simulation.last_tick] is written once and never read; it is left out. *)

Record World : Type := {
  player : Player;
  elapsed : Q;
  gen : random.State
}.

Definition W (A : Type) : Type := M World A.

Definition rand {A} (r : random.Rand A) : W A :=
  fun w =>
    match r (gen w) with
    | Ok (a, g) => Ok (a, {| player := player w; elapsed := elapsed w;
                              gen := g |})
    | Raise e => Raise e
    | OutOfFuel => OutOfFuel
    end.

Definition get_player : W Player := fun w => Ok (player w, w).

Definition put_player (p : Player) : W unit :=
  fun w => Ok (tt, {| player := p; elapsed := elapsed w; gen := gen w |}).

Definition modify_player (f : Player -> Player) : W unit :=
  p <- get_player ;; put_player (f p).

Definition stats_getitem (stat : StatType) : W Z :=
  p <- get_player ;; lift_result (Stats_getitem (stats p) stat).

Definition stats_increment (stat : StatType) (qty : Z) : W unit :=
  p <- get_player ;;
  s <- lift_result (Stats_increment (stats p) stat qty) ;;
  put_player (set_stats p s).

(** ** The engine, over a content provider *)

Section Engine.

Variable C : Content.

(** *** Content generation *)

Definition interesting_item : random.Rand string :=
  a <- random.choice (ITEM_ATTRIB C) ;;
  s <- random.choice (SPECIALS C) ;;
  ret (a ++ " " ++ s)%string.

Definition special_item : random.Rand string :=
  i <- interesting_item ;;
  o <- random.choice (ITEM_OFS C) ;;
  ret (i ++ " of " ++ o)%string.

Definition boring_item : random.Rand string :=
  random.choice (BORING_ITEMS C).

Definition impressive_guy : random.Rand string :=
  t <- random.choice (IMPRESSIVE_TITLES C) ;;
  r <- random.below 2 ;;
  if negb (r =? 0) then
    rc <- random.choice (RACES C) ;;
    ret (t ++ " of the " ++ race_name rc)%string
  else
    n <- generate_name C ;;
    ret (t ++ " of " ++ n)%string.

(** The [for _ in range(iterations)] loop of [unnamed_monster]. *)
Fixpoint closer_monster (iterations : nat) (level : Z) (result : Monster)
  : random.Rand Monster :=
  match iterations with
  | O => ret result
  | S n =>
      alternative <- random.choice (MONSTERS C) ;;
      closer_monster n level
        (if Z.abs (level - monster_level alternative)
            <? Z.abs (level - monster_level result)
         then alternative else result)
  end.

Definition unnamed_monster (level : Z) (iterations : nat)
  : random.Rand Monster :=
  result <- random.choice (MONSTERS C) ;;
  closer_monster iterations level result.

Definition named_monster (level : Z) : random.Rand string :=
  monster <- unnamed_monster level 4 ;;
  n <- generate_name C ;;
  ret (n ++ " the " ++ monster_name monster)%string.

(** The [for _ in range(5)] loop of [pick_equipment]. *)
Fixpoint closer_equipment (iterations : nat) (source : list EquipmentPreset)
  (goal : Z) (result : EquipmentPreset) : random.Rand EquipmentPreset :=
  match iterations with
  | O => ret result
  | S n =>
      alternative <- random.choice source ;;
      closer_equipment n source goal
        (if Z.abs (goal - preset_quality alternative)
            <? Z.abs (goal - preset_quality result)
         then alternative else result)
  end.

Definition pick_equipment (source : list EquipmentPreset) (goal : Z)
  : random.Rand EquipmentPreset :=
  result <- random.choice source ;;
  closer_equipment 5 source goal result.

(** The [for _ in range(level)] loop of [monster_task]: the number of rounds
    is fixed when the loop starts. *)
Fixpoint perturb_level (rounds : nat) (level : Z) : random.Rand Z :=
  match rounds with
  | O => ret level
  | S n =>
      b <- random.odds 2 5 ;;
      if b then
        r <- random.below 2 ;;
        perturb_level n (level + (r * 2 - 1))
      else perturb_level n level
  end.

(** The choice between an NPC, the quest monster and a random monster:
    [(is_definite, monster, result, lev)]. *)
Definition monster_task_target (level : Z) (quest_monster0 : option Monster)
  : random.Rand (bool * option Monster * string * Z) :=
  npc <- random.odds 1 25 ;;
  if npc then
    rc <- random.choice (RACES C) ;;
    b <- random.odds 1 2 ;;
    if b then
      cl <- random.choice (CLASSES C) ;;
      ret (false, None,
           ("passing " ++ race_name rc ++ " " ++ class_name cl)%string, level)
    else
      t <- random.choice_low (TITLES C) ;;
      n <- generate_name C ;;
      ret (true, None,
           (t ++ " " ++ n ++ " the " ++ race_name rc)%string, level)
  else
    use_quest <- match quest_monster0 with
                 | Some _ => random.odds 1 4
                 | None => ret false
                 end ;;
    match quest_monster0, use_quest with
    | Some m, true =>
        ret (false, Some m, monster_name m, monster_level m)
    | _, _ =>
        m <- unnamed_monster level 5 ;;
        ret (false, Some m, monster_name m, monster_level m)
    end.

(** The [if level - lev > 10] block: [(qty, level)]. *)
Definition monster_task_pack (level lev : Z) : random.Rand (Z * Z) :=
  if 10 <? level - lev then
    r <- random.below (Z.max lev 1) ;;
    let qty := (level + r) / Z.max lev 1 in
    let qty := if qty <? 1 then 1 else qty in
    ret (qty, level / qty)
  else ret (1, level).

(** The chain of [if]/[elif] that decorates the name. *)
Definition monster_task_decorate (level lev : Z) (result : string)
  : random.Rand string :=
  if level - lev <=? -10 then ret ("imaginary " ++ result)%string
  else if level - lev <? -5 then
    r <- random.below (10 + level - lev + 1) ;;
    let i := 5 - r in
    ret (sick C i (young C (lev - level - i) result))
  else
    coin <- (if level - lev <? 0 then random.below 2 else ret 0) ;;
    if (level - lev <? 0) && (coin =? 1) then
      ret (sick C (level - lev) result)
    else if level - lev <? 0 then ret (young C (level - lev) result)
    else if 10 <=? level - lev then ret ("messianic " ++ result)%string
    else if 5 <? level - lev then
      r <- random.below (10 - (level - lev) + 1) ;;
      let i := 5 - r in
      ret (big C i (special C (level - lev - i) result))
    else
      coin2 <- (if 0 <? level - lev then random.below 2 else ret 0) ;;
      if (0 <? level - lev) && (coin2 =? 1) then
        ret (big C (level - lev) result)
      else if 0 <? level - lev then ret (special C (level - lev) result)
      else ret result.

Definition monster_task (player_level : Z) (quest_monster0 : option Monster)
  : random.Rand Task :=
  level <- perturb_level (Z.to_nat player_level) player_level ;;
  let level := if level <? 1 then 1 else level in
  target <- monster_task_target level quest_monster0 ;;
  let '(is_definite, monster, result, lev) := target in
  pack <- monster_task_pack level lev ;;
  let '(qty, level) := pack in
  result <- monster_task_decorate level lev result ;;
  let lev := level in
  let level := lev * qty in
  let result := if negb is_definite then indefinite C result qty
                else result in
  if player_level =? 0 then raise ZeroDivisionError
  else
    ret (KillTask {| description := ("Executing " ++ result)%string;
                     duration := (2 * 3 * level * 1000) / player_level |}
                  monster).

(** *** Player *)

Definition initial_queue : list Task :=
  [ mk_task RegularTask
      "Experiencing an enigmatic and foreboding night vision" 10000;
    mk_task RegularTask
      "Much is revealed about that wise old bastard you'd underestimated"
      6000;
    mk_task RegularTask
      "A shocking series of events leaves you alone and bewildered, but resolute"
      6000;
    mk_task RegularTask
      "Drawing upon an unrealized reserve of determination, you set out on a long and dangerous journey"
      4000;
    mk_task PlotTask
      ("Loading " ++ act_name C (act QuestBook_init + 1))%string 2000 ].

Definition Player_init (name0 : string) (birthday0 : Z) (race0 : Race)
  (class0 : Class) (stats0 : Stats) : result Player :=
  match Stats_getitem stats0 strength with
  | Ok str =>
      Ok (set_task
            {| player_name := name0; birthday := birthday0; race := race0;
               class_ := class0; stats := stats0;
               exp_bar := Bar_init (level_up_time 1) 0;
               level := 1;
               quest_book := QuestBook_init;
               inventory := Inventory_init (10 + str);
               equipment := Equipment_init;
               spell_book := SpellBook_init;
               task_bar := Bar_init 0 0;
               task := None;
               queue := initial_queue;
               player_emitted := [] |}
            (mk_task RegularTask "Loading" 2000))
  | Raise e => Raise e
  | OutOfFuel => OutOfFuel
  end.

(** The walk of the weighted branch of [win_stat]. *)
Fixpoint weighted_stat (l : list (StatType * Z)) (t : Z)
  (chosen_stat : option StatType) : option StatType :=
  match l with
  | [] => chosen_stat
  | (stat, value) :: rest =>
      let t := t - value ^ 2 in
      if t <? 0 then Some stat else weighted_stat rest t (Some stat)
  end.

Definition win_stat : W bool :=
  uniform <- rand (random.odds 1 2) ;;
  chosen_stat <-
    (if uniform then
       c <- rand (random.choice (StatType_members C)) ;; ret (Some c)
     else
       p <- get_player ;;
       let t := sum_Z (map (fun sv => snd sv ^ 2) (Stats_iter (stats p))) in
       t <- rand (random.below t) ;;
       ret (weighted_stat (Stats_iter (stats p)) t None)) ;;
  match chosen_stat with
  | None => raise AssertionError
  | Some c =>
      stats_increment c 1 ;;;
      (if StatType_eq_dec c strength then
         s <- stats_getitem strength ;;
         modify_player
           (fun p => set_inventory p (set_capacity (inventory p) (10 + s)))
       else ret tt) ;;;
      ret true
  end.

Definition win_spell : W unit :=
  w <- stats_getitem wisdom ;;
  p <- get_player ;;
  i <- rand (random.below_low
               (Z.min (w + level p) (Z.of_nat (List.length (SPELLS C))))) ;;
  sp <- lift_result (py_index (SPELLS C) i) ;;
  modify_player (fun p => set_spell_book p (SpellBook_add (spell_book p) sp 1)).

(** The [while count < 2 and plus] loop of [win_equipment]; [rounds] is
    [2 - count]. *)
Fixpoint add_modifiers (rounds : nat) (modifier_pool : list Modifier)
  (name0 : string) (plus : Z) : random.Rand (string * Z) :=
  match rounds with
  | O => ret (name0, plus)
  | S n =>
      if plus =? 0 then ret (name0, plus)
      else
        modifier <- random.choice modifier_pool ;;
        if contains (modifier_name modifier) name0 then ret (name0, plus)
        else if Z.abs plus <? Z.abs (modifier_quality modifier)
        then ret (name0, plus)
        else add_modifiers n modifier_pool
               (modifier_name modifier ++ " " ++ name0)%string
               (plus - modifier_quality modifier)
  end.

Definition win_equipment : W unit :=
  choice <- rand (random.choice (EquipmentType_members C)) ;;
  let stuff :=
    if EquipmentType_eq_dec choice weapon then WEAPONS C
    else if EquipmentType_eq_dec choice shield then SHIELDS C
    else ARMORS C in
  let better :=
    if EquipmentType_eq_dec choice weapon then OFFENSE_ATTRIB C
    else DEFENSE_ATTRIB C in
  let worse :=
    if EquipmentType_eq_dec choice weapon then OFFENSE_BAD C
    else DEFENSE_BAD C in
  p <- get_player ;;
  equip <- rand (pick_equipment stuff (level p)) ;;
  let plus := level p - preset_quality equip in
  let modifier_pool := if plus <? 0 then worse else better in
  named <- rand (add_modifiers 2 modifier_pool (preset_name equip) plus) ;;
  let '(name0, plus) := named in
  let name1 := if plus <? 0 then (str_of_Z plus ++ " " ++ name0)%string
               else name0 in
  let name2 := if 0 <? plus then ("+" ++ str_of_Z plus ++ " " ++ name1)%string
               else name1 in
  modify_player
    (fun p => set_equipment p (Equipment_put (equipment p) choice name2)).

Definition win_item : W unit :=
  it <- rand special_item ;;
  modify_player (fun p => set_inventory p (Inventory_add (inventory p) it 1)).

Definition level_up : W unit :=
  modify_player (fun p => set_level p (level p + 1)) ;;;
  con <- stats_getitem condition ;;
  r <- rand (random.below 4) ;;
  stats_increment hp_max (con / 3 + 1 + r) ;;;
  int <- stats_getitem intelligence ;;
  r <- rand (random.below 4) ;;
  stats_increment mp_max (int / 3 + 1 + r) ;;;
  win_stat ;;;
  win_stat ;;;
  win_spell ;;;
  modify_player
    (fun p => set_exp_bar p (Bar_reset (exp_bar p) (level_up_time (level p)) 0))
  ;;;
  modify_player (fun p => Player_emit p "level_up").

(** *** Simulation *)

Definition modify_quest_book (f : QuestBook -> QuestBook) : W unit :=
  modify_player (fun p => set_quest_book p (f (quest_book p))).

Definition complete_act : W unit :=
  modify_quest_book (fun q => set_act q (act q + 1)) ;;;
  modify_quest_book
    (fun q => set_plot_bar q
                (Bar_reset (plot_bar q) (60 * 60 * (1 + 5 * act q)) 0)) ;;;
  p <- get_player ;;
  (if 1 <? act (quest_book p) then win_item ;;; win_equipment else ret tt) ;;;
  modify_quest_book (fun q => QuestBook_emit q "complete_act").

(** Truth value of an optional string: [None] and the empty string are
    false. *)
Definition truthy (s : option string) : bool :=
  match s with
  | None => false
  | Some EmptyString => false
  | Some _ => true
  end.

Definition complete_quest : W unit :=
  r <- rand (random.below_low 1000) ;;
  modify_quest_book
    (fun q => set_quest_bar q (Bar_reset (quest_bar q) (50 + r) 0)) ;;;
  p <- get_player ;;
  (if truthy (current_quest (quest_book p)) then
     reward <- rand (random.choice
                       [win_spell; win_equipment;
                        (win_stat ;;; ret tt); win_item]) ;;
     reward
   else ret tt) ;;;
  modify_quest_book (fun q => set_quest_monster q None) ;;;
  choice <- rand (random.below 5) ;;
  p <- get_player ;;
  caption <-
    (if choice =? 0 then
       m <- rand (unnamed_monster (level p) 3) ;;
       modify_quest_book (fun q => set_quest_monster q (Some m)) ;;;
       ret ("Exterminate " ++ definite C (monster_name m) 2)%string
     else if choice =? 1 then
       i <- rand interesting_item ;;
       ret ("Seek " ++ definite C i 1)%string
     else if choice =? 2 then
       b <- rand boring_item ;;
       ret ("Deliver this " ++ b)%string
     else if choice =? 3 then
       b <- rand boring_item ;;
       ret ("Fetch me " ++ indefinite C b 1)%string
     else if choice =? 4 then
       m <- rand (unnamed_monster (level p) 1) ;;
       ret ("Placate " ++ definite C (monster_name m) 2)%string
     else raise AssertionError) ;;
  modify_quest_book (fun q => add_quest q caption) ;;;
  modify_quest_book (fun q => QuestBook_emit q "complete_quest").

(** The post-task effects of one iteration of [dequeue]; the value is [true]
    when the iteration ends in [break]. *)
Definition task_effects : W bool :=
  p <- get_player ;;
  match task p with
  | Some (KillTask _ monster) =>
      match monster with
      | None => win_item ;;; ret false
      | Some m =>
          match monster_item m with
          | None => win_item ;;; ret false
          | Some EmptyString => ret false
          | Some it =>
              modify_player
                (fun p => set_inventory p
                            (Inventory_add (inventory p)
                               (lower (monster_name m ++ " " ++ it)) 1)) ;;;
              ret false
          end
      end
  | Some (BuyTask _) =>
      modify_player
        (fun p => set_inventory p (add_gold (inventory p) (- equip_price p)))
      ;;;
      win_equipment ;;;
      ret false
  | Some (HeadingToMarketTask _) | Some (SellTask _) =>
      (match task p with
       | Some (SellTask _) =>
           item <- lift_result (Inventory_getitem (inventory p) 0) ;;
           let amount := quantity item * level p in
           amount <-
             (if contains " of " (item_name item) then
                a <- rand (random.below_low 10) ;;
                b <- rand (random.below_low (level p)) ;;
                ret (amount * ((1 + a) * (1 + b)))
              else ret amount) ;;
           popped <- lift_result (Inventory_pop (inventory p) 0) ;;
           modify_player (fun p => set_inventory p (snd popped)) ;;;
           modify_player
             (fun p => set_inventory p (add_gold (inventory p) amount))
       | _ => ret tt
       end) ;;;
      p <- get_player ;;
      if negb (Inventory_len (inventory p) =? 0) then
        item <- lift_result (Inventory_getitem (inventory p) 0) ;;
        modify_player
          (fun p =>
             set_task p
               (mk_task SellTask
                  ("Selling " ++ indefinite C (item_name item) (quantity item))
                  1000)) ;;;
        ret true
      else ret false
  | Some (PlotTask _) => complete_act ;;; ret false
  | _ => ret false
  end.

(** The choice of the next task, after the effects of [old]. *)
Definition next_task : W unit :=
  p <- get_player ;;
  let old := task p in
  match queue p with
  | t :: rest => modify_player (fun p => set_task (set_queue p rest) t)
  | [] =>
      if Bar_done (encum_bar (inventory p)) then
        modify_player
          (fun p => set_task p
                      (mk_task HeadingToMarketTask
                         "Heading to market to sell loot" 4000))
      else if negb (match old with
                    | Some (KillTask _ _)
                    | Some (HeadingToKillingFieldsTask _) => true
                    | _ => false
                    end) then
        if equip_price p <? gold (inventory p) then
          modify_player
            (fun p => set_task p
                        (mk_task BuyTask
                           "Negotiating purchase of better equipment" 5000))
        else
          modify_player
            (fun p => set_task p
                        (mk_task HeadingToKillingFieldsTask
                           "Heading to the killing fields" 4000))
      else
        t <- rand (monster_task (level p) (quest_monster (quest_book p))) ;;
        modify_player (fun p => set_task p t)
  end.

Fixpoint dequeue (fuel : nat) : W unit :=
  p <- get_player ;;
  if negb (Bar_done (task_bar p)) then ret tt
  else
    match fuel with
    | O => out_of_fuel
    | S fuel' =>
        broke <- task_effects ;;
        if broke then ret tt
        else next_task ;;; dequeue fuel'
    end.

(** The local function [enqueue] of [interplot_cinematic]. *)
Definition enqueue (fuel : nat) (t : Task) : W unit :=
  modify_player (fun p => set_queue p (queue p ++ [t])) ;;;
  dequeue fuel.

(** The [for i in itertools.count(start=1)] loop of the nemesis scene. *)
Fixpoint nemesis_combat (fuel rounds : nat) (nemesis : string) (i s : Z)
  : W unit :=
  match rounds with
  | O => out_of_fuel
  | S rounds' =>
      p <- get_player ;;
      r <- rand (random.below (1 + act (quest_book p) + 1)) ;;
      if r <? i then ret tt
      else
        d <- rand (random.below 2) ;;
        let s := s + (1 + d) in
        (if s mod 3 =? 0 then
           enqueue fuel
             (mk_task RegularTask
                ("Locked in grim combat with " ++ nemesis) 2000)
         else if s mod 3 =? 1 then
           enqueue fuel
             (mk_task RegularTask
                (nemesis ++ " seems to have the upper hand") 2000)
         else if s mod 3 =? 2 then
           enqueue fuel
             (mk_task RegularTask
                ("You seem to gain the advantage over " ++ nemesis) 2000)
         else raise AssertionError) ;;;
        nemesis_combat fuel rounds' nemesis (i + 1) s
  end.

Definition interplot_cinematic (fuel : nat) : W unit :=
  choice <- rand (random.below 3) ;;
  (if choice =? 0 then
     enqueue fuel
       (mk_task RegularTask
          "Exhausted, you arrive at a friendly oasis in a hostile land" 1000)
     ;;;
     enqueue fuel
       (mk_task RegularTask "You greet old friends and meet new allies" 2000)
     ;;;
     enqueue fuel
       (mk_task RegularTask
          "You are privy to a council of powerful do-gooders" 2000) ;;;
     enqueue fuel
       (mk_task RegularTask "There is much to be done. You are chosen!" 1000)
   else if choice =? 1 then
     enqueue fuel
       (mk_task RegularTask
          "Your quarry is in sight, but a mighty enemy bars your path!" 1000)
     ;;;
     p <- get_player ;;
     nemesis <- rand (named_monster (level p + 3)) ;;
     enqueue fuel
       (mk_task RegularTask
          ("A desperate struggle commences with " ++ nemesis) 4000) ;;;
     s <- rand (random.below 3) ;;
     nemesis_combat fuel fuel nemesis 1 s ;;;
     enqueue fuel
       (mk_task RegularTask
          ("Victory! " ++ nemesis
           ++ " is slain! Exhausted, you lose conciousness") 3000) ;;;
     enqueue fuel
       (mk_task RegularTask
          "You awake in a friendly place, but the road awaits" 2000)
   else if choice =? 2 then
     nemesis <- rand impressive_guy ;;
     enqueue fuel
       (mk_task RegularTask
          ("Oh sweet relief! You've reached the protection of the good "
           ++ nemesis) 2000) ;;;
     enqueue fuel
       (mk_task RegularTask
          ("There is rejoicing, and an unnerving encouter with " ++ nemesis
           ++ " in private") 3000) ;;;
     b <- rand boring_item ;;
     enqueue fuel
       (mk_task RegularTask
          ("You forget your " ++ b ++ " and go back to get it") 2000) ;;;
     enqueue fuel
       (mk_task RegularTask
          "What's this!? You overhear something shocking!" 2000) ;;;
     enqueue fuel
       (mk_task RegularTask
          ("Could " ++ nemesis ++ " be a dirty double-dealer?") 2000) ;;;
     enqueue fuel
       (mk_task RegularTask
          "Who can possibly be trusted with this news!? ... Oh yes, of course"
          3000)
   else raise AssertionError) ;;;
  p <- get_player ;;
  enqueue fuel
    (mk_task PlotTask
       ("Loading " ++ act_name C (act (quest_book p) + 1))%string 1000).

Definition is_kill (t : option Task) : bool :=
  match t with
  | Some t => is_KillTask t
  | None => false
  end.

Definition tick (fuel : nat) (elapsed0 : Q) : W unit :=
  p <- get_player ;;
  if negb (Bar_done (task_bar p)) then
    fun w =>
      Ok (tt, {| player :=
                   set_task_bar (player w)
                     (Bar_increment (task_bar (player w)) elapsed0);
                 elapsed := (elapsed w + elapsed0)%Q;
                 gen := gen w |})
  else
    let gain := is_kill (task p) in
    (if gain then
       if Bar_done (exp_bar p) then level_up
       else
         modify_player
           (fun p => set_exp_bar p
                       (Bar_increment (exp_bar p)
                          (inject_Z (max_ (task_bar p)) / 1000)%Q))
     else ret tt) ;;;
    p <- get_player ;;
    (if gain && (1 <=? act (quest_book p)) then
       if Bar_done (quest_bar (quest_book p))
          || match current_quest (quest_book p) with
             | None => true
             | Some _ => false
             end
       then complete_quest
       else
         modify_quest_book
           (fun q => set_quest_bar q
                       (Bar_increment (quest_bar q)
                          (inject_Z (max_ (task_bar p)) / 1000)%Q))
     else ret tt) ;;;
    p <- get_player ;;
    (if gain then
       if Bar_done (plot_bar (quest_book p)) then interplot_cinematic fuel
       else
         modify_quest_book
           (fun q => set_plot_bar q
                       (Bar_increment (plot_bar q)
                          (inject_Z (max_ (task_bar p)) / 1000)%Q))
     else ret tt) ;;;
    dequeue fuel.

(** *** StatsBuilder and create_player *)

(** The dictionary comprehension of [roll]. *)
Fixpoint roll_prime (l : list StatType) (acc : list (StatType * Z))
  : random.Rand (list (StatType * Z)) :=
  match l with
  | [] => ret acc
  | stat :: rest =>
      a <- random.below 6 ;;
      b <- random.below 6 ;;
      c <- random.below 6 ;;
      roll_prime rest (dict_set StatType_eq_dec acc stat (3 + a + b + c))
  end.

Definition dict_getitem (d : list (StatType * Z)) (k : StatType)
  : random.Rand Z :=
  match dict_get StatType_eq_dec d k with
  | Some v => ret v
  | None => raise KeyError
  end.

Definition roll (history : list Stats) : random.Rand (Stats * list Stats) :=
  vals <- roll_prime (PRIME_STATS C) [] ;;
  r <- random.below 8 ;;
  con <- dict_getitem vals condition ;;
  let vals := dict_set StatType_eq_dec vals hp_max (r + con / 6) in
  r <- random.below 8 ;;
  int <- dict_getitem vals intelligence ;;
  let vals := dict_set StatType_eq_dec vals mp_max (r + int / 6) in
  let st := Stats_init vals in
  ret (st, (history ++ [st])%list).

Definition unroll (history : list Stats) : result (Stats * list Stats) :=
  match py_list_pop history (-1) with
  | Ok history' =>
      match py_index history' (-1) with
      | Ok st => Ok (st, history')
      | Raise e => Raise e
      | OutOfFuel => OutOfFuel
      end
  | Raise e => Raise e
  | OutOfFuel => OutOfFuel
  end.

(** [create_player] seeds the generator with the current time; [sequence] is
    the raw sequence that this seed determines. *)
Definition create_player (now : Z) (sequence : nat -> Z) (name0 : string)
  (race0 : Race) (class0 : Class) (stats0 : Stats) : result World :=
  match Player_init name0 now race0 class0 stats0 with
  | Ok p => Ok {| player := p; elapsed := 0; gen := random.seed sequence |}
  | Raise e => Raise e
  | OutOfFuel => OutOfFuel
  end.



End Engine.

(** ** A small content provider, for concrete runs *)

Module Demo.

Definition mods (l : list (string * Z)) : list Modifier :=
  map (fun nq => {| modifier_name := fst nq; modifier_quality := snd nq |}) l.

Definition presets (l : list (string * Z)) : list EquipmentPreset :=
  map (fun nq => {| preset_name := fst nq; preset_quality := snd nq |}) l.

Definition plural (s : string) (n : Z) : string :=
  if n =? 1 then s else (str_of_Z n ++ " " ++ s ++ "s")%string.

Definition prefix_word (w : string) (m : Z) (s : string) : string :=
  if m =? 0 then s else (w ++ " " ++ s)%string.

Definition content : Content :=
  {| StatType_members :=
       [strength; condition; other_stat 0; intelligence; wisdom;
        other_stat 1; hp_max; mp_max];
     EquipmentType_members :=
       [weapon; shield; other_slot 0; hauberk; other_slot 1];
     PRIME_STATS :=
       [strength; condition; other_stat 0; intelligence; wisdom;
        other_stat 1];
     SPELLS := ["Slime Finger"; "Rabbit Punch"; "Hastiness"];
     WEAPONS := presets [("Stick", 0); ("Broken Bottle", 1); ("Shiv", 1)];
     SHIELDS := presets [("Parasol", 0); ("Pie Plate", 1)];
     ARMORS := presets [("Lace", 1); ("Macrame", 2); ("Burlap", 3)];
     OFFENSE_ATTRIB := mods [("Polished", 1); ("Serrated", 1)];
     OFFENSE_BAD := mods [("Dull", -2); ("Tarnished", -1)];
     DEFENSE_ATTRIB := mods [("Studded", 1); ("Banded", 2)];
     DEFENSE_BAD := mods [("Holey", -1); ("Patched", -1)];
     ITEM_OFS := ["Foreboding"; "Foreshadowing"];
     ITEM_ATTRIB := ["Golden"; "Gilded"];
     SPECIALS := ["Diadem"; "Festoon"];
     BORING_ITEMS := ["nail"; "lunchpail"];
     IMPRESSIVE_TITLES := ["King"; "Queen"];
     TITLES := ["Mr."; "Mrs."];
     RACES := [ {| race_name := "Half Orc" |}; {| race_name := "Gyrognome" |} ];
     CLASSES := [ {| class_name := "Ur-Paladin" |} ];
     MONSTERS :=
       [ {| monster_name := "Anhkheg"; monster_level := 6;
            monster_item := Some "chitin" |};
         {| monster_name := "Ant"; monster_level := 0;
            monster_item := Some "antenna" |};
         {| monster_name := "Beer Golem"; monster_level := 15;
            monster_item := None |} ];
     indefinite := plural;
     definite := fun s n => ("the " ++ plural s n)%string;
     act_name := fun n => ("Act " ++ str_of_Z n)%string;
     generate_name := ret "Grunax";
     sick := prefix_word "sick";
     young := prefix_word "young";
     big := prefix_word "big";
     special := prefix_word "veteran" |}.

Definition sequence (n : nat) : Z := Z.of_nat (n * n + 3 * n + 1).

Definition rolled : result (Stats * random.State) :=
  match roll content [] (random.seed sequence) with
  | Ok (sh, g) => Ok (fst sh, g)
  | Raise e => Raise e
  | OutOfFuel => OutOfFuel
  end.

Definition start : result World :=
  match rolled with
  | Ok (st, _) =>
      create_player content 0 sequence "Hero" {| race_name := "Half Orc" |}
        {| class_name := "Ur-Paladin" |} st
  | Raise e => Raise e
  | OutOfFuel => OutOfFuel
  end.

Definition blank : Player :=
  {| player_name := EmptyString; birthday := 0;
     race := {| race_name := EmptyString |};
     class_ := {| class_name := EmptyString |};
     stats := Stats_init []; exp_bar := Bar_init 0 0; level := 0;
     quest_book := QuestBook_init; inventory := Inventory_init 0;
     equipment := Equipment_init; spell_book := SpellBook_init;
     task_bar := Bar_init 0 0; task := None; queue := [];
     player_emitted := [] |}.

(** The world [start] returns. *)
Definition world : World :=
  match start with
  | Ok w => w
  | _ => {| player := blank; elapsed := 0; gen := random.seed sequence |}
  end.

(** The same world once the first task has run its 2000 units. *)
Definition finished : World :=
  match tick content 0 2000 world with
  | Ok (_, w) => w
  | _ => world
  end.

End Demo.

(** * Vocabulary of the properties *)

(** ** Bars *)






(** ** Quest log *)

Definition full_quest_book : QuestBook :=
  {| quests := repeat "Fetch me a nail" 100; act := 1;
     plot_bar := Bar_init 21600 0; quest_bar := Bar_init 50 0;
     quest_monster := None; quest_emitted := [] |}.

(** ** Inventories *)

(** The position a Python index denotes in a list of length [n]. *)
Definition normal_index (n index : Z) : Z :=
  if index <? 0 then index + n else index.

Definition one_nail : Inventory :=
  Inventory_add (Inventory_init 10) "nail" 1.

(** ** Specifications of computations *)

(** [r] returns from every generator state, with a value satisfying [R]. *)
Definition draws {A} (r : random.Rand A) (R : A -> Prop) : Prop :=
  forall g, exists a g', r g = Ok (a, g') /\ R a.

(** Started on player [p0], [m] returns, with a value and a player
    satisfying [Q]. *)
Definition runs {A} (p0 : Player) (m : W A) (Q : A -> Player -> Prop) : Prop :=
  forall w, player w = p0 ->
            exists a w', m w = Ok (a, w') /\ Q a (player w').

(** Started on player [p0], whenever [m] returns, the value and the player
    satisfy [Q]. *)
Definition returns {A} (p0 : Player) (m : W A) (Q : A -> Player -> Prop)
  : Prop :=
  forall w a w', player w = p0 -> m w = Ok (a, w') -> Q a (player w').

(** A computation taking fuel gives the same result with more fuel. *)
Definition fuel_monotone {S A} (m : nat -> M S A) : Prop :=
  forall fuel fuel' s r, m fuel s = Ok r -> (fuel <= fuel')%nat ->
                         m fuel' s = Ok r.

(** ** The content provider the engine expects *)

Definition named_stats : list StatType :=
  [strength; condition; intelligence; wisdom; hp_max; mp_max].

Definition has_drop_name (m : Monster) : Prop :=
  monster_item m <> Some EmptyString.

(** Every table is non-empty, the members of [StatType] that [mechanic.py]
    names are members, every member is rolled by [StatsBuilder.roll],
    [generate_name] returns, and no monster has an empty string for a drop
    (a monster without a drop has [None]). *)
Record content_ok (C : Content) : Prop := {
  ok_named_stats : forall s, In s named_stats -> In s (StatType_members C);
  ok_rolled :
    forall s, In s (StatType_members C) ->
              In s (PRIME_STATS C) \/ s = hp_max \/ s = mp_max;
  ok_slots : EquipmentType_members C <> [];
  ok_spells : SPELLS C <> [];
  ok_weapons : WEAPONS C <> [];
  ok_shields : SHIELDS C <> [];
  ok_armors : ARMORS C <> [];
  ok_offense_attrib : OFFENSE_ATTRIB C <> [];
  ok_offense_bad : OFFENSE_BAD C <> [];
  ok_defense_attrib : DEFENSE_ATTRIB C <> [];
  ok_defense_bad : DEFENSE_BAD C <> [];
  ok_item_ofs : ITEM_OFS C <> [];
  ok_item_attrib : ITEM_ATTRIB C <> [];
  ok_specials : SPECIALS C <> [];
  ok_boring_items : BORING_ITEMS C <> [];
  ok_impressive_titles : IMPRESSIVE_TITLES C <> [];
  ok_titles : TITLES C <> [];
  ok_races : RACES C <> [];
  ok_classes : CLASSES C <> [];
  ok_monsters : MONSTERS C <> [];
  ok_drops : Forall has_drop_name (MONSTERS C);
  ok_generate_name : draws (generate_name C) (fun _ => True)
}.

(** ** Invariants of the player *)

Definition monster_ok (m : option Monster) : Prop :=
  match m with
  | Some m => has_drop_name m
  | None => True
  end.

(** The tasks the engine puts in the pending queue. *)
Definition queue_task_ok (t : Task) : Prop :=
  (exists b, t = RegularTask b \/ t = PlotTask b) /\ 0 < duration (base t).

Definition task_monster (t : Task) : option Monster :=
  match t with
  | KillTask _ m => m
  | _ => None
  end.

(** The active task: the task bar measures it, a bar that is not done
    belongs to a task of positive duration, a [SellTask] has something to
    sell. *)
Definition task_ok (p : Player) (t : Task) : Prop :=
  max_ (task_bar p) = duration (base t)
  /\ (Bar_done (task_bar p) = false -> 0 < duration (base t))
  /\ (is_SellTask t = true -> items (inventory p) <> [])
  /\ monster_ok (task_monster t).

Record task_inv (p : Player) : Prop := {
  inv_level : 1 <= level p;
  inv_task : exists t, task p = Some t /\ task_ok p t;
  inv_queue : Forall queue_task_ok (queue p);
  inv_quest_monster : monster_ok (quest_monster (quest_book p))
}.

Definition sum_squares (d : list (StatType * Z)) : Z :=
  sum_Z (map (fun sv => snd sv ^ 2) d).

Definition stat_of (s : Stats) (k : StatType) : option Z :=
  dict_get StatType_eq_dec (values s) k.

(** Every member of [StatType] has a value, no value is negative and not all
    are zero. *)
Record stats_ok (C : Content) (s : Stats) : Prop := {
  ok_keys : forall k, In k (StatType_members C) -> stat_of s k <> None;
  ok_nonneg : Forall (fun kv => 0 <= snd kv) (values s);
  ok_positive : 0 < sum_squares (values s)
}.

Definition exp_ok (p : Player) : Prop :=
  max_ (exp_bar p) = level_up_time (level p).

Record engine_inv (C : Content) (p : Player) : Prop := {
  inv_tasks : task_inv p;
  inv_stats : stats_ok C (stats p);
  inv_exp : exp_ok p
}.

(** The same keys in the same order, with values that did not decrease. *)
Definition stats_le (s s' : Stats) : Prop :=
  Forall2 (fun kv kv' => fst kv' = fst kv /\ snd kv <= snd kv')
          (values s) (values s').

(** What the rewards leave in place. *)
Record keeps (p p' : Player) : Prop := {
  keeps_level : level p' = level p;
  keeps_exp_bar : exp_bar p' = exp_bar p;
  keeps_task : task p' = task p;
  keeps_task_bar : task_bar p' = task_bar p;
  keeps_queue : queue p' = queue p;
  keeps_items : items (inventory p) <> [] -> items (inventory p') <> [];
  keeps_stats : stats_le (stats p) (stats p');
  keeps_quest_monster :
    monster_ok (quest_monster (quest_book p)) ->
    monster_ok (quest_monster (quest_book p'))
}.

(** ** Reachable states *)

(** Statistics that [StatsBuilder.roll] produced ([unroll] returns such
    statistics too). *)
Definition rolled (C : Content) (st : Stats) : Prop :=
  exists history g history' g', roll C history g = Ok ((st, history'), g').

(** The states of a game: [create_player] on rolled statistics, then
    ticks. *)
Inductive reachable (C : Content) : World -> Prop :=
| reachable_start (now : Z) (sequence : nat -> Z) (name0 : string)
    (race0 : Race) (class0 : Class) (st : Stats) (w : World) :
    rolled C st ->
    create_player C now sequence name0 race0 class0 st = Ok w ->
    reachable C w
| reachable_tick (w w' : World) (fuel : nat) (e : Q) :
    reachable C w ->
    tick C fuel e w = Ok (tt, w') ->
    reachable C w'.

(** ** The outcome of [win_stat] *)

Definition incremented (s : Stats) (k : StatType) (v : Z) : Stats :=
  {| values := dict_set StatType_eq_dec (values s) k v;
     stats_emitted := stats_emitted s ++ [("change", [])] |}.

(** The player after [win_stat] chose [c], whose value was [v]. *)
Definition won_stat (p0 : Player) (c : StatType) (v : Z) : Player :=
  let p1 := set_stats p0 (incremented (stats p0) c (v + 1)) in
  if StatType_eq_dec c strength
  then set_inventory p1 (set_capacity (inventory p1) (10 + (v + 1)))
  else p1.

(** ** The outcome of [level_up] *)

(** The last two steps of [level_up], on the player [p] the rewards left. *)
Definition leveled (p : Player) : Player :=
  Player_emit
    (set_exp_bar p (Bar_reset (exp_bar p) (level_up_time (level p)) 0))
    "level_up".

(** ** What one iteration of [dequeue] does *)

(** What the effects of a finished task leave in place. *)
Record settled (p p' : Player) : Prop := {
  settled_level : level p' = level p;
  settled_exp_bar : exp_bar p' = exp_bar p;
  settled_stats : stats p' = stats p;
  settled_task : task p' = task p;
  settled_task_bar : task_bar p' = task_bar p;
  settled_queue : queue p' = queue p;
  settled_quest_monster :
    quest_monster (quest_book p') = quest_monster (quest_book p)
}.

(** The end of the market branch, on the player [q] left by the sale: with
    something left to sell a [SellTask] is set and the loop breaks. *)
Definition market_outcome (C : Content) (q : Player) (broke : bool)
  (p : Player) : Prop :=
  match items (inventory q) with
  | [] => broke = false /\ p = q
  | item :: _ =>
      broke = true
      /\ p = set_task q
               (mk_task SellTask
                  ("Selling "
                   ++ indefinite C (item_name item) (quantity item))
                  1000)
  end.

(** The player and the [break] flag after the effects of the finished task
    [t]. *)
Definition effects_outcome (C : Content) (p0 : Player) (t : Task)
  (broke : bool) (p : Player) : Prop :=
  match t with
  | KillTask _ _ =>
      broke = false
      /\ exists name,
           p = set_inventory p0 (Inventory_add (inventory p0) name 1)
  | BuyTask _ =>
      broke = false
      /\ exists slot name,
           p = set_equipment
                 (set_inventory p0
                    (add_gold (inventory p0) (- equip_price p0)))
                 (Equipment_put (equipment p0) slot name)
  | HeadingToMarketTask _ => market_outcome C p0 broke p
  | SellTask _ =>
      exists amount inv1,
        Inventory_pop (inventory p0) 0 = Ok (None, inv1)
        /\ market_outcome C (set_inventory p0 (add_gold inv1 amount)) broke p
  | PlotTask _ => broke = false /\ settled p0 p
  | HeadingToKillingFieldsTask _ | RegularTask _ => broke = false /\ p = p0
  end.

Definition is_hunting (t : Task) : bool :=
  match t with
  | KillTask _ _ | HeadingToKillingFieldsTask _ => true
  | _ => false
  end.

(** The player after [next_task]. *)
Definition next_outcome (p0 p : Player) : Prop :=
  match queue p0 with
  | t :: rest => p = set_task (set_queue p0 rest) t
  | [] =>
      if Bar_done (encum_bar (inventory p0)) then
        p = set_task p0
              (mk_task HeadingToMarketTask
                 "Heading to market to sell loot" 4000)
      else if negb (match task p0 with
                    | Some t => is_hunting t
                    | None => false
                    end) then
        if equip_price p0 <? gold (inventory p0) then
          p = set_task p0
                (mk_task BuyTask
                   "Negotiating purchase of better equipment" 5000)
        else
          p = set_task p0
                (mk_task HeadingToKillingFieldsTask
                   "Heading to the killing fields" 4000)
      else
        exists t, is_KillTask t = true /\ monster_ok (task_monster t)
                  /\ p = set_task p0 t
  end.

(** ** The loop of [dequeue] *)

(** How many more units the inventory takes before the encumbrance bar is
    full. *)
Definition kill_budget (p : Player) : nat :=
  Z.to_nat (max_ (encum_bar (inventory p))
            - total_quantity (items (inventory p))).

(** What [dequeue] leaves in place. *)
Definition unleveled (p0 p : Player) : Prop :=
  level p = level p0 /\ exp_bar p = exp_bar p0 /\ stats p = stats p0.

(** The player when [dequeue] returns. *)
Definition dequeued (p0 p : Player) : Prop :=
  unleveled p0 p /\ task_inv p /\ Bar_done (task_bar p) = false.

(** The player after an iteration of [dequeue] that did not [break]: either
    the new task takes time, or it is a [KillTask] set with an empty queue,
    after a [KillTask] that used up one unit of [kill_budget] or after the
    travel to the killing fields. *)
Definition iterated (p0 p : Player) : Prop :=
  unleveled p0 p /\ task_inv p
  /\ (Bar_done (task_bar p) = false
      \/ (is_kill (task p) = true /\ queue p = []
          /\ ((is_kill (task p0) = true /\ (kill_budget p < kill_budget p0)%nat)
              \/ (is_kill (task p0) = false
                  /\ kill_budget p = kill_budget p0)))).

(** ** Comparing computations *)

(** Every result of [m] is a result of [m']. *)
Definition refines {S A} (m m' : M S A) : Prop :=
  forall s r, m s = Ok r -> m' s = Ok r.

(** [m] keeps the invariant of the engine, whenever it returns. *)
Definition preserves {A} (C : Content) (m : W A) : Prop :=
  forall p0, engine_inv C p0 -> returns p0 m (fun _ p => engine_inv C p).

(** [m] returns a player that kept what rewards keep, on every player with
    well-formed statistics. *)
Definition rewarding {A} (C : Content) (m : W A) : Prop :=
  forall p0, stats_ok C (stats p0) -> 1 <= level p0 ->
             runs p0 m (fun _ p => keeps p0 p).

(** ** The purchase scenario *)





(** A level-1 player with 100 gold and two items, whose [SellTask] has run
    its 1000 units; the queue is empty and the encumbrance bar is not
    full. *)
Definition seller : World :=
  let p := player Demo.world in
  let inv :=
    add_gold
      (Inventory_add (Inventory_add (inventory p) "nail" 1) "lunchpail" 1)
      100 in
  {| player :=
       set_queue
         (set_task_bar
            (set_task (set_inventory p inv)
               (mk_task SellTask "Selling nail" 1000))
            (Bar_reposition (Bar_init 1000 0) 1000))
         [];
     elapsed := 0;
     gen := random.seed Demo.sequence |}.

(** ** Candidates of a nearest-of-n search *)

(** The values the next [n] calls of [random.choice l] return, from the
    generator state [g]. *)
Fixpoint choices {A} (n : nat) (l : list A) (g : random.State) : list A :=
  match n with
  | O => []
  | S n' =>
      match random.choice l g with
      | Ok (a, g') => a :: choices n' l g'
      | _ => []
      end
  end.

(** ** The item [win_equipment] names *)

(** The presets and the modifiers [win_equipment] uses for a slot, the
    latter by the sign of what the level leaves over the preset's quality. *)
Definition equipment_source (C : Content) (slot : EquipmentType)
  : list EquipmentPreset :=
  if EquipmentType_eq_dec slot weapon then WEAPONS C
  else if EquipmentType_eq_dec slot shield then SHIELDS C
  else ARMORS C.

Definition modifier_source (C : Content) (slot : EquipmentType) (plus : Z)
  : list Modifier :=
  if plus <? 0 then
    if EquipmentType_eq_dec slot weapon then OFFENSE_BAD C else DEFENSE_BAD C
  else
    if EquipmentType_eq_dec slot weapon then OFFENSE_ATTRIB C
    else DEFENSE_ATTRIB C.

(** A name with modifiers put in front of it, the first applied innermost. *)
Definition modified (applied : list Modifier) (name : string) : string :=
  fold_left (fun s m => (modifier_name m ++ " " ++ s)%string) applied name.

(** The numeric prefix of an item that is [plus] better than its name says. *)
Definition numbered (plus : Z) (name : string) : string :=
  if plus <? 0 then (str_of_Z plus ++ " " ++ name)%string
  else if 0 <? plus then ("+" ++ str_of_Z plus ++ " " ++ name)%string
  else name.

(** ** Rewards *)

(** [p'] is [p] after one of the four rewards of a completed quest: a spell
    level, an item of equipment, a stat point or an item. *)
Definition rewarded (p p' : Player) : Prop :=
  (exists sp, p' = set_spell_book p (SpellBook_add (spell_book p) sp 1))
  \/ (exists slot name,
        p' = set_equipment p (Equipment_put (equipment p) slot name))
  \/ (exists c v, stat_of (stats p) c = Some v /\ p' = won_stat p c v)
  \/ (exists name,
        p' = set_inventory p (Inventory_add (inventory p) name 1)).

(** ** The cinematic between two acts *)

(** [p] is [p1] with the tasks [added] appended to its queue. *)
Definition queued (p1 : Player) (added : list Task) (p : Player) : Prop :=
  p = set_queue p1 (queue p1 ++ added).

(** The tasks of a cinematic before the one that loads the next act. *)
Definition scene_task (t : Task) : Prop :=
  exists b, t = RegularTask b /\ 0 < duration b.

(** The player after the first [enqueue] of a cinematic that starts when a
    [KillTask] has run out. *)
Definition first_scene (p0 : Player) (first : Task) (name : string)
  (hd : Task) (rest : list Task) : Player :=
  set_task
    (set_queue
       (set_inventory (set_queue p0 (queue p0 ++ [first]))
          (Inventory_add (inventory p0) name 1))
       rest)
    hd.

(** The first player of the demonstration when a [KillTask] of 1000 units
    has run out. *)
Definition hunter : World :=
  let p := player Demo.world in
  {| player :=
       set_task_bar
         (set_task p
            (KillTask {| description := "Executing a passing Half Orc";
                         duration := 1000 |} None))
         (Bar_reposition (Bar_init 1000 0) 1000);
     elapsed := 0;
     gen := random.seed Demo.sequence |}.

(** ** Progress *)

(** Neither the level nor any statistic of [p0] is higher than in [p]. *)
Definition grown (p0 p : Player) : Prop :=
  level p0 <= level p /\ stats_le (stats p0) (stats p).

(** Whenever [m] returns, the invariant of the engine is kept and the player
    has grown. *)
Definition growing {A} (C : Content) (m : W A) : Prop :=
  forall p0, engine_inv C p0 ->
             returns p0 m (fun _ p => engine_inv C p /\ grown p0 p).

(** ** Gold *)

Definition is_buy (t : option Task) : bool :=
  match t with
  | Some t => is_BuyTask t
  | None => false
  end.

(** The player owes nothing: the gold and the quantities of the items are
    not negative, and a purchase under negotiation is one the gold pays. *)
Definition solvent (p : Player) : Prop :=
  0 <= gold (inventory p)
  /\ Forall (fun it => 0 <= quantity it) (items (inventory p))
  /\ (is_buy (task p) = true -> equip_price p < gold (inventory p)).

(** What the rewards leave of the inventory and of the task. *)
Definition stocked (p p' : Player) : Prop :=
  gold (inventory p') = gold (inventory p)
  /\ (Forall (fun it => 0 <= quantity it) (items (inventory p)) ->
      Forall (fun it => 0 <= quantity it) (items (inventory p')))
  /\ task p' = task p.

(** Whenever [m] returns, inventory and task are as the rewards leave
    them. *)
Definition stocking {A} (m : W A) : Prop :=
  forall p0, returns p0 m (fun _ p => stocked p0 p).

(** Whenever [m] returns, the invariant of the engine is kept and the player
    still owes nothing. *)
Definition thrifty {A} (C : Content) (m : W A) : Prop :=
  forall p0, engine_inv C p0 -> solvent p0 ->
             returns p0 m (fun _ p => engine_inv C p /\ solvent p).

(** Whenever [m] returns from a player who is not negotiating a purchase,
    the invariant of the engine is kept, the player still owes nothing and
    is still not negotiating one. *)
Definition careful {A} (C : Content) (m : W A) : Prop :=
  forall p0, engine_inv C p0 -> solvent p0 -> is_buy (task p0) = false ->
             returns p0 m (fun _ p => engine_inv C p /\ solvent p
                                      /\ is_buy (task p) = false).

(** ** The clock *)


(** ** A content provider that lacks tables

    The demonstration's provider with strength as the only prime stat and
    no monster. *)
Definition bare : Content :=
  {| StatType_members := StatType_members Demo.content;
     EquipmentType_members := EquipmentType_members Demo.content;
     PRIME_STATS := [strength];
     SPELLS := SPELLS Demo.content;
     WEAPONS := WEAPONS Demo.content;
     SHIELDS := SHIELDS Demo.content;
     ARMORS := ARMORS Demo.content;
     OFFENSE_ATTRIB := OFFENSE_ATTRIB Demo.content;
     OFFENSE_BAD := OFFENSE_BAD Demo.content;
     DEFENSE_ATTRIB := DEFENSE_ATTRIB Demo.content;
     DEFENSE_BAD := DEFENSE_BAD Demo.content;
     ITEM_OFS := ITEM_OFS Demo.content;
     ITEM_ATTRIB := ITEM_ATTRIB Demo.content;
     SPECIALS := SPECIALS Demo.content;
     BORING_ITEMS := BORING_ITEMS Demo.content;
     IMPRESSIVE_TITLES := IMPRESSIVE_TITLES Demo.content;
     TITLES := TITLES Demo.content;
     RACES := RACES Demo.content;
     CLASSES := CLASSES Demo.content;
     MONSTERS := [];
     indefinite := indefinite Demo.content;
     definite := definite Demo.content;
     act_name := act_name Demo.content;
     generate_name := generate_name Demo.content;
     sick := sick Demo.content;
     young := young Demo.content;
     big := big Demo.content;
     special := special Demo.content |}.

(** The first player of the demonstration without statistics. *)
Definition witless : World :=
  {| player := set_stats (player Demo.world) (Stats_init []);
     elapsed := 0;
     gen := random.seed Demo.sequence |}.

(** ** Experience *)



(** * Properties *)

(** ** Arithmetic of bar positions *)

Lemma Qle_bool_inject_Z (a b : Z) :
  Qle_bool (inject_Z a) (inject_Z b) = (a <=? b).
Proof.
  unfold Qle_bool; simpl. now rewrite !Z.mul_1_r.
Qed.

Lemma py_min_inject_Z (a b : Z) :
  py_min (inject_Z a) (inject_Z b) = inject_Z (Z.min a b).
Proof.
  unfold py_min. rewrite Qle_bool_inject_Z.
  destruct (Z.leb_spec a b).
  - now rewrite Z.min_l by lia.
  - now rewrite Z.min_r by lia.
Qed.






(** ** C1: the bar invariant *)




(** ** C4: the encumbrance bar *)

Lemma sync_encumbrance_position (inv : Inventory) :
  position (encum_bar (sync_encumbrance inv))
  = inject_Z (Z.min (total_quantity (items inv)) (max_ (encum_bar inv))).
Proof. simpl. apply py_min_inject_Z. Qed.

Lemma Inventory_add_synced (inv : Inventory) (name : string) (qty : Z) :
  position (encum_bar (Inventory_add inv name qty))
  = inject_Z (Z.min (total_quantity (items (Inventory_add inv name qty)))
                    (max_ (encum_bar (Inventory_add inv name qty)))).
Proof.
  unfold Inventory_add.
  destruct (add_existing (items inv) name qty) as [[items' changed] |];
    simpl; apply py_min_inject_Z.
Qed.





(** ** C5: equipment slots *)

Lemma dict_get_set_same {K V} (dec : forall a b : K, {a = b} + {a <> b})
  (d : list (K * V)) (k : K) (v : V) :
  dict_get dec (dict_set dec d k v) k = Some v.
Proof.
  induction d as [| [k' v'] rest IH]; simpl.
  - now destruct (dec k k).
  - destruct (dec k k') as [-> | Hne]; simpl.
    + now destruct (dec k' k').
    + now destruct (dec k k').
Qed.

Lemma dict_get_set_other {K V} (dec : forall a b : K, {a = b} + {a <> b})
  (d : list (K * V)) (k k0 : K) (v : V) :
  k0 <> k -> dict_get dec (dict_set dec d k v) k0 = dict_get dec d k0.
Proof.
  intros Hne. induction d as [| [k' v'] rest IH]; simpl.
  - destruct (dec k0 k); [contradiction | reflexivity].
  - destruct (dec k k') as [-> | Hk]; simpl.
    + destruct (dec k0 k'); [contradiction | reflexivity].
    + destruct (dec k0 k'); [reflexivity | exact IH].
Qed.

(** C5, counterexample: a fresh [Equipment] has no entry for the shield. *)
Lemma Equipment_counterexample :
  ~ (exists name, Equipment_getitem Equipment_init shield = Some name).
Proof. intros [name H]. discriminate H. Qed.

(** C5, amended: a fresh [Equipment] holds a name for the weapon and for the
    hauberk and [None] for every other slot; [put] makes its slot hold the
    given name and leaves every other slot as it was, so a slot that holds a
    name holds one after every [put]. *)
Theorem Equipment_slots :
  Equipment_getitem Equipment_init weapon = Some "Sharp Rock"
  /\ Equipment_getitem Equipment_init hauberk = Some "-3 Burlap"
  /\ (forall slot, slot <> weapon -> slot <> hauberk ->
      Equipment_getitem Equipment_init slot = None)
  /\ (forall e slot name,
        Equipment_getitem (Equipment_put e slot name) slot = Some name)
  /\ (forall e slot name other, other <> slot ->
        Equipment_getitem (Equipment_put e slot name) other
        = Equipment_getitem e other).
Proof.
  repeat split.
  - intros slot Hw Hh. unfold Equipment_getitem; simpl.
    destruct (EquipmentType_eq_dec slot weapon); [contradiction |].
    destruct (EquipmentType_eq_dec slot hauberk); [contradiction |].
    reflexivity.
  - intros e slot name. apply dict_get_set_same.
  - intros e slot name other Hne. now apply dict_get_set_other.
Qed.

Lemma Equipment_slots_witness :
  Equipment_getitem Equipment_init shield = None
  /\ Equipment_getitem (Equipment_put Equipment_init shield "Pie Plate") weapon
     = Some "Sharp Rock".
Proof.
  split.
  - apply Equipment_slots; discriminate.
  - transitivity (Equipment_getitem Equipment_init weapon).
    + apply Equipment_slots; discriminate.
    + apply Equipment_slots.
Defined.

(** ** C6: the quest log *)

Lemma py_last_n_length {A} (k : nat) (l : list A) :
  List.length (py_last_n k l) = Nat.min (List.length l) k.
Proof. unfold py_last_n. rewrite length_skipn. lia. Qed.

Lemma add_quest_length (q : QuestBook) (name : string) :
  List.length (quests (add_quest q name))
  = S (Nat.min (List.length (quests q)) 100).
Proof.
  simpl. rewrite length_app, py_last_n_length. simpl. lia.
Qed.

Lemma last_cons_default {A} (rest : list A) (x d : A) :
  last (x :: rest) d = last rest x.
Proof.
  revert x d. induction rest as [| y rest IH]; intros x d.
  - reflexivity.
  - change (last (x :: y :: rest) d) with (last (y :: rest) d).
    rewrite IH. symmetry. apply IH.
Qed.

Lemma add_quest_current (q : QuestBook) (name : string) :
  current_quest (add_quest q name) = Some name.
Proof.
  unfold current_quest; simpl.
  destruct (py_last_n 100 (quests q) ++ [name])%list as [| x rest] eqn:E.
  - now destruct (py_last_n 100 (quests q)).
  - f_equal. rewrite <- (last_cons_default rest x x), <- E.
    apply last_last.
Qed.

(** C6: on a log of 100 entries [add_quest] keeps all of them and appends:
    the log then has 101 entries (the caption appended is the current
    quest). *)
Theorem add_quest_keeps_101 :
  List.length (quests (add_quest full_quest_book "Seek the Golden Diadem"))
  = 101%nat
  /\ current_quest (add_quest full_quest_book "Seek the Golden Diadem")
     = Some "Seek the Golden Diadem".
Proof.
  split.
  - rewrite add_quest_length. reflexivity.
  - apply add_quest_current.
Qed.

(** ** C9: Inventory.pop *)

Lemma remove_nth_app {A} (before after : list A) (x : A) :
  remove_nth (List.length before) (before ++ x :: after) = (before ++ after)%list.
Proof.
  induction before as [| y before IH]; simpl.
  - reflexivity.
  - now rewrite IH.
Qed.

Lemma py_index_out_of_range {A} (l : list A) (index : Z) :
  index < - Z.of_nat (List.length l) \/ Z.of_nat (List.length l) <= index ->
  py_index l index = Raise IndexError.
Proof.
  intros H. unfold py_index.
  destruct (index <? 0) eqn:Hneg.
  - apply Z.ltb_lt in Hneg.
    destruct H as [H | H]; [| lia].
    replace (index + Z.of_nat (List.length l) <? 0) with true
      by (symmetry; apply Z.ltb_lt; lia).
    reflexivity.
  - apply Z.ltb_ge in Hneg.
    destruct H as [H | H]; [lia |].
    replace (index <? 0) with false by (symmetry; apply Z.ltb_ge; lia).
    replace (Z.of_nat (List.length l) <=? index) with true
      by (symmetry; apply Z.leb_le; lia).
    reflexivity.
Qed.

Lemma py_index_in_range {A} (l : list A) (index : Z) :
  - Z.of_nat (List.length l) <= index < Z.of_nat (List.length l) ->
  exists before x after,
    l = (before ++ x :: after)%list
    /\ Z.of_nat (List.length before)
       = normal_index (Z.of_nat (List.length l)) index
    /\ py_index l index = Ok x
    /\ py_list_pop l index = Ok (before ++ after)%list.
Proof.
  intros H. unfold py_index, py_list_pop, normal_index.
  set (i := if index <? 0 then index + Z.of_nat (List.length l) else index).
  assert (Hi : 0 <= i < Z.of_nat (List.length l)).
  { unfold i. destruct (Z.ltb_spec index 0); lia. }
  replace (i <? 0) with false by (symmetry; apply Z.ltb_ge; lia).
  replace (Z.of_nat (List.length l) <=? i) with false
    by (symmetry; apply Z.leb_gt; lia).
  simpl.
  destruct (nth_error l (Z.to_nat i)) as [x |] eqn:E.
  - destruct (nth_error_split l (Z.to_nat i) E) as (before & after & -> & Hlen).
    exists before, x, after. repeat split.
    + lia.
    + rewrite <- Hlen. now rewrite remove_nth_app.
  - apply nth_error_None in E. lia.
Qed.

(** C9, counterexample: [pop] on a one-item inventory removes the item and
    the value of the call is [None], not the item. *)
Lemma Inventory_pop_counterexample :
  ~ (exists inv',
       Inventory_pop one_nail 0
       = Ok (Some {| item_name := "nail"; quantity := 1 |}, inv'))
  /\ items one_nail = [ {| item_name := "nail"; quantity := 1 |} ].
Proof.
  split; [| reflexivity].
  intros [inv' H]. vm_compute in H. discriminate H.
Qed.

(** C9, amended: [pop(index)] raises [IndexError] exactly when [index] is out
    of range ([index >= len] or [index < -len]); otherwise it succeeds,
    removes exactly the item at that position (counted from the end for a
    negative index) and emits [item_del] with the removed item.  The call
    itself returns [None]. *)
Theorem Inventory_pop_removes (inv : Inventory) (index : Z) :
  let n := Z.of_nat (List.length (items inv)) in
  (index < - n \/ n <= index -> Inventory_pop inv index = Raise IndexError)
  /\ (- n <= index < n ->
      exists before item after inv',
        Inventory_pop inv index = Ok (None, inv')
        /\ items inv = (before ++ item :: after)%list
        /\ Z.of_nat (List.length before) = normal_index n index
        /\ items inv' = (before ++ after)%list
        /\ inventory_emitted inv'
           = (inventory_emitted inv ++ [("item_del", [DataOfItem item])])%list
        /\ gold inv' = gold inv)
  /\ (forall r inv', Inventory_pop inv index = Ok (r, inv') ->
      - n <= index < n /\ r = None).
Proof.
  intros n. split; [| split].
  - intros H. unfold Inventory_pop.
    now rewrite (py_index_out_of_range _ _ H).
  - intros H.
    destruct (py_index_in_range _ _ H)
      as (before & x & after & Hl & Hlen & Hget & Hpop).
    exists before, x, after. eexists.
    unfold Inventory_pop. rewrite Hget, Hpop.
    repeat split; [exact Hl | exact Hlen].
  - intros r inv' H.
    assert (Hrange : - n <= index < n).
    { destruct (Z_lt_ge_dec index (- n)) as [Hlo | Hlo].
      - unfold Inventory_pop in H.
        rewrite (py_index_out_of_range (items inv) index) in H
          by (left; exact Hlo).
        discriminate H.
      - destruct (Z_lt_ge_dec index n) as [Hhi | Hhi]; [lia |].
        unfold Inventory_pop in H.
        rewrite (py_index_out_of_range (items inv) index) in H
          by (right; fold n; lia).
        discriminate H. }
    split; [exact Hrange |].
    unfold Inventory_pop in H.
    destruct (py_index (items inv) index); try discriminate.
    destruct (py_list_pop (items inv) index); try discriminate.
    congruence.
Qed.

Lemma Inventory_pop_removes_witness :
  let inv := Inventory_add one_nail "lunchpail" 2 in
  exists before item after inv',
    Inventory_pop inv (-1) = Ok (None, inv')
    /\ items inv = (before ++ item :: after)%list
    /\ Z.of_nat (List.length before) = 1
    /\ items inv' = (before ++ after)%list
    /\ inventory_emitted inv'
       = (inventory_emitted inv ++ [("item_del", [DataOfItem item])])%list
    /\ gold inv' = gold inv.
Proof.
  intros inv.
  apply (proj1 (proj2 (Inventory_pop_removes inv (-1)))).
  vm_compute. split; [discriminate | reflexivity].
Defined.

(** ** Rules for computations *)

Lemma draws_ret {A} (a : A) (R : A -> Prop) : R a -> draws (ret a) R.
Proof. intros Ha g. now exists a, g. Qed.

Lemma draws_bind {A B} (r : random.Rand A) (k : A -> random.Rand B)
  (R1 : A -> Prop) (R : B -> Prop) :
  draws r R1 -> (forall a, R1 a -> draws (k a) R) -> draws (bind r k) R.
Proof.
  intros Hr Hk g. destruct (Hr g) as (a & g1 & E & Ha).
  destruct (Hk a Ha g1) as (b & g2 & E2 & Hb).
  exists b, g2. unfold bind. rewrite E. now split.
Qed.

Lemma draws_conseq {A} (r : random.Rand A) (R R' : A -> Prop) :
  draws r R -> (forall a, R a -> R' a) -> draws r R'.
Proof.
  intros Hr HR g. destruct (Hr g) as (a & g1 & E & Ha).
  exists a, g1. auto.
Qed.

Lemma draws_below (n : Z) :
  0 < n -> draws (random.below n) (fun a => 0 <= a < n).
Proof.
  intros Hn g. unfold random.below.
  replace (n <=? 0) with false by (symmetry; apply Z.leb_gt; lia).
  eexists _, _. split; [reflexivity |]. now apply Z.mod_pos_bound.
Qed.

Lemma draws_odds (chance outof : Z) :
  0 < outof -> draws (random.odds chance outof) (fun _ => True).
Proof.
  intros Hn. unfold random.odds.
  eapply draws_bind; [now apply draws_below |].
  intros a _. now apply draws_ret.
Qed.

Lemma draws_below_low (n : Z) :
  0 < n -> draws (random.below_low n) (fun a => 0 <= a < n).
Proof.
  intros Hn. unfold random.below_low.
  eapply draws_bind; [now apply draws_below |]. intros a Ha.
  eapply draws_bind; [now apply draws_below |]. intros b Hb.
  apply draws_ret. cbv beta in *. lia.
Qed.

Lemma draws_pick {A} (l : list A) (i : Z) :
  0 <= i < Z.of_nat (List.length l) ->
  draws (random.pick l i) (fun a => In a l).
Proof.
  intros Hi. unfold random.pick.
  destruct (nth_error l (Z.to_nat i)) as [x |] eqn:E.
  - apply draws_ret. eapply nth_error_In; eassumption.
  - apply nth_error_None in E. lia.
Qed.

Lemma length_pos {A} (l : list A) : l <> [] -> 0 < Z.of_nat (List.length l).
Proof. destruct l; [contradiction | simpl; lia]. Qed.

Lemma draws_choice {A} (l : list A) :
  l <> [] -> draws (random.choice l) (fun a => In a l).
Proof.
  intros Hl. pose proof (length_pos l Hl) as Hlen.
  unfold random.choice. destruct l as [| x l']; [contradiction |].
  eapply draws_bind; [apply draws_below; exact Hlen |].
  intros i Hi. now apply draws_pick.
Qed.

Lemma draws_choice_low {A} (l : list A) :
  l <> [] -> draws (random.choice_low l) (fun a => In a l).
Proof.
  intros Hl. pose proof (length_pos l Hl) as Hlen.
  unfold random.choice_low. destruct l as [| x l']; [contradiction |].
  eapply draws_bind; [apply draws_below_low; exact Hlen |].
  intros i Hi. now apply draws_pick.
Qed.

Lemma runs_ret {A} (p0 : Player) (a : A) (Q : A -> Player -> Prop) :
  Q a p0 -> runs p0 (ret a) Q.
Proof. intros HQ w <-. now exists a, w. Qed.

Lemma runs_bind {A B} (p0 : Player) (m : W A) (k : A -> W B)
  (Q1 : A -> Player -> Prop) (Q : B -> Player -> Prop) :
  runs p0 m Q1 ->
  (forall a p1, Q1 a p1 -> runs p1 (k a) Q) ->
  runs p0 (bind m k) Q.
Proof.
  intros Hm Hk w Hw. destruct (Hm w Hw) as (a & w1 & E & Ha).
  destruct (Hk a (player w1) Ha w1 eq_refl) as (b & w2 & E2 & Hb).
  exists b, w2. unfold bind. rewrite E. now split.
Qed.

Lemma runs_conseq {A} (p0 : Player) (m : W A) (Q Q' : A -> Player -> Prop) :
  runs p0 m Q -> (forall a p, Q a p -> Q' a p) -> runs p0 m Q'.
Proof.
  intros Hm HQ w Hw. destruct (Hm w Hw) as (a & w1 & E & Ha).
  exists a, w1. auto.
Qed.

Lemma runs_get_player (p0 : Player) :
  runs p0 get_player (fun a p => a = p0 /\ p = p0).
Proof. intros w <-. now exists (player w), w. Qed.

Lemma runs_modify_player (p0 : Player) (f : Player -> Player) :
  runs p0 (modify_player f) (fun _ p => p = f p0).
Proof. intros w <-. eexists _, _. split; reflexivity. Qed.

Lemma runs_rand {A} (p0 : Player) (r : random.Rand A) (R : A -> Prop) :
  draws r R -> runs p0 (rand r) (fun a p => R a /\ p = p0).
Proof.
  intros Hr w <-. destruct (Hr (gen w)) as (a & g & E & Ha).
  eexists _, _. unfold rand. rewrite E. split; [reflexivity |].
  now split.
Qed.

Lemma runs_lift_result {A} (p0 : Player) (r : result A) (a : A) :
  r = Ok a -> runs p0 (lift_result r) (fun a' p => a' = a /\ p = p0).
Proof. intros -> w <-. now exists a, w. Qed.

Lemma runs_returns {A} (p0 : Player) (m : W A) (Q : A -> Player -> Prop) :
  runs p0 m Q -> returns p0 m Q.
Proof.
  intros Hm w a w' Hw E. destruct (Hm w Hw) as (a1 & w1 & E1 & Ha).
  rewrite E in E1. now injection E1 as -> ->.
Qed.

Lemma returns_ret {A} (p0 : Player) (a : A) (Q : A -> Player -> Prop) :
  Q a p0 -> returns p0 (ret a) Q.
Proof. intros HQ. apply runs_returns. now apply runs_ret. Qed.

Lemma returns_bind {A B} (p0 : Player) (m : W A) (k : A -> W B)
  (Q1 : A -> Player -> Prop) (Q : B -> Player -> Prop) :
  returns p0 m Q1 ->
  (forall a p1, Q1 a p1 -> returns p1 (k a) Q) ->
  returns p0 (bind m k) Q.
Proof.
  intros Hm Hk w b w2 Hw E. unfold bind in E.
  destruct (m w) as [[a w1] | |] eqn:E1; try discriminate.
  exact (Hk a (player w1) (Hm w a w1 Hw E1) w1 b w2 eq_refl E).
Qed.

Lemma returns_conseq {A} (p0 : Player) (m : W A)
  (Q Q' : A -> Player -> Prop) :
  returns p0 m Q -> (forall a p, Q a p -> Q' a p) -> returns p0 m Q'.
Proof. intros Hm HQ w a w' Hw E. eauto. Qed.

Lemma returns_out_of_fuel {A} (p0 : Player) (Q : A -> Player -> Prop) :
  returns p0 out_of_fuel Q.
Proof. intros w a w' _ E. discriminate E. Qed.

Lemma returns_raise {A} (p0 : Player) (e : exn) (Q : A -> Player -> Prop) :
  returns p0 (raise e) Q.
Proof. intros w a w' _ E. discriminate E. Qed.

(** ** Content generation returns *)

Ltac draw_by tac :=
  eapply draws_bind; [ tac | intros ? ?; cbv beta in * ].

Section Generation.

Variable C : Content.
Hypothesis HC : content_ok C.

Lemma draws_interesting_item : draws (interesting_item C) (fun _ => True).
Proof.
  unfold interesting_item.
  draw_by ltac:(apply draws_choice, (ok_item_attrib C HC)).
  draw_by ltac:(apply draws_choice, (ok_specials C HC)).
  now apply draws_ret.
Qed.

Lemma draws_special_item : draws (special_item C) (fun _ => True).
Proof.
  unfold special_item.
  draw_by ltac:(apply draws_interesting_item).
  draw_by ltac:(apply draws_choice, (ok_item_ofs C HC)).
  now apply draws_ret.
Qed.

Lemma draws_boring_item : draws (boring_item C) (fun _ => True).
Proof.
  unfold boring_item.
  eapply draws_conseq; [apply draws_choice, (ok_boring_items C HC) | auto].
Qed.

Lemma draws_generate_name : draws (generate_name C) (fun _ => True).
Proof. exact (ok_generate_name C HC). Qed.

Lemma draws_impressive_guy : draws (impressive_guy C) (fun _ => True).
Proof.
  unfold impressive_guy.
  draw_by ltac:(apply draws_choice, (ok_impressive_titles C HC)).
  draw_by ltac:(apply draws_below; lia).
  destruct (negb (a0 =? 0)).
  - draw_by ltac:(apply draws_choice, (ok_races C HC)).
    now apply draws_ret.
  - draw_by ltac:(apply draws_generate_name).
    now apply draws_ret.
Qed.

Lemma draws_closer_monster (n : nat) (level : Z) (result : Monster) :
  In result (MONSTERS C) ->
  draws (closer_monster C n level result) (fun m => In m (MONSTERS C)).
Proof.
  revert result. induction n as [| n IH]; intros result Hin; simpl.
  - now apply draws_ret.
  - draw_by ltac:(apply draws_choice, (ok_monsters C HC)).
    apply IH.
    now destruct (Z.abs (level - monster_level a)
                  <? Z.abs (level - monster_level result)).
Qed.

Lemma draws_unnamed_monster (level : Z) (iterations : nat) :
  draws (unnamed_monster C level iterations) (fun m => In m (MONSTERS C)).
Proof.
  unfold unnamed_monster.
  draw_by ltac:(apply draws_choice, (ok_monsters C HC)).
  now apply draws_closer_monster.
Qed.

Lemma monsters_have_drop_names (m : Monster) :
  In m (MONSTERS C) -> has_drop_name m.
Proof.
  intros Hin. pose proof (ok_drops C HC) as Hall.
  rewrite Forall_forall in Hall. now apply Hall.
Qed.

Lemma draws_named_monster (level : Z) :
  draws (named_monster C level) (fun _ => True).
Proof.
  unfold named_monster.
  draw_by ltac:(apply draws_unnamed_monster).
  draw_by ltac:(apply draws_generate_name).
  now apply draws_ret.
Qed.

Lemma draws_closer_equipment (n : nat) (source : list EquipmentPreset)
  (goal : Z) (result : EquipmentPreset) :
  source <> [] ->
  draws (closer_equipment n source goal result) (fun _ => True).
Proof.
  intros Hs. revert result. induction n as [| n IH]; intros result; simpl.
  - now apply draws_ret.
  - draw_by ltac:(apply draws_choice, Hs). apply IH.
Qed.

Lemma draws_pick_equipment (source : list EquipmentPreset) (goal : Z) :
  source <> [] -> draws (pick_equipment source goal) (fun _ => True).
Proof.
  intros Hs. unfold pick_equipment.
  draw_by ltac:(apply draws_choice, Hs).
  now apply draws_closer_equipment.
Qed.

Lemma draws_add_modifiers (n : nat) (pool : list Modifier) (name0 : string)
  (plus : Z) :
  pool <> [] -> draws (add_modifiers n pool name0 plus) (fun _ => True).
Proof.
  intros Hp. revert name0 plus.
  induction n as [| n IH]; intros name0 plus; simpl.
  - now apply draws_ret.
  - destruct (plus =? 0); [now apply draws_ret |].
    draw_by ltac:(apply draws_choice, Hp).
    destruct (contains (modifier_name a) name0); [now apply draws_ret |].
    destruct (Z.abs plus <? Z.abs (modifier_quality a));
      [now apply draws_ret |].
    apply IH.
Qed.

Lemma draws_perturb_level (rounds : nat) (level : Z) :
  draws (perturb_level rounds level) (fun _ => True).
Proof.
  revert level. induction rounds as [| n IH]; intros level; simpl.
  - now apply draws_ret.
  - draw_by ltac:(apply draws_odds; lia).
    destruct a.
    + draw_by ltac:(apply draws_below; lia). apply IH.
    + apply IH.
Qed.

Lemma draws_monster_task_target (level : Z) (quest_monster0 : option Monster) :
  monster_ok quest_monster0 ->
  draws (monster_task_target C level quest_monster0)
        (fun t => monster_ok (snd (fst (fst t)))).
Proof.
  intros Hq. unfold monster_task_target.
  draw_by ltac:(apply draws_odds; lia).
  destruct a.
  - draw_by ltac:(apply draws_choice, (ok_races C HC)).
    draw_by ltac:(apply draws_odds; lia).
    destruct a0.
    + draw_by ltac:(apply draws_choice, (ok_classes C HC)).
      now apply draws_ret.
    + draw_by ltac:(apply draws_choice_low, (ok_titles C HC)).
      draw_by ltac:(apply draws_generate_name).
      now apply draws_ret.
  - assert (Hrandom :
      draws (m <- unnamed_monster C level 5 ;;
             ret (false, Some m, monster_name m, monster_level m))
            (fun t => monster_ok (snd (fst (fst t))))).
    { draw_by ltac:(apply draws_unnamed_monster).
      apply draws_ret. simpl. now apply monsters_have_drop_names. }
    destruct quest_monster0 as [m |].
    + draw_by ltac:(apply draws_odds; lia).
      destruct a; [now apply draws_ret | exact Hrandom].
    + eapply draws_bind with (R1 := fun _ => True);
        [now apply draws_ret | intros ? _; exact Hrandom].
Qed.

Lemma draws_monster_task_pack (level lev : Z) :
  draws (monster_task_pack level lev) (fun _ => True).
Proof.
  unfold monster_task_pack. destruct (10 <? level - lev).
  - draw_by ltac:(apply draws_below; lia). now apply draws_ret.
  - now apply draws_ret.
Qed.

Lemma draws_monster_task_decorate (level lev : Z) (result : string) :
  draws (monster_task_decorate C level lev result) (fun _ => True).
Proof.
  unfold monster_task_decorate.
  destruct (Z.leb_spec (level - lev) (-10)); [now apply draws_ret |].
  destruct (Z.ltb_spec (level - lev) (-5)).
  { draw_by ltac:(apply draws_below; lia). now apply draws_ret. }
  draw_by ltac:(instantiate (1 := fun _ => True);
                destruct (level - lev <? 0);
                [ eapply draws_conseq; [apply draws_below; lia | auto]
                | now apply draws_ret ]).
  destruct ((level - lev <? 0) && (a =? 1)); [now apply draws_ret |].
  destruct (level - lev <? 0); [now apply draws_ret |].
  destruct (Z.leb_spec 10 (level - lev)); [now apply draws_ret |].
  destruct (Z.ltb_spec 5 (level - lev)).
  { draw_by ltac:(apply draws_below; lia). now apply draws_ret. }
  draw_by ltac:(instantiate (1 := fun _ => True);
                destruct (0 <? level - lev);
                [ eapply draws_conseq; [apply draws_below; lia | auto]
                | now apply draws_ret ]).
  destruct ((0 <? level - lev) && (a0 =? 1)); [now apply draws_ret |].
  destruct (0 <? level - lev); now apply draws_ret.
Qed.

Lemma draws_monster_task (player_level : Z)
  (quest_monster0 : option Monster) :
  1 <= player_level -> monster_ok quest_monster0 ->
  draws (monster_task C player_level quest_monster0)
        (fun t => is_KillTask t = true /\ monster_ok (task_monster t)).
Proof.
  intros Hl Hq. unfold monster_task.
  draw_by ltac:(apply draws_perturb_level).
  draw_by ltac:(apply draws_monster_task_target; exact Hq).
  destruct a0 as [[[is_definite monster] result] lev].
  draw_by ltac:(apply draws_monster_task_pack).
  destruct a0 as [qty level].
  draw_by ltac:(apply draws_monster_task_decorate).
  replace (player_level =? 0) with false by (symmetry; apply Z.eqb_neq; lia).
  apply draws_ret. simpl. split; [reflexivity | assumption].
Qed.

End Generation.

(** ** What the rewards do *)

Ltac run_by tac :=
  eapply runs_bind; [ tac | intros ? ? ?; cbv beta in * ].

Tactic Notation "run_as" tactic(tac) "as" ident(a) ident(p) ident(H) :=
  eapply runs_bind; [ tac | intros a p H; cbv beta in * ].

Lemma runs_stats_getitem (p0 : Player) (k : StatType) (v : Z) :
  stat_of (stats p0) k = Some v ->
  runs p0 (stats_getitem k) (fun a p => a = v /\ p = p0).
Proof.
  intros Hk. unfold stats_getitem.
  run_by ltac:(apply runs_get_player). destruct H as [-> ->].
  apply runs_lift_result. unfold Stats_getitem.
  unfold stat_of in Hk. now rewrite Hk.
Qed.

Lemma runs_stats_increment (p0 : Player) (k : StatType) (v qty : Z) :
  stat_of (stats p0) k = Some v ->
  runs p0 (stats_increment k qty)
       (fun _ p => p = set_stats p0 (incremented (stats p0) k (v + qty))).
Proof.
  intros Hk. unfold stats_increment.
  run_by ltac:(apply runs_get_player). destruct H as [-> ->].
  run_by ltac:(apply runs_lift_result; unfold Stats_increment;
               unfold stat_of in Hk; rewrite Hk; reflexivity).
  destruct H as [-> ->].
  intros w <-. eexists _, _. split; reflexivity.
Qed.

Section Rewards.

Variable C : Content.
Hypothesis HC : content_ok C.

Lemma runs_win_item (p0 : Player) :
  runs p0 (win_item C)
       (fun _ p => exists name,
            p = set_inventory p0 (Inventory_add (inventory p0) name 1)).
Proof.
  unfold win_item.
  run_by ltac:(apply runs_rand, (draws_special_item C HC)).
  destruct H as [_ ->].
  eapply runs_conseq; [apply runs_modify_player |].
  intros _ p ->. now exists a.
Qed.

Lemma runs_win_equipment (p0 : Player) :
  runs p0 (win_equipment C)
       (fun _ p => exists slot name,
            p = set_equipment p0 (Equipment_put (equipment p0) slot name)).
Proof.
  unfold win_equipment.
  run_by ltac:(apply runs_rand, draws_choice, (ok_slots C HC)).
  destruct H as [_ ->].
  run_by ltac:(apply runs_get_player). destruct H as [-> ->].
  run_by ltac:(apply runs_rand, draws_pick_equipment).
  { destruct (EquipmentType_eq_dec a weapon); [apply (ok_weapons C HC) |].
    destruct (EquipmentType_eq_dec a shield);
      [apply (ok_shields C HC) | apply (ok_armors C HC)]. }
  destruct H as [_ ->].
  run_by ltac:(apply runs_rand, draws_add_modifiers).
  { destruct (level p0 - preset_quality a0 <? 0);
      destruct (EquipmentType_eq_dec a weapon);
      first [ apply (ok_offense_bad C HC) | apply (ok_defense_bad C HC)
            | apply (ok_offense_attrib C HC)
            | apply (ok_defense_attrib C HC) ]. }
  destruct H as [_ ->]. destruct a1 as [name0 plus].
  eapply runs_conseq; [apply runs_modify_player |].
  intros _ p ->. eexists _, _. reflexivity.
Qed.

Lemma runs_win_spell (p0 : Player) (w : Z) :
  stat_of (stats p0) wisdom = Some w -> 1 <= w + level p0 ->
  runs p0 (win_spell C)
       (fun _ p => exists sp,
            p = set_spell_book p0 (SpellBook_add (spell_book p0) sp 1)).
Proof.
  intros Hw Hpos. unfold win_spell.
  run_by ltac:(apply runs_stats_getitem; exact Hw). destruct H as [-> ->].
  run_by ltac:(apply runs_get_player). destruct H as [-> ->].
  pose proof (length_pos _ (ok_spells C HC)) as Hlen.
  run_by ltac:(apply runs_rand, draws_below_low; lia).
  destruct H as [Hi Hp]; subst p1.
  destruct (py_index_in_range (SPELLS C) a) as (_ & sp & _ & _ & _ & E & _);
    [lia |].
  run_by ltac:(apply runs_lift_result; exact E).
  destruct H as [-> ->].
  eapply runs_conseq; [apply runs_modify_player |].
  intros _ p ->. now exists sp.
Qed.

End Rewards.

(** ** Statistics only grow *)

Lemma dict_get_In {V} (d : list (StatType * V)) (k : StatType) (v : V) :
  dict_get StatType_eq_dec d k = Some v -> In (k, v) d.
Proof.
  induction d as [| [k' v'] rest IH]; simpl; [discriminate |].
  destruct (StatType_eq_dec k k') as [-> | Hne].
  - intros H; injection H as ->. now left.
  - intros H. right. now apply IH.
Qed.

Lemma dict_get_key {V} (d : list (StatType * V)) (k : StatType) :
  In k (map fst d) -> exists v, dict_get StatType_eq_dec d k = Some v.
Proof.
  induction d as [| [k' v'] rest IH]; simpl; [contradiction |].
  intros Hin. destruct (StatType_eq_dec k k') as [-> | Hne].
  - now exists v'.
  - destruct Hin as [Heq | Hin]; [congruence | now apply IH].
Qed.

Lemma stats_le_refl (s : Stats) : stats_le s s.
Proof.
  unfold stats_le. induction (values s) as [| kv rest IH]; constructor.
  - split; [reflexivity | lia].
  - exact IH.
Qed.

Lemma stats_le_trans (s1 s2 s3 : Stats) :
  stats_le s1 s2 -> stats_le s2 s3 -> stats_le s1 s3.
Proof.
  unfold stats_le. generalize (values s1) (values s2) (values s3).
  intros d1 d2 d3 H12. revert d3.
  induction H12 as [| kv1 kv2 r1 r2 [Hk Hv] _ IH]; intros d3 H23.
  - inversion H23. constructor.
  - inversion H23 as [| kv2' kv3 r2' r3 [Hk' Hv'] Hr]; subst.
    constructor; [split; [congruence | lia] | now apply IH].
Qed.

Lemma dict_set_le (d : list (StatType * Z)) (k : StatType) (v q : Z) :
  dict_get StatType_eq_dec d k = Some v -> 0 <= q ->
  Forall2 (fun kv kv' => fst kv' = fst kv /\ snd kv <= snd kv')
          d (dict_set StatType_eq_dec d k (v + q)).
Proof.
  intros Hk Hq. induction d as [| [k' v'] rest IH]; simpl in *.
  - discriminate.
  - destruct (StatType_eq_dec k k') as [-> | Hne].
    + injection Hk as ->. constructor.
      * simpl. split; [reflexivity | lia].
      * apply (stats_le_refl {| values := rest; stats_emitted := [] |}).
    + constructor; [split; [reflexivity | simpl; lia] | now apply IH].
Qed.

Lemma stats_le_incremented (s : Stats) (k : StatType) (v q : Z) :
  stat_of s k = Some v -> 0 <= q -> stats_le s (incremented s k (v + q)).
Proof. intros Hk Hq. unfold stats_le; simpl. now apply dict_set_le. Qed.

Lemma stats_le_stat_of (s s' : Stats) (k : StatType) (v : Z) :
  stats_le s s' -> stat_of s k = Some v ->
  exists v', stat_of s' k = Some v' /\ v <= v'.
Proof.
  unfold stats_le, stat_of. generalize (values s) (values s').
  intros d d' Hle. induction Hle as [| [k1 v1] [k2 v2] r r' [Hk Hv] _ IH];
    simpl in *; [discriminate |].
  subst k2. destruct (StatType_eq_dec k k1).
  - intros H; injection H as ->. now exists v2.
  - exact IH.
Qed.

Lemma sum_squares_le (d d' : list (StatType * Z)) :
  Forall (fun kv => 0 <= snd kv) d ->
  Forall2 (fun kv kv' => fst kv' = fst kv /\ snd kv <= snd kv') d d' ->
  sum_squares d <= sum_squares d'
  /\ Forall (fun kv => 0 <= snd kv) d'.
Proof.
  intros Hpos Hle. induction Hle as [| kv kv' r r' [Hk Hv] _ IH].
  - split; [reflexivity | constructor].
  - inversion Hpos as [| ? ? H0 Hr]; subst.
    destruct (IH Hr) as [IHs IHf]. split.
    + cbv beta in H0. unfold sum_squares in *.
      change (sum_Z (map (fun sv => snd sv ^ 2) (kv :: r)))
        with (snd kv ^ 2 + sum_Z (map (fun sv => snd sv ^ 2) r)).
      change (sum_Z (map (fun sv => snd sv ^ 2) (kv' :: r')))
        with (snd kv' ^ 2 + sum_Z (map (fun sv => snd sv ^ 2) r')).
      rewrite !Z.pow_2_r. nia.
    + cbv beta in H0. constructor; [cbv beta; lia | exact IHf].
Qed.

Lemma stats_ok_le (C : Content) (s s' : Stats) :
  stats_ok C s -> stats_le s s' -> stats_ok C s'.
Proof.
  intros [Hkeys Hnonneg Hpos] Hle.
  destruct (sum_squares_le _ _ Hnonneg Hle) as [Hsum Hnonneg'].
  split.
  - intros k Hin. specialize (Hkeys k Hin).
    destruct (stat_of s k) as [v |] eqn:E; [| contradiction].
    destruct (stats_le_stat_of _ _ _ _ Hle E) as (v' & -> & _). discriminate.
  - exact Hnonneg'.
  - lia.
Qed.

Lemma stat_of_nonneg (C : Content) (s : Stats) (k : StatType) (v : Z) :
  stats_ok C s -> stat_of s k = Some v -> 0 <= v.
Proof.
  intros [_ Hnonneg _] Hk. apply dict_get_In in Hk.
  rewrite Forall_forall in Hnonneg. exact (Hnonneg _ Hk).
Qed.

(** ** What is kept *)

Ltac keeps_frame :=
  constructor; unfold exp_ok; simpl;
  auto using stats_le_refl with zarith; try lia; try tauto.

Lemma keeps_refl (p : Player) : keeps p p.
Proof. keeps_frame. Qed.

Lemma keeps_trans (p1 p2 p3 : Player) :
  keeps p1 p2 -> keeps p2 p3 -> keeps p1 p3.
Proof.
  intros [] []. constructor; try congruence; try lia; auto.
  eapply stats_le_trans; eassumption.
Qed.

Lemma add_existing_nonempty (l : list InventoryItem) (name : string)
  (qty : Z) (l' : list InventoryItem) (changed : InventoryItem) :
  add_existing l name qty = Some (l', changed) -> l' <> [].
Proof.
  destruct l as [| item rest]; simpl; [discriminate |].
  destruct (String.eqb (item_name item) name).
  - intros H; injection H as <- _. discriminate.
  - destruct (add_existing rest name qty) as [[rest' c] |]; [| discriminate].
    intros H; injection H as <- _. discriminate.
Qed.

Lemma Inventory_add_nonempty (inv : Inventory) (name : string) (qty : Z) :
  items (Inventory_add inv name qty) <> [].
Proof.
  unfold Inventory_add.
  destruct (add_existing (items inv) name qty) as [[l' c] |] eqn:E; simpl.
  - eapply add_existing_nonempty; eassumption.
  - now destruct (items inv).
Qed.

Lemma keeps_add (p : Player) (name : string) (qty : Z) :
  keeps p (set_inventory p (Inventory_add (inventory p) name qty)).
Proof.
  keeps_frame. intros _. apply Inventory_add_nonempty.
Qed.

Lemma keeps_equipment (p : Player) (e : Equipment) :
  keeps p (set_equipment p e).
Proof. keeps_frame. Qed.

Lemma keeps_spell_book (p : Player) (b : SpellBook) :
  keeps p (set_spell_book p b).
Proof. keeps_frame. Qed.

Lemma keeps_quest_book (p : Player) (q : QuestBook) :
  (monster_ok (quest_monster (quest_book p)) -> monster_ok (quest_monster q)) ->
  keeps p (set_quest_book p q).
Proof. intros Hq. keeps_frame. Qed.

Lemma keeps_won_stat (C : Content) (p : Player) (c : StatType) (v : Z) :
  stats_ok C (stats p) -> stat_of (stats p) c = Some v ->
  keeps p (won_stat p c v).
Proof.
  intros Hok Hc.
  pose proof (stats_le_incremented (stats p) c v 1 Hc ltac:(lia)) as Hle.
  unfold won_stat. destruct (StatType_eq_dec c strength); keeps_frame.
Qed.

Lemma task_inv_keeps (p p' : Player) :
  keeps p p' -> task_inv p -> task_inv p'.
Proof.
  intros [] [Hl (t & Ht & Hbar & Hdone & Hsell & Hm) Hq Hqm].
  split.
  - lia.
  - exists t. split; [congruence |].
    unfold task_ok. rewrite keeps_task_bar0. repeat split; auto.
  - congruence.
  - auto.
Qed.

Lemma engine_inv_keeps (C : Content) (p p' : Player) :
  keeps p p' -> engine_inv C p -> engine_inv C p'.
Proof.
  intros Hk [Ht Hs He]. split.
  - eapply task_inv_keeps; eassumption.
  - eapply stats_ok_le; [exact Hs | apply (keeps_stats _ _ Hk)].
  - unfold exp_ok in *.
    now rewrite (keeps_exp_bar _ _ Hk), (keeps_level _ _ Hk).
Qed.

(** ** C10: win_stat *)

Lemma weighted_stat_key (l : list (StatType * Z)) (t : Z)
  (chosen : option StatType) :
  (l = [] /\ weighted_stat l t chosen = chosen)
  \/ exists c, weighted_stat l t chosen = Some c /\ In c (map fst l).
Proof.
  revert t chosen. induction l as [| [k v] rest IH]; intros t chosen.
  - now left.
  - right. cbn [weighted_stat map fst In]. destruct (t - v ^ 2 <? 0).
    + exists k. split; [reflexivity | now left].
    + destruct (IH (t - v ^ 2) (Some k)) as [[-> E] | (c & E & Hin)].
      * exists k. split; [exact E | now left].
      * exists c. split; [exact E | now right].
Qed.

Lemma stat_members_nonempty (C : Content) :
  content_ok C -> StatType_members C <> [].
Proof.
  intros HC E. pose proof (ok_named_stats C HC strength) as H.
  rewrite E in H. apply H. now left.
Qed.

Lemma stats_ok_named (C : Content) (s : Stats) (k : StatType) :
  content_ok C -> stats_ok C s -> In k named_stats ->
  exists v, stat_of s k = Some v.
Proof.
  intros HC Hok Hk.
  pose proof (ok_keys C s Hok k (ok_named_stats C HC k Hk)).
  destruct (stat_of s k) as [v |]; [now exists v | contradiction].
Qed.

Lemma runs_win_stat (C : Content) (p0 : Player) :
  StatType_members C <> [] ->
  (forall k, In k (StatType_members C) -> stat_of (stats p0) k <> None) ->
  0 < sum_squares (values (stats p0)) ->
  runs p0 (win_stat C)
       (fun b p => b = true
                   /\ exists c v, stat_of (stats p0) c = Some v
                                  /\ p = won_stat p0 c v).
Proof.
  intros Hmembers Hkeys Hpos. unfold win_stat.
  run_by ltac:(apply runs_rand, draws_odds; lia). destruct H as [_ ->].
  eapply runs_bind with
    (Q1 := fun chosen p => p = p0
                           /\ exists c v, chosen = Some c
                                          /\ stat_of (stats p0) c = Some v).
  - destruct a.
    + run_by ltac:(apply runs_rand, draws_choice, Hmembers).
      destruct H as [Hin ->]. apply runs_ret. split; [reflexivity |].
      pose proof (Hkeys a Hin) as Hk.
      destruct (stat_of (stats p0) a) as [v |] eqn:E; [| contradiction].
      now exists a, v.
    + run_by ltac:(apply runs_get_player). destruct H as [-> ->].
      run_by ltac:(apply runs_rand, draws_below, Hpos).
      destruct H as [_ ->]. apply runs_ret. split; [reflexivity |].
      destruct (weighted_stat_key (Stats_iter (stats p0)) a None)
        as [[E _] | (c & E & Hin)].
      * unfold Stats_iter in E. rewrite E in Hpos. discriminate Hpos.
      * destruct (dict_get_key _ _ Hin) as [v Hv]. now exists c, v.
  - intros chosen p1 (-> & c & v & -> & Hc).
    run_by ltac:(apply runs_stats_increment; exact Hc). subst p1.
    eapply runs_bind with (Q1 := fun _ p => p = won_stat p0 c v).
    + unfold won_stat. destruct (StatType_eq_dec c strength) as [-> | Hne].
      * run_by ltac:(apply runs_stats_getitem with (v := v + 1);
                     unfold stat_of; simpl; apply dict_get_set_same).
        destruct H as [-> ->].
        eapply runs_conseq; [apply runs_modify_player |].
        intros _ p ->. reflexivity.
      * now apply runs_ret.
    + intros _ p1 ->. apply runs_ret. split; [reflexivity |].
      exists c, v. split; [exact Hc | reflexivity].
Qed.

(** C10, counterexample: the statistics hold strength only (non-empty, sum
    of squares 9); the uniform branch is taken and draws [condition], which
    has no entry: the increment raises [KeyError]. *)
Lemma win_stat_counterexample :
  exists p,
    Player_init Demo.content "Hero" 0 {| race_name := "Half Orc" |}
      {| class_name := "Ur-Paladin" |} (Stats_init [(strength, 3)]) = Ok p
    /\ values (stats p) = [(strength, 3)]
    /\ sum_squares (values (stats p)) = 9
    /\ win_stat Demo.content
         {| player := p; elapsed := 0; gen := random.seed Z.of_nat |}
       = Raise KeyError.
Proof. eexists. repeat split. Qed.

(** C10, amended: for every statistics mapping that has an entry for every
    member of [StatType] and whose sum of squared values is positive,
    [win_stat] returns [True]: its assertion holds in both branches, exactly
    one statistic is incremented, by exactly 1, and when it is strength the
    capacity of the inventory becomes [10 + strength] (and the inventory is
    untouched otherwise). *)
Theorem win_stat_increments_one (C : Content) (w : World) :
  StatType_members C <> [] ->
  (forall k, In k (StatType_members C) ->
             stat_of (stats (player w)) k <> None) ->
  0 < sum_squares (values (stats (player w))) ->
  exists c v w',
    win_stat C w = Ok (true, w')
    /\ stat_of (stats (player w)) c = Some v
    /\ stat_of (stats (player w')) c = Some (v + 1)
    /\ (forall k, k <> c ->
                  stat_of (stats (player w')) k = stat_of (stats (player w)) k)
    /\ (c = strength ->
        max_ (encum_bar (inventory (player w'))) = 10 + (v + 1)
        /\ items (inventory (player w')) = items (inventory (player w)))
    /\ (c <> strength -> inventory (player w') = inventory (player w)).
Proof.
  intros Hmembers Hkeys Hpos.
  destruct (runs_win_stat C (player w) Hmembers Hkeys Hpos w eq_refl)
    as (b & w' & E & -> & c & v & Hc & Hp).
  exists c, v, w'. rewrite Hp. unfold won_stat.
  split; [exact E |]. split; [exact Hc |].
  destruct (StatType_eq_dec c strength) as [-> | Hne]; simpl;
    (split; [apply dict_get_set_same |]);
    (split; [intros k Hk; now apply dict_get_set_other |]).
  - split; [intros _; split; reflexivity | intros H; now elim H].
  - split; [intros H; contradiction | reflexivity].
Qed.

Lemma win_stat_increments_one_witness :
  exists c v w',
    win_stat Demo.content Demo.world = Ok (true, w')
    /\ stat_of (stats (player Demo.world)) c = Some v
    /\ stat_of (stats (player w')) c = Some (v + 1).
Proof.
  destruct (win_stat_increments_one Demo.content Demo.world)
    as (c & v & w' & E & Hc & Hc' & _).
  - discriminate.
  - intros k Hin. vm_compute in Hin. vm_compute.
    repeat (destruct Hin as [<- | Hin]; [discriminate |]). contradiction.
  - reflexivity.
  - exists c, v, w'. auto.
Defined.


(** ** level_up *)

Lemma keeps_incremented (p : Player) (k : StatType) (v q : Z) :
  stat_of (stats p) k = Some v -> 0 <= q ->
  keeps p (set_stats p (incremented (stats p) k (v + q))).
Proof.
  intros Hk Hq. pose proof (stats_le_incremented _ _ _ _ Hk Hq).
  keeps_frame.
Qed.

Section Level_up.

Variable C : Content.
Hypothesis HC : content_ok C.

Lemma stats_ok_keeps (p p' : Player) :
  keeps p p' -> stats_ok C (stats p) -> stats_ok C (stats p').
Proof.
  intros Hk Hok. eapply stats_ok_le; [exact Hok | apply (keeps_stats _ _ Hk)].
Qed.

Lemma runs_win_stat_keeps (p0 : Player) :
  stats_ok C (stats p0) ->
  runs p0 (win_stat C) (fun _ p => keeps p0 p).
Proof.
  intros Hok. eapply runs_conseq.
  - apply runs_win_stat.
    + now apply stat_members_nonempty.
    + apply (ok_keys C _ Hok).
    + apply (ok_positive C _ Hok).
  - intros b p (_ & c & v & Hc & ->). now apply (keeps_won_stat C).
Qed.

Lemma runs_win_spell_keeps (p0 : Player) :
  stats_ok C (stats p0) -> 1 <= level p0 ->
  runs p0 (win_spell C) (fun _ p => keeps p0 p).
Proof.
  intros Hok Hl.
  destruct (stats_ok_named C (stats p0) wisdom HC Hok) as [w Hw].
  { simpl; tauto. }
  pose proof (stat_of_nonneg C _ _ _ Hok Hw).
  eapply runs_conseq.
  - apply (runs_win_spell C HC p0 w Hw). lia.
  - intros _ p [sp ->]. apply keeps_spell_book.
Qed.

Lemma runs_win_item_keeps (p0 : Player) :
  runs p0 (win_item C) (fun _ p => keeps p0 p).
Proof.
  eapply runs_conseq; [apply (runs_win_item C HC) |].
  intros _ p [name ->]. apply keeps_add.
Qed.

Lemma runs_win_equipment_keeps (p0 : Player) :
  runs p0 (win_equipment C) (fun _ p => keeps p0 p).
Proof.
  eapply runs_conseq; [apply (runs_win_equipment C HC) |].
  intros _ p (slot & name & ->). apply keeps_equipment.
Qed.

(** One of the two bonus blocks of [level_up]. *)
Lemma runs_bonus (p0 : Player) (src dst : StatType) (k : W unit)
  (Q : unit -> Player -> Prop) :
  stats_ok C (stats p0) -> In src named_stats -> In dst named_stats ->
  (forall p, keeps p0 p -> runs p k Q) ->
  runs p0 (v <- stats_getitem src ;;
           r <- rand (random.below 4) ;;
           stats_increment dst (v / 3 + 1 + r) ;;; k) Q.
Proof.
  intros Hok Hsrc Hdst Hk.
  destruct (stats_ok_named C _ src HC Hok Hsrc) as [v Hv].
  destruct (stats_ok_named C _ dst HC Hok Hdst) as [u Hu].
  pose proof (stat_of_nonneg C _ _ _ Hok Hv) as Hv0.
  run_by ltac:(apply runs_stats_getitem; exact Hv). destruct H as [-> ->].
  run_by ltac:(apply runs_rand, draws_below; lia).
  destruct H as [Hr Hp]; subst p1.
  run_by ltac:(apply runs_stats_increment; exact Hu). subst p1.
  apply Hk. apply keeps_incremented; [exact Hu |].
  pose proof (Z.div_pos v 3 Hv0 ltac:(lia)). lia.
Qed.

Lemma runs_level_up (p0 : Player) :
  stats_ok C (stats p0) -> 1 <= level p0 ->
  runs p0 (level_up C)
       (fun _ p => exists p2,
            keeps (set_level p0 (level p0 + 1)) p2 /\ p = leveled p2).
Proof.
  intros Hok Hl. unfold level_up.
  run_by ltac:(apply runs_modify_player). subst p1.
  set (p1 := set_level p0 (level p0 + 1)).
  assert (Hok1 : stats_ok C (stats p1)) by exact Hok.
  apply runs_bonus; [exact Hok1 | simpl; tauto | simpl; tauto |].
  intros p2 H12.
  apply runs_bonus;
    [eapply stats_ok_keeps; eassumption | simpl; tauto | simpl; tauto |].
  intros p3 H23. pose proof (keeps_trans _ _ _ H12 H23) as H13.
  run_as (apply runs_win_stat_keeps; eapply stats_ok_keeps; eassumption)
    as b4 p4 H34.
  pose proof (keeps_trans _ _ _ H13 H34) as H14.
  run_as (apply runs_win_stat_keeps; eapply stats_ok_keeps; eassumption)
    as b5 p5 H45.
  pose proof (keeps_trans _ _ _ H14 H45) as H15.
  run_as (apply runs_win_spell_keeps;
          [ eapply stats_ok_keeps; eassumption
          | rewrite (keeps_level _ _ H15); simpl; lia ])
    as u6 p6 H56.
  pose proof (keeps_trans _ _ _ H15 H56) as H16.
  run_as (apply runs_modify_player) as u7 p7 H67. subst p7.
  eapply runs_conseq; [apply runs_modify_player |].
  intros _ p ->. exists p6. split; [exact H16 | reflexivity].
Qed.

End Level_up.

(** ** The demonstration content *)

Lemma Demo_content_ok : content_ok Demo.content.
Proof.
  split; try discriminate.
  - intros s Hs. simpl in Hs.
    repeat (destruct Hs as [<- | Hs]; [simpl; tauto |]). contradiction.
  - intros s Hs. simpl in Hs.
    repeat (destruct Hs as [<- | Hs]; [simpl; tauto |]). contradiction.
  - repeat constructor; discriminate.
  - intros g. now exists "Grunax", g.
Qed.

Lemma Demo_start : Demo.start = Ok Demo.world.
Proof. reflexivity. Qed.

Lemma Demo_stats_ok : stats_ok Demo.content (stats (player Demo.world)).
Proof.
  split.
  - intros k Hin. vm_compute in Hin. vm_compute.
    repeat (destruct Hin as [<- | Hin]; [discriminate |]). contradiction.
  - vm_compute. repeat constructor; discriminate.
  - reflexivity.
Qed.




(** ** One iteration of dequeue *)

Ltac settled_frame := constructor; simpl; congruence.

Lemma settled_refl (p : Player) : settled p p.
Proof. settled_frame. Qed.

Lemma settled_trans (p1 p2 p3 : Player) :
  settled p1 p2 -> settled p2 p3 -> settled p1 p3.
Proof. intros [] []. constructor; congruence. Qed.

Lemma settled_inventory (p : Player) (inv : Inventory) :
  settled p (set_inventory p inv).
Proof. settled_frame. Qed.

Lemma settled_equipment (p : Player) (e : Equipment) :
  settled p (set_equipment p e).
Proof. settled_frame. Qed.

Lemma settled_quest_book (p : Player) (q : QuestBook) :
  quest_monster q = quest_monster (quest_book p) ->
  settled p (set_quest_book p q).
Proof. intros H. settled_frame. Qed.

Section Iteration.

Variable C : Content.
Hypothesis HC : content_ok C.

Lemma runs_modify_quest_book (p0 : Player) (f : QuestBook -> QuestBook) :
  runs p0 (modify_quest_book f)
       (fun _ p => p = set_quest_book p0 (f (quest_book p0))).
Proof. unfold modify_quest_book. apply runs_modify_player. Qed.

Lemma runs_complete_act (p0 : Player) :
  runs p0 (complete_act C) (fun _ p => settled p0 p).
Proof.
  unfold complete_act.
  run_as (apply runs_modify_quest_book) as u1 p1 H1.
  assert (S1 : settled p0 p1) by (subst p1; now apply settled_quest_book).
  clear H1.
  run_as (apply runs_modify_quest_book) as u2 p2 H2.
  assert (S2 : settled p0 p2).
  { apply (settled_trans _ p1); [exact S1 |].
    subst p2; now apply settled_quest_book. }
  clear H2 S1.
  run_as (apply runs_get_player) as q p3 H3. destruct H3 as [-> ->].
  eapply runs_bind with (Q1 := fun _ p => settled p0 p).
  - destruct (1 <? act (quest_book p2)).
    + run_as (apply (runs_win_item C HC)) as u4 p4 H4.
      destruct H4 as [name ->].
      eapply runs_conseq; [apply (runs_win_equipment C HC) |].
      intros _ p (slot & name' & ->).
      apply (settled_trans _ p2); [exact S2 |].
      eapply settled_trans; [apply settled_inventory | apply settled_equipment].
    + now apply runs_ret.
  - intros _ p5 S5.
    eapply runs_conseq; [apply runs_modify_quest_book |].
    intros _ p ->. apply (settled_trans _ p5); [exact S5 |].
    now apply settled_quest_book.
Qed.

Lemma Inventory_pop_in_range (inv : Inventory) (index : Z) :
  - Z.of_nat (List.length (items inv)) <= index
  < Z.of_nat (List.length (items inv)) ->
  exists before item after inv',
    Inventory_pop inv index = Ok (None, inv')
    /\ items inv = (before ++ item :: after)%list
    /\ Z.of_nat (List.length before)
       = normal_index (Z.of_nat (List.length (items inv))) index
    /\ items inv' = (before ++ after)%list
    /\ gold inv' = gold inv.
Proof.
  intros Hrange.
  destruct (py_index_in_range (items inv) index Hrange)
    as (before & item & after & Hl & Hlen & Hget & Hpop).
  exists before, item, after. unfold Inventory_pop. rewrite Hget, Hpop.
  eexists. split; [reflexivity |]. simpl. auto.
Qed.

Lemma runs_market (q : Player) :
  runs q
    (p <- get_player ;;
     if negb (Inventory_len (inventory p) =? 0) then
       item <- lift_result (Inventory_getitem (inventory p) 0) ;;
       modify_player
         (fun p =>
            set_task p
              (mk_task SellTask
                 ("Selling " ++ indefinite C (item_name item) (quantity item))
                 1000)) ;;;
       ret true
     else ret false)
    (fun broke p => market_outcome C q broke p).
Proof.
  run_as (apply runs_get_player) as p p1 H. destruct H as [-> ->].
  unfold market_outcome, Inventory_len, Inventory_getitem.
  destruct (items (inventory q)) as [| item rest] eqn:E.
  - apply runs_ret. now split.
  - replace (negb (Z.of_nat (List.length (item :: rest)) =? 0)) with true
      by (simpl; lia).
    run_as (apply runs_lift_result; reflexivity) as it p1 H.
    destruct H as [-> ->].
    run_as (apply runs_modify_player) as u p2 H. subst p2.
    apply runs_ret. now split.
Qed.

Lemma runs_task_effects (p0 : Player) (t : Task) :
  task p0 = Some t ->
  1 <= level p0 ->
  (is_SellTask t = true -> items (inventory p0) <> []) ->
  monster_ok (task_monster t) ->
  runs p0 (task_effects C) (fun broke p => effects_outcome C p0 t broke p).
Proof.
  intros Ht Hl Hsell Hm. unfold task_effects.
  run_as (apply runs_get_player) as p p1 H. destruct H as [-> ->].
  rewrite Ht. destruct t as [b m | b | b | b | b | b | b]; simpl.
  - (* KillTask *)
    assert (Hitem :
      runs p0 (win_item C ;;; ret false)
        (fun broke p =>
           broke = false
           /\ exists name,
                p = set_inventory p0 (Inventory_add (inventory p0) name 1))).
    { run_as (apply (runs_win_item C HC)) as u p1 H.
      apply runs_ret. now split. }
    destruct m as [m |]; [| exact Hitem].
    destruct (monster_item m) as [it |] eqn:E; [| exact Hitem].
    destruct it as [| c it'].
    + simpl in Hm. unfold has_drop_name in Hm. congruence.
    + run_as (apply runs_modify_player) as u p1 H. subst p1.
      apply runs_ret. split; [reflexivity |]. eexists. reflexivity.
  - (* BuyTask *)
    run_as (apply runs_modify_player) as u p1 H. subst p1.
    run_as (apply (runs_win_equipment C HC)) as u2 p2 H.
    destruct H as (slot & name & ->).
    apply runs_ret. split; [reflexivity |]. now exists slot, name.
  - (* HeadingToKillingFieldsTask *)
    apply runs_ret. now split.
  - (* HeadingToMarketTask *)
    eapply runs_bind with (Q1 := fun _ p => p = p0);
      [now apply runs_ret | intros _ p1 ->].
    apply runs_market.
  - (* SellTask *)
    specialize (Hsell eq_refl).
    destruct (Inventory_pop_in_range (inventory p0) 0)
      as (before & item & after & inv1 & Epop & Eitems & Elen & _).
    { destruct (items (inventory p0)); [contradiction | simpl; lia]. }
    assert (Eget : Inventory_getitem (inventory p0) 0 = Ok item).
    { unfold Inventory_getitem. rewrite Eitems.
      destruct before; [reflexivity | discriminate Elen]. }
    eapply runs_bind with
      (Q1 := fun _ p => exists amount,
                 p = set_inventory p0 (add_gold inv1 amount)).
    + run_as (apply runs_lift_result; exact Eget) as it p1 H.
      destruct H as [-> ->].
      eapply runs_bind with (Q1 := fun _ p => p = p0).
      * destruct (contains " of " (item_name item)).
        -- run_as (apply runs_rand, draws_below_low; lia) as a p1 H.
           destruct H as [_ ->].
           run_as (apply runs_rand, draws_below_low; lia) as a2 p1 H.
           destruct H as [_ ->]. now apply runs_ret.
        -- now apply runs_ret.
      * intros amount p1 ->.
        run_as (apply runs_lift_result; exact Epop) as popped p1 H.
        destruct H as [-> ->].
        run_as (apply runs_modify_player) as u p1 H. subst p1.
        eapply runs_conseq; [apply runs_modify_player |].
        intros _ p ->. now exists amount.
    + intros _ p1 [amount ->].
      eapply runs_conseq; [apply runs_market |].
      intros broke p Hp. now exists amount, inv1.
  - (* RegularTask *)
    apply runs_ret. now split.
  - (* PlotTask *)
    run_as (apply runs_complete_act) as u p1 H.
    apply runs_ret. now split.
Qed.

Lemma runs_next_task (p0 : Player) :
  1 <= level p0 ->
  monster_ok (quest_monster (quest_book p0)) ->
  runs p0 (next_task C) (fun _ p => next_outcome p0 p).
Proof.
  intros Hl Hq. unfold next_task, next_outcome.
  run_as (apply runs_get_player) as p p1 H. destruct H as [-> ->].
  destruct (queue p0) as [| t rest].
  - destruct (Bar_done (encum_bar (inventory p0)));
      [apply runs_modify_player |].
    destruct (task p0) as [[] |]; simpl;
      try (destruct (equip_price p0 <? gold (inventory p0));
           apply runs_modify_player);
      (run_as (apply runs_rand, (draws_monster_task C HC); assumption)
         as t p1 H;
       destruct H as [[Hk Hm] ->];
       eapply runs_conseq; [apply runs_modify_player |];
       intros _ p ->; now exists t).
  - apply runs_modify_player.
Qed.

End Iteration.

(** ** The loop of dequeue *)

Lemma add_existing_total (l : list InventoryItem) (name : string) (qty : Z)
  (l' : list InventoryItem) (changed : InventoryItem) :
  add_existing l name qty = Some (l', changed) ->
  total_quantity l' = total_quantity l + qty.
Proof.
  revert l' changed. induction l as [| item rest IH]; intros l' changed; simpl;
    [discriminate |].
  destruct (String.eqb (item_name item) name).
  - intros H; injection H as <- _. unfold total_quantity; simpl. lia.
  - destruct (add_existing rest name qty) as [[rest' c] |]; [| discriminate].
    intros H; injection H as <- _. specialize (IH rest' c eq_refl).
    unfold total_quantity in *; simpl. lia.
Qed.

Lemma Inventory_add_total (inv : Inventory) (name : string) (qty : Z) :
  total_quantity (items (Inventory_add inv name qty))
  = total_quantity (items inv) + qty.
Proof.
  unfold Inventory_add.
  destruct (add_existing (items inv) name qty) as [[l' c] |] eqn:E; simpl.
  - eapply add_existing_total; eassumption.
  - unfold total_quantity, sum_Z. rewrite map_app, fold_right_app. simpl.
    generalize (map quantity (items inv)). intros l.
    induction l as [| x l IH]; simpl; lia.
Qed.

Lemma Inventory_add_max (inv : Inventory) (name : string) (qty : Z) :
  max_ (encum_bar (Inventory_add inv name qty)) = max_ (encum_bar inv).
Proof.
  unfold Inventory_add.
  now destruct (add_existing (items inv) name qty) as [[l' c] |].
Qed.

Lemma Inventory_add_done (inv : Inventory) (name : string) (qty : Z) :
  Bar_done (encum_bar (Inventory_add inv name qty))
  = (max_ (encum_bar inv) <=? total_quantity (items inv) + qty).
Proof.
  unfold Bar_done.
  rewrite Inventory_add_synced, Qle_bool_inject_Z.
  rewrite Inventory_add_max, Inventory_add_total.
  destruct (Z.leb_spec (max_ (encum_bar inv))
              (total_quantity (items inv) + qty));
    [apply Z.leb_le | apply Z.leb_gt]; lia.
Qed.

Lemma set_task_done (p : Player) (t : Task) :
  Bar_done (task_bar (set_task p t)) = (duration (base t) <=? 0).
Proof.
  unfold Bar_done; simpl. change 0%Q with (inject_Z 0).
  apply Qle_bool_inject_Z.
Qed.

Lemma task_inv_set_task (p : Player) (t : Task) :
  1 <= level p ->
  Forall queue_task_ok (queue p) ->
  monster_ok (quest_monster (quest_book p)) ->
  (is_SellTask t = true -> items (inventory p) <> []) ->
  monster_ok (task_monster t) ->
  task_inv (set_task p t).
Proof.
  intros Hl Hq Hqm Hsell Hm. split; simpl; try assumption.
  exists t. split; [reflexivity |]. repeat split; try assumption.
  intros Hdone. rewrite set_task_done in Hdone.
  now apply Z.leb_gt in Hdone.
Qed.

Lemma queue_task_ok_plain (t : Task) :
  queue_task_ok t ->
  is_SellTask t = false /\ task_monster t = None /\ is_KillTask t = false
  /\ 0 < duration (base t).
Proof. intros [[b [-> | ->]] Hd]; repeat split; assumption. Qed.

Lemma runs_dequeue_idle (C : Content) (p0 : Player) (fuel : nat) :
  Bar_done (task_bar p0) = false ->
  runs p0 (dequeue C fuel) (fun _ p => p = p0).
Proof.
  intros Hdone w <-. exists tt, w.
  destruct fuel; simpl; unfold bind, get_player; rewrite Hdone; now split.
Qed.

Section Dequeue.

Variable C : Content.
Hypothesis HC : content_ok C.

Lemma dequeue_S (f : nat) :
  dequeue C (S f)
  = (p <- get_player ;;
     if negb (Bar_done (task_bar p)) then ret tt
     else
       broke <- task_effects C ;;
       if broke then ret tt else next_task C ;;; dequeue C f).
Proof. reflexivity. Qed.

Lemma market_summary (p0 q : Player) (broke : bool) (p : Player) :
  task_inv p0 -> unleveled p0 q -> queue q = queue p0 ->
  quest_monster (quest_book q) = quest_monster (quest_book p0) ->
  task q = task p0 ->
  market_outcome C q broke p ->
  unleveled p0 p /\ queue p = queue p0
  /\ quest_monster (quest_book p) = quest_monster (quest_book p0)
  /\ if broke then task_inv p /\ Bar_done (task_bar p) = false
     else task p = task p0.
Proof.
  intros [Hl _ Hq Hqm] (Hlq & Heq & Hsq) Hqq Hqmq Htq Hm.
  unfold market_outcome in Hm.
  destruct (items (inventory q)) as [| item rest] eqn:E.
  - destruct Hm as [-> ->]. repeat split; assumption.
  - destruct Hm as [-> ->].
    split; [repeat split; assumption |].
    split; [exact Hqq |]. split; [exact Hqmq |]. split.
    + apply task_inv_set_task.
      * now rewrite Hlq.
      * now rewrite Hqq.
      * now rewrite Hqmq.
      * intros _. rewrite E. discriminate.
      * exact I.
    + reflexivity.
Qed.

Lemma effects_summary (p0 : Player) (t : Task) (broke : bool) (p : Player) :
  task p0 = Some t -> task_inv p0 ->
  effects_outcome C p0 t broke p ->
  unleveled p0 p /\ queue p = queue p0
  /\ quest_monster (quest_book p) = quest_monster (quest_book p0)
  /\ if broke then task_inv p /\ Bar_done (task_bar p) = false
     else
       task p = Some t
       /\ (is_KillTask t = true ->
           Bar_done (encum_bar (inventory p))
           = (max_ (encum_bar (inventory p0))
              <=? total_quantity (items (inventory p0)) + 1)
           /\ max_ (encum_bar (inventory p)) = max_ (encum_bar (inventory p0))
           /\ total_quantity (items (inventory p))
              = total_quantity (items (inventory p0)) + 1)
       /\ (is_KillTask t = false -> is_hunting t = true -> p = p0).
Proof.
  intros Ht Hinv Hout.
  assert (Hsame : unleveled p0 p0) by now repeat split.
  destruct t as [b m | b | b | b | b | b | b]; simpl in Hout.
  - destruct Hout as (-> & name & ->).
    split; [exact Hsame |]. split; [reflexivity |]. split; [reflexivity |].
    split; [exact Ht |]. split.
    + intros _. split; [apply Inventory_add_done |].
      split; [apply Inventory_add_max | apply Inventory_add_total].
    + intros H; discriminate H.
  - destruct Hout as (-> & slot & name & ->).
    split; [exact Hsame |]. split; [reflexivity |]. split; [reflexivity |].
    split; [exact Ht |].
    split; [intros H; discriminate H | intros _ H; discriminate H].
  - destruct Hout as [-> ->].
    split; [exact Hsame |]. split; [reflexivity |]. split; [reflexivity |].
    split; [exact Ht |]. split; [intros H; discriminate H | reflexivity].
  - destruct (market_summary p0 p0 broke p Hinv Hsame eq_refl eq_refl eq_refl
                Hout) as (Hu & Hq & Hqm & Hb).
    split; [exact Hu |]. split; [exact Hq |]. split; [exact Hqm |].
    destruct broke; [exact Hb |]. split; [congruence |].
    split; [intros H; discriminate H | intros _ H; discriminate H].
  - destruct Hout as (amount & inv1 & _ & Hm).
    destruct (market_summary p0 (set_inventory p0 (add_gold inv1 amount))
                broke p Hinv Hsame eq_refl eq_refl eq_refl Hm)
      as (Hu & Hq & Hqm & Hb).
    split; [exact Hu |]. split; [exact Hq |]. split; [exact Hqm |].
    destruct broke; [exact Hb |]. split; [congruence |].
    split; [intros H; discriminate H | intros _ H; discriminate H].
  - destruct Hout as [-> ->].
    split; [exact Hsame |]. split; [reflexivity |]. split; [reflexivity |].
    split; [exact Ht |].
    split; [intros H; discriminate H | intros _ H; discriminate H].
  - destruct Hout as [-> []].
    split; [repeat split; assumption |].
    split; [assumption |]. split; [assumption |].
    split; [congruence |].
    split; [intros H; discriminate H | intros _ H; discriminate H].
Qed.

Lemma next_summary (p0 p p2 : Player) (t : Task) :
  task_inv p0 -> task p0 = Some t ->
  unleveled p0 p -> queue p = queue p0 ->
  quest_monster (quest_book p) = quest_monster (quest_book p0) ->
  task p = Some t ->
  (is_KillTask t = true ->
   Bar_done (encum_bar (inventory p))
   = (max_ (encum_bar (inventory p0))
      <=? total_quantity (items (inventory p0)) + 1)
   /\ max_ (encum_bar (inventory p)) = max_ (encum_bar (inventory p0))
   /\ total_quantity (items (inventory p))
      = total_quantity (items (inventory p0)) + 1) ->
  (is_KillTask t = false -> is_hunting t = true -> p = p0) ->
  next_outcome p p2 ->
  iterated p0 p2.
Proof.
  intros [Hl _ Hq Hqm] Ht (Hlp & Hep & Hsp) Hqp Hqmp Htp Hkill Hhkf Hnext.
  assert (Hl' : 1 <= level p) by now rewrite Hlp.
  assert (Hqm' : monster_ok (quest_monster (quest_book p)))
    by now rewrite Hqmp.
  assert (Hplain : forall t', is_SellTask t' = false ->
            monster_ok (task_monster t') -> task_inv (set_task p t')).
  { intros t' Hs Hm. apply task_inv_set_task; try assumption.
    - now rewrite Hqp.
    - rewrite Hs. discriminate. }
  unfold next_outcome in Hnext. rewrite Hqp in Hnext.
  destruct (queue p0) as [| t' rest] eqn:Eq.
  - destruct (Bar_done (encum_bar (inventory p))) eqn:Edone.
    { subst p2. split; [easy |]. split; [now apply Hplain |]. now left. }
    rewrite Htp in Hnext.
    destruct (is_hunting t) eqn:Ehunt; simpl in Hnext.
    + destruct Hnext as (t' & Hk & Hm & ->).
      split; [easy |]. split.
      { apply Hplain; [now destruct t' | exact Hm]. }
      right. split; [exact Hk |]. split; [simpl; now rewrite Hqp |].
      unfold is_kill. rewrite Ht.
      destruct (is_KillTask t) eqn:Ek.
      * left. split; [reflexivity |].
        destruct (Hkill eq_refl) as (Hd & Hmax & Htot).
        symmetry in Hd. apply Z.leb_gt in Hd.
        unfold kill_budget; simpl. rewrite Hmax, Htot. lia.
      * right. split; [reflexivity |].
        now rewrite (Hhkf eq_refl eq_refl).
    + destruct (equip_price p <? gold (inventory p)); subst p2;
        (split; [easy |]); (split; [now apply Hplain |]); now left.
  - subst p2. inversion Hq as [| ? ? Ht' Hrest]; subst.
    destruct (queue_task_ok_plain _ Ht') as (Hs & Hm & Hk & Hd).
    split; [easy |]. split.
    + apply task_inv_set_task; simpl; try assumption.
      * rewrite Hs. discriminate.
      * now rewrite Hm.
    + left. rewrite set_task_done. now apply Z.leb_gt.
Qed.

Lemma runs_dequeue_step (p0 : Player) (f : nat)
  (Q : unit -> Player -> Prop) :
  task_inv p0 -> Bar_done (task_bar p0) = true ->
  (forall p, dequeued p0 p -> Q tt p) ->
  (forall p, iterated p0 p -> runs p (dequeue C f) Q) ->
  runs p0 (dequeue C (S f)) Q.
Proof.
  intros Hinv Hdone Hbreak Hloop. rewrite dequeue_S.
  run_as (apply runs_get_player) as q p1 H. destruct H as [-> ->].
  rewrite Hdone. simpl negb. cbv iota.
  pose proof Hinv as [Hl (t & Ht & _ & _ & Hsell & Hm) Hq Hqm].
  run_as (apply (runs_task_effects C HC p0 t Ht Hl Hsell Hm)) as broke p1 H1.
  destruct (effects_summary p0 t broke p1 Ht Hinv H1)
    as (Hu & Hq1 & Hqm1 & Hb).
  destruct broke.
  - apply runs_ret. apply Hbreak. split; [exact Hu | exact Hb].
  - destruct Hb as (Ht1 & Hkill & Hhkf).
    assert (Hl1 : 1 <= level p1) by (destruct Hu as (-> & _); exact Hl).
    assert (Hqm1' : monster_ok (quest_monster (quest_book p1)))
      by (rewrite Hqm1; exact Hqm).
    run_as (apply (runs_next_task C HC p1 Hl1 Hqm1')) as u p2 H2.
    apply Hloop.
    exact (next_summary p0 p1 p2 t Hinv Ht Hu Hq1 Hqm1 Ht1 Hkill Hhkf H2).
Qed.

End Dequeue.

Lemma dequeued_after (p0 p1 p2 : Player) :
  unleveled p0 p1 -> dequeued p1 p2 -> dequeued p0 p2.
Proof.
  intros (Hl & He & Hs) ((Hl' & He' & Hs') & Hinv & Hdone).
  split; [| split; assumption].
  split; [congruence |]. split; congruence.
Qed.

Section Dequeue_returns.

Variable C : Content.
Hypothesis HC : content_ok C.

Lemma runs_dequeue_settled (p0 : Player) (fuel : nat) :
  task_inv p0 -> Bar_done (task_bar p0) = false ->
  runs p0 (dequeue C fuel) (fun _ p => dequeued p0 p).
Proof.
  intros Hinv Hdone.
  eapply runs_conseq; [apply runs_dequeue_idle; exact Hdone |].
  intros _ p ->. split; [| split; assumption]. now repeat split.
Qed.

(** A [KillTask] of no duration with an empty queue: every iteration loads
    the inventory by one unit until the encumbrance bar is full. *)
Lemma runs_dequeue_hunting (k : nat) :
  forall (p0 : Player) (fuel : nat),
    task_inv p0 -> is_kill (task p0) = true ->
    (kill_budget p0 <= k)%nat -> (k + 1 <= fuel)%nat ->
    runs p0 (dequeue C fuel) (fun _ p => dequeued p0 p).
Proof.
  induction k as [| k IH]; intros p0 fuel Hinv Hkill Hbudget Hfuel.
  - destruct (Bar_done (task_bar p0)) eqn:Hdone;
      [| now apply runs_dequeue_settled].
    destruct fuel as [| f]; [lia |].
    apply (runs_dequeue_step C HC); [exact Hinv | exact Hdone | auto |].
    intros p (Hu & Hinv' & [Hnd | (Hk & Hq & [[Hk0 Hlt] | [Hnk Heq]])]).
    + eapply runs_conseq;
        [ apply runs_dequeue_settled; eassumption
        | intros ? p'; now apply dequeued_after ].
    + lia.
    + congruence.
  - destruct (Bar_done (task_bar p0)) eqn:Hdone;
      [| now apply runs_dequeue_settled].
    destruct fuel as [| f]; [lia |].
    apply (runs_dequeue_step C HC); [exact Hinv | exact Hdone | auto |].
    intros p (Hu & Hinv' & [Hnd | (Hk & Hq & [[Hk0 Hlt] | [Hnk Heq]])]).
    + eapply runs_conseq;
        [ apply runs_dequeue_settled; eassumption
        | intros ? p'; now apply dequeued_after ].
    + eapply runs_conseq;
        [ apply IH; [exact Hinv' | exact Hk | lia | lia]
        | intros ? p'; now apply dequeued_after ].
    + congruence.
Qed.

Lemma runs_dequeue (p0 : Player) (fuel : nat) :
  task_inv p0 -> (kill_budget p0 + 2 <= fuel)%nat ->
  runs p0 (dequeue C fuel) (fun _ p => dequeued p0 p).
Proof.
  intros Hinv Hfuel.
  destruct (Bar_done (task_bar p0)) eqn:Hdone;
    [| now apply runs_dequeue_settled].
  destruct fuel as [| f]; [lia |].
  apply (runs_dequeue_step C HC); [exact Hinv | exact Hdone | auto |].
  intros p (Hu & Hinv' & [Hnd | (Hk & Hq & Hb)]).
  - eapply runs_conseq;
      [ apply runs_dequeue_settled; eassumption
      | intros ? p'; now apply dequeued_after ].
  - eapply runs_conseq;
      [ apply (runs_dequeue_hunting (kill_budget p));
        [exact Hinv' | exact Hk | lia |]
      | intros ? p'; now apply dequeued_after ].
    destruct Hb as [[_ Hlt] | [_ Heq]]; lia.
Qed.

End Dequeue_returns.





(** ** More fuel gives the same result *)

Lemma refines_refl {S A} (m : M S A) : refines m m.
Proof. intros s r H. exact H. Qed.

Lemma refines_bind {S A B} (m m' : M S A) (k k' : A -> M S B) :
  refines m m' -> (forall a, refines (k a) (k' a)) ->
  refines (bind m k) (bind m' k').
Proof.
  intros Hm Hk s r. unfold bind.
  destruct (m s) as [[a s1] | |] eqn:E; try discriminate.
  rewrite (Hm s _ E). apply Hk.
Qed.

Lemma refines_out_of_fuel {S A} (m : M S A) : refines out_of_fuel m.
Proof. intros s r H. discriminate H. Qed.

Ltac refine_step :=
  first
    [ apply refines_out_of_fuel
    | assumption
    | apply refines_bind; [| intros ?]
    | apply refines_refl
    | match goal with
      | |- refines (if ?b then _ else _) _ => destruct b
      end ].

Section Fuel.

Variable C : Content.

Lemma dequeue_refines (fuel fuel' : nat) :
  (fuel <= fuel')%nat -> refines (dequeue C fuel) (dequeue C fuel').
Proof.
  revert fuel'. induction fuel as [| f IH]; intros fuel' Hle.
  - destruct fuel' as [| f']; [apply refines_refl |].
    rewrite dequeue_S. simpl.
    apply refines_bind; [apply refines_refl | intros p].
    destruct (negb (Bar_done (task_bar p)));
      [apply refines_refl | apply refines_out_of_fuel].
  - destruct fuel' as [| f']; [lia |].
    assert (IH' : refines (dequeue C f) (dequeue C f')) by (apply IH; lia).
    rewrite !dequeue_S. repeat refine_step.
Qed.






Lemma dequeue_fuel_monotone : fuel_monotone (dequeue C).
Proof. intros fuel fuel' s r H Hle. now apply (dequeue_refines fuel fuel'). Qed.

End Fuel.

(** ** C3: determinism *)



(** ** complete_quest *)

Section Complete_quest.

Variable C : Content.
Hypothesis HC : content_ok C.

Lemma rewarding_ret {A} (a : A) : rewarding C (ret a).
Proof. intros p0 _ _. apply runs_ret. apply keeps_refl. Qed.

Lemma rewarding_bind {A B} (m : W A) (k : A -> W B) :
  rewarding C m -> (forall a, rewarding C (k a)) -> rewarding C (bind m k).
Proof.
  intros Hm Hk p0 Hok Hl.
  eapply runs_bind; [apply Hm; assumption |].
  intros a p1 H1. cbv beta in H1. eapply runs_conseq.
  - apply Hk.
    + eapply stats_ok_keeps; eassumption.
    + now rewrite (keeps_level _ _ H1).
  - intros b p H. eapply keeps_trans; eassumption.
Qed.

Lemma rewarding_rand {A B} (r : random.Rand A) (R : A -> Prop)
  (k : A -> W B) :
  draws r R -> (forall a, R a -> rewarding C (k a)) ->
  rewarding C (bind (rand r) k).
Proof.
  intros Hr Hk p0 Hok Hl.
  eapply runs_bind; [apply runs_rand; exact Hr |].
  intros a p1 [Ha ->]. now apply Hk.
Qed.

Lemma rewarding_get_player {B} (k : Player -> W B) :
  (forall p, rewarding C (k p)) -> rewarding C (bind get_player k).
Proof.
  intros Hk p0 Hok Hl.
  eapply runs_bind; [apply runs_get_player |].
  intros a p1 [-> ->]. now apply Hk.
Qed.

Lemma rewarding_modify_player (f : Player -> Player) :
  (forall p, keeps p (f p)) -> rewarding C (modify_player f).
Proof.
  intros Hf p0 _ _.
  eapply runs_conseq; [apply runs_modify_player |].
  intros _ p ->. apply Hf.
Qed.

Lemma rewarding_modify_quest_book (f : QuestBook -> QuestBook) :
  (forall q, monster_ok (quest_monster q) -> monster_ok (quest_monster (f q))) ->
  rewarding C (modify_quest_book f).
Proof.
  intros Hf. apply rewarding_modify_player.
  intros p. apply keeps_quest_book. apply Hf.
Qed.

Lemma rewarding_win_spell : rewarding C (win_spell C).
Proof. intros p0 Hok Hl. now apply runs_win_spell_keeps. Qed.

Lemma rewarding_win_equipment : rewarding C (win_equipment C).
Proof. intros p0 _ _. now apply runs_win_equipment_keeps. Qed.

Lemma rewarding_win_item : rewarding C (win_item C).
Proof. intros p0 _ _. now apply runs_win_item_keeps. Qed.

Lemma rewarding_win_stat : rewarding C (win_stat C).
Proof. intros p0 Hok _. now apply runs_win_stat_keeps. Qed.

Lemma rewarding_complete_quest : rewarding C (complete_quest C).
Proof.
  unfold complete_quest.
  apply rewarding_rand with (R := fun _ => True);
    [eapply draws_conseq; [apply draws_below_low; lia | auto] |].
  intros r _.
  apply rewarding_bind; [now apply rewarding_modify_quest_book |]. intros _.
  apply rewarding_get_player. intros p.
  apply rewarding_bind.
  { destruct (truthy (current_quest (quest_book p)));
      [| apply rewarding_ret].
    eapply rewarding_rand; [apply draws_choice; discriminate |].
    intros reward Hin. simpl in Hin.
    destruct Hin as [<- | [<- | [<- | [<- | []]]]].
    - apply rewarding_win_spell.
    - apply rewarding_win_equipment.
    - apply rewarding_bind; [apply rewarding_win_stat |].
      intros _. apply rewarding_ret.
    - apply rewarding_win_item. }
  intros _.
  apply rewarding_bind;
    [apply rewarding_modify_quest_book; intros q _; exact I |].
  intros _.
  eapply rewarding_rand; [apply draws_below; lia |].
  intros choice Hchoice. cbv beta in Hchoice.
  apply rewarding_get_player. intros p'.
  apply rewarding_bind.
  { destruct (choice =? 0) eqn:E0.
    { eapply rewarding_rand; [apply (draws_unnamed_monster C HC) |].
      intros m Hm.
      apply rewarding_bind; [| intros _; apply rewarding_ret].
      apply rewarding_modify_quest_book. intros q _. simpl.
      now apply (monsters_have_drop_names C HC). }
    destruct (choice =? 1) eqn:E1.
    { eapply rewarding_rand; [apply (draws_interesting_item C HC) |].
      intros i _. apply rewarding_ret. }
    destruct (choice =? 2) eqn:E2.
    { eapply rewarding_rand; [apply (draws_boring_item C HC) |].
      intros i _. apply rewarding_ret. }
    destruct (choice =? 3) eqn:E3.
    { eapply rewarding_rand; [apply (draws_boring_item C HC) |].
      intros i _. apply rewarding_ret. }
    destruct (choice =? 4) eqn:E4.
    { eapply rewarding_rand; [apply (draws_unnamed_monster C HC) |].
      intros m _. apply rewarding_ret. }
    apply Z.eqb_neq in E0, E1, E2, E3, E4. lia. }
  intros caption.
  apply rewarding_bind; [now apply rewarding_modify_quest_book |]. intros _.
  now apply rewarding_modify_quest_book.
Qed.

End Complete_quest.

(** ** The invariant of the engine is kept *)

Lemma returns_rand {A} (p0 : Player) (r : random.Rand A) :
  returns p0 (rand r) (fun _ p => p = p0).
Proof.
  intros w a w' <- E. unfold rand in E.
  destruct (r (gen w)) as [[a1 g] | |]; try discriminate.
  now injection E as _ <-.
Qed.

Lemma engine_inv_frame (C : Content) (p p' : Player) :
  engine_inv C p ->
  level p' = level p -> max_ (exp_bar p') = max_ (exp_bar p) ->
  stats p' = stats p -> task p' = task p -> task_bar p' = task_bar p ->
  queue p' = queue p ->
  items (inventory p') = items (inventory p) ->
  quest_monster (quest_book p') = quest_monster (quest_book p) ->
  engine_inv C p'.
Proof.
  intros [[Hl (t & Ht & Hbar & Hdone & Hsell & Hm) Hq Hqm] Hs He]
    El Ee Es Et Eb Eq Ei Em.
  split; [split |  |].
  - now rewrite El.
  - exists t. split; [congruence |]. unfold task_ok. rewrite Eb, Ei.
    repeat split; assumption.
  - now rewrite Eq.
  - now rewrite Em.
  - now rewrite Es.
  - unfold exp_ok in *. now rewrite Ee, El.
Qed.

Section Preservation.

Variable C : Content.
Hypothesis HC : content_ok C.

Lemma preserves_ret {A} (a : A) : preserves C (ret a).
Proof. intros p0 Hinv. now apply returns_ret. Qed.

Lemma preserves_raise {A} (e : exn) : preserves C (@raise World A e).
Proof. intros p0 Hinv. apply returns_raise. Qed.

Lemma preserves_out_of_fuel {A} : preserves C (@out_of_fuel World A).
Proof. intros p0 Hinv. apply returns_out_of_fuel. Qed.

Lemma preserves_bind {A B} (m : W A) (k : A -> W B) :
  preserves C m -> (forall a, preserves C (k a)) -> preserves C (bind m k).
Proof.
  intros Hm Hk p0 Hinv. eapply returns_bind; [now apply Hm |].
  intros a p1 H1. now apply Hk.
Qed.

Lemma preserves_rand {A} (r : random.Rand A) : preserves C (rand r).
Proof.
  intros p0 Hinv. eapply returns_conseq; [apply returns_rand |].
  now intros _ p ->.
Qed.

Lemma preserves_get_player : preserves C get_player.
Proof.
  intros p0 Hinv. apply runs_returns.
  eapply runs_conseq; [apply runs_get_player |]. now intros a p [_ ->].
Qed.

Lemma preserves_modify_player (f : Player -> Player) :
  (forall p, engine_inv C p -> engine_inv C (f p)) ->
  preserves C (modify_player f).
Proof.
  intros Hf p0 Hinv. apply runs_returns.
  eapply runs_conseq; [apply runs_modify_player |].
  intros _ p ->. now apply Hf.
Qed.

Lemma preserves_rewarding {A} (m : W A) : rewarding C m -> preserves C m.
Proof.
  intros Hm p0 Hinv. apply runs_returns.
  eapply runs_conseq.
  - apply Hm; [apply (inv_stats C p0 Hinv) |].
    apply (inv_level p0 (inv_tasks C p0 Hinv)).
  - intros a p Hk. cbv beta in Hk. eapply engine_inv_keeps; eassumption.
Qed.

Lemma preserves_level_up : preserves C (level_up C).
Proof.
  intros p0 Hinv. apply runs_returns.
  pose proof (inv_level p0 (inv_tasks C p0 Hinv)) as Hl.
  eapply runs_conseq;
    [apply (runs_level_up C HC p0 (inv_stats C p0 Hinv) Hl) |].
  intros _ p (p2 & Hk & ->).
  assert (H1 : task_inv (set_level p0 (level p0 + 1))).
  { destruct Hinv as [[_ Ht Hq Hqm] _ _]. split; simpl; try assumption. lia. }
  pose proof (task_inv_keeps _ _ Hk H1) as [Hl2 (t & Ht & Hok) Hq2 Hqm2].
  split.
  - split; simpl; try assumption. now exists t.
  - simpl. eapply stats_ok_le; [apply (inv_stats C p0 Hinv) |].
    apply (keeps_stats _ _ Hk).
  - reflexivity.
Qed.

Lemma preserves_dequeue (fuel : nat) : preserves C (dequeue C fuel).
Proof.
  intros p0 Hinv w a w' Hw E.
  pose proof (inv_tasks C p0 Hinv) as Ht.
  apply (dequeue_refines C fuel (Nat.max fuel (kill_budget p0 + 2))) in E;
    [| lia].
  destruct (runs_dequeue C HC p0 (Nat.max fuel (kill_budget p0 + 2)) Ht
              ltac:(lia) w Hw)
    as (a1 & w1 & E1 & (Hl & He & Hs) & Ht1 & _).
  rewrite E in E1. injection E1 as -> ->.
  split; [exact Ht1 | rewrite Hs; apply (inv_stats C p0 Hinv) |].
  unfold exp_ok. rewrite He, Hl. apply (inv_exp C p0 Hinv).
Qed.

Lemma queue_task_ok_regular (d : string) (n : Z) :
  0 < n -> queue_task_ok (mk_task RegularTask d n).
Proof. intros Hn. split; [eexists; now left | exact Hn]. Qed.

Lemma queue_task_ok_plot (d : string) (n : Z) :
  0 < n -> queue_task_ok (mk_task PlotTask d n).
Proof. intros Hn. split; [eexists; now right | exact Hn]. Qed.

Lemma preserves_enqueue (fuel : nat) (t : Task) :
  queue_task_ok t -> preserves C (enqueue C fuel t).
Proof.
  intros Ht. unfold enqueue.
  apply preserves_bind; [| intros _; apply preserves_dequeue].
  apply preserves_modify_player.
  intros p [[Hl (t0 & Ht0) Hq Hqm] Hs He].
  split; [split | |]; simpl; try assumption.
  - now exists t0.
  - apply Forall_app. split; [exact Hq | now constructor].
Qed.

Ltac preserve_step :=
  first
    [ apply preserves_ret
    | apply preserves_raise
    | apply preserves_out_of_fuel
    | apply preserves_get_player
    | apply preserves_rand
    | apply preserves_dequeue
    | apply preserves_enqueue;
      first [ apply queue_task_ok_regular | apply queue_task_ok_plot ]; lia
    | assumption
    | apply preserves_bind; [| intros ?]
    | match goal with
      | |- preserves _ (if ?b then _ else _) => destruct b
      end ].

Lemma preserves_nemesis_combat (fuel rounds : nat) (nemesis : string)
  (i s : Z) :
  preserves C (nemesis_combat C fuel rounds nemesis i s).
Proof.
  revert i s. induction rounds as [| n IH]; intros i s; simpl.
  - apply preserves_out_of_fuel.
  - repeat first [ apply IH | preserve_step ].
Qed.

Lemma preserves_interplot_cinematic (fuel : nat) :
  preserves C (interplot_cinematic C fuel).
Proof.
  unfold interplot_cinematic.
  repeat first [ apply preserves_nemesis_combat | preserve_step ].
Qed.

Lemma engine_inv_bar_frame (p : Player) (b : Bar) :
  engine_inv C p -> max_ b = max_ (exp_bar p) ->
  engine_inv C (set_exp_bar p b).
Proof.
  intros Hinv Hb. now apply (engine_inv_frame C p).
Qed.

Lemma engine_inv_quest_frame (p : Player) (q : QuestBook) :
  engine_inv C p -> quest_monster q = quest_monster (quest_book p) ->
  engine_inv C (set_quest_book p q).
Proof.
  intros Hinv Hq. now apply (engine_inv_frame C p).
Qed.

Lemma engine_inv_task_bar (p : Player) (e : Q) :
  engine_inv C p -> Bar_done (task_bar p) = false ->
  engine_inv C (set_task_bar p (Bar_increment (task_bar p) e)).
Proof.
  intros [[Hl (t & Ht & Hbar & Hdone & Hsell & Hm) Hq Hqm] Hs He] Hnd.
  split; [split | |]; simpl; try assumption.
  exists t. split; [exact Ht |]. unfold task_ok; simpl.
  repeat split; try assumption. intros _. now apply Hdone.
Qed.

Lemma preserves_tick (fuel : nat) (e : Q) : preserves C (tick C fuel e).
Proof.
  intros p0 Hinv. unfold tick.
  eapply returns_bind; [apply runs_returns, runs_get_player |].
  intros a p1 [-> ->].
  destruct (Bar_done (task_bar p0)) eqn:Hdone; simpl negb; cbv iota.
  - match goal with
    | |- returns _ ?m _ => assert (Hrest : preserves C m)
    end; [| exact (Hrest p0 Hinv)].
    unfold modify_quest_book.
    repeat first
      [ apply preserves_level_up
      | apply (preserves_rewarding _ (rewarding_complete_quest C HC))
      | apply preserves_interplot_cinematic
      | apply preserves_modify_player; intros p Hp;
        first [ apply engine_inv_bar_frame | apply engine_inv_quest_frame ];
        [exact Hp | reflexivity]
      | preserve_step ].
  - intros w u w' Hw E. injection E as _ <-. simpl. subst p0.
    now apply engine_inv_task_bar.
Qed.

End Preservation.

(** ** The first player *)

Lemma Forall_dict_set (P : StatType * Z -> Prop) (d : list (StatType * Z))
  (k : StatType) (v : Z) :
  Forall P d -> P (k, v) -> Forall P (dict_set StatType_eq_dec d k v).
Proof.
  intros Hd Hkv. induction Hd as [| [k' v'] rest Hx Hrest IH]; simpl.
  - now constructor.
  - destruct (StatType_eq_dec k k'); constructor; assumption.
Qed.

Lemma dict_set_has (d : list (StatType * Z)) (k k' : StatType) (v : Z) :
  k' = k \/ dict_get StatType_eq_dec d k' <> None ->
  dict_get StatType_eq_dec (dict_set StatType_eq_dec d k v) k' <> None.
Proof.
  intros H. destruct (StatType_eq_dec k' k) as [-> | Hne].
  - rewrite dict_get_set_same. discriminate.
  - rewrite dict_get_set_other by exact Hne. destruct H; [contradiction | easy].
Qed.

Lemma sum_squares_In (d : list (StatType * Z)) (k : StatType) (v : Z) :
  In (k, v) d -> v ^ 2 <= sum_squares d /\ 0 <= sum_squares d.
Proof.
  induction d as [| [k' v'] rest IH].
  - contradiction.
  - change (sum_squares ((k', v') :: rest))
      with (v' ^ 2 + sum_squares rest).
    assert (Hrest : 0 <= sum_squares rest).
    { clear. induction rest as [| [k0 v0] r IHr]; [reflexivity |].
      change (sum_squares ((k0, v0) :: r)) with (v0 ^ 2 + sum_squares r).
      rewrite Z.pow_2_r. nia. }
    intros [Heq | Hin].
    + injection Heq as -> ->. rewrite Z.pow_2_r. nia.
    + destruct (IH Hin). rewrite Z.pow_2_r in *. nia.
Qed.

Section First_player.

Variable C : Content.
Hypothesis HC : content_ok C.

Lemma draws_roll_prime (l : list StatType) (acc : list (StatType * Z)) :
  Forall (fun kv => 3 <= snd kv) acc ->
  draws (roll_prime l acc)
        (fun d => Forall (fun kv => 3 <= snd kv) d
                  /\ forall k, In k l \/ dict_get StatType_eq_dec acc k <> None ->
                               dict_get StatType_eq_dec d k <> None).
Proof.
  revert acc. induction l as [| stat rest IH]; intros acc Hacc;
    cbn [roll_prime].
  - apply draws_ret. split; [exact Hacc |]. intros k [[] | H]; exact H.
  - draw_by ltac:(apply draws_below; lia). rename H into Ha.
    draw_by ltac:(apply draws_below; lia). rename H into Hb.
    draw_by ltac:(apply draws_below; lia). rename H into Hc.
    eapply draws_conseq.
    + apply IH. apply Forall_dict_set; [exact Hacc | cbn [snd]; lia].
    + intros d [Hd Hkeys]. split; [exact Hd |].
      intros k Hk. apply Hkeys.
      destruct Hk as [[<- | Hin] | Hk].
      * right. apply dict_set_has. now left.
      * now left.
      * right. apply dict_set_has. now right.
Qed.

Lemma prime_stat (k : StatType) :
  In k named_stats -> k <> hp_max -> k <> mp_max -> In k (PRIME_STATS C).
Proof.
  intros Hk Hh Hm.
  destruct (ok_rolled C HC k (ok_named_stats C HC k Hk)) as [H | [H | H]];
    [exact H | contradiction | contradiction].
Qed.

Lemma draws_dict_getitem (d : list (StatType * Z)) (k : StatType) (v : Z) :
  dict_get StatType_eq_dec d k = Some v ->
  draws (dict_getitem d k) (fun x => x = v).
Proof. intros H. unfold dict_getitem. rewrite H. now apply draws_ret. Qed.

Lemma draws_roll (history : list Stats) :
  draws (roll C history) (fun r => stats_ok C (fst r)).
Proof.
  unfold roll.
  draw_by ltac:(apply draws_roll_prime; constructor).
  destruct H as [H3 Hkeys]. rename a into vals.
  draw_by ltac:(apply draws_below; lia). rename a into r1, H into Hr1.
  assert (Hcon : exists con, dict_get StatType_eq_dec vals condition = Some con).
  { destruct (dict_get StatType_eq_dec vals condition) as [con |] eqn:E;
      [now exists con |].
    exfalso. apply (Hkeys condition); [| exact E].
    left. apply prime_stat; [simpl; tauto | discriminate | discriminate]. }
  destruct Hcon as [con Hcon].
  assert (Hint : exists int,
            dict_get StatType_eq_dec vals intelligence = Some int).
  { destruct (dict_get StatType_eq_dec vals intelligence) as [int |] eqn:E;
      [now exists int |].
    exfalso. apply (Hkeys intelligence); [| exact E].
    left. apply prime_stat; [simpl; tauto | discriminate | discriminate]. }
  destruct Hint as [int Hint].
  assert (Hcon3 : 3 <= con).
  { apply dict_get_In in Hcon. rewrite Forall_forall in H3.
    exact (H3 _ Hcon). }
  assert (Hint3 : 3 <= int).
  { apply dict_get_In in Hint. rewrite Forall_forall in H3.
    exact (H3 _ Hint). }
  draw_by ltac:(apply draws_dict_getitem; exact Hcon). subst a.
  draw_by ltac:(apply draws_below; lia). rename a into r2, H into Hr2.
  draw_by ltac:(apply draws_dict_getitem;
                rewrite dict_get_set_other by discriminate; exact Hint).
  subst a. apply draws_ret. simpl.
  pose proof (Z.div_pos con 6 ltac:(lia) ltac:(lia)) as Hd1.
  pose proof (Z.div_pos int 6 ltac:(lia) ltac:(lia)) as Hd2.
  split; simpl.
  - intros k Hk. unfold stat_of; simpl.
    apply dict_set_has.
    destruct (ok_rolled C HC k Hk) as [Hp | [-> | ->]].
    + right. apply dict_set_has. right. apply Hkeys. now left.
    + right. apply dict_set_has. now left.
    + now left.
  - apply Forall_dict_set; [apply Forall_dict_set |]; cbn [snd]; try lia.
    eapply Forall_impl; [| exact H3]. intros kv Hkv. cbv beta in Hkv. lia.
  - assert (Hc : In (condition, con)
                   (dict_set StatType_eq_dec
                      (dict_set StatType_eq_dec vals hp_max (r1 + con / 6))
                      mp_max (r2 + int / 6))).
    { apply dict_get_In.
      rewrite !dict_get_set_other by discriminate. exact Hcon. }
    destruct (sum_squares_In _ _ _ Hc) as [Hle _].
    rewrite Z.pow_2_r in Hle. nia.
Qed.

Lemma rolled_stats_ok (st : Stats) : rolled C st -> stats_ok C st.
Proof.
  intros (history & g & history' & g' & E).
  destruct (draws_roll history g) as (r & g1 & E1 & Hok).
  rewrite E in E1. injection E1 as <- _. exact Hok.
Qed.

Lemma initial_queue_ok : Forall queue_task_ok (initial_queue C).
Proof.
  unfold initial_queue.
  repeat constructor;
    first [ apply queue_task_ok_regular | apply queue_task_ok_plot ]; lia.
Qed.

Lemma Player_init_engine_inv (name0 : string) (birthday0 : Z) (race0 : Race)
  (class0 : Class) (st : Stats) (p : Player) :
  stats_ok C st ->
  Player_init C name0 birthday0 race0 class0 st = Ok p ->
  engine_inv C p.
Proof.
  intros Hok E. unfold Player_init in E.
  destruct (Stats_getitem st strength) as [str | |]; try discriminate.
  injection E as <-. split; [split | |]; simpl.
  - lia.
  - eexists. split; [reflexivity |]. unfold task_ok; simpl.
    repeat split; try lia.
  - apply initial_queue_ok.
  - exact I.
  - exact Hok.
  - reflexivity.
Qed.

(** Every reachable player satisfies the invariant of the engine. *)
Theorem reachable_engine_inv (w : World) :
  reachable C w -> engine_inv C (player w).
Proof.
  induction 1 as [now sequence name0 race0 class0 st w Hr E
                 | w w' fuel e _ IH E].
  - unfold create_player in E.
    destruct (Player_init C name0 now race0 class0 st) as [p | |] eqn:Ep;
      try discriminate.
    injection E as <-. simpl.
    eapply Player_init_engine_inv; [apply rolled_stats_ok |]; eassumption.
  - exact (preserves_tick C HC fuel e (player w) IH w tt w' eq_refl E).
Qed.

End First_player.

Lemma Demo_world_reachable : reachable Demo.content Demo.world.
Proof.
  eapply (reachable_start Demo.content 0 Demo.sequence "Hero"
            {| race_name := "Half Orc" |} {| class_name := "Ur-Paladin" |}).
  - exists [], (random.seed Demo.sequence). eexists _, _.
    vm_compute. reflexivity.
  - reflexivity.
Qed.

Lemma Demo_finished_reachable : reachable Demo.content Demo.finished.
Proof.
  apply (reachable_tick Demo.content Demo.world Demo.finished 0 2000).
  - exact Demo_world_reachable.
  - reflexivity.
Qed.

(** ** C7: level_up *)

(** C7: every reachable player has level at least 1, statistics that are
    complete, non-negative and not all zero, and an experience bar with its
    level's cap; started on such a player, [level_up] returns, the level has
    increased by exactly 1, the maximum of the experience bar has strictly
    increased and is the cap of the new level, with the bar reset to 0, and
    neither the max-HP nor the max-MP statistic has decreased. *)
Theorem level_up_advances (C : Content) :
  content_ok C ->
  (forall w, reachable C w ->
             1 <= level (player w) /\ stats_ok C (stats (player w))
             /\ exp_ok (player w))
  /\ (forall w,
        1 <= level (player w) ->
        stats_ok C (stats (player w)) ->
        exp_ok (player w) ->
        exists w',
          level_up C w = Ok (tt, w')
          /\ level (player w') = level (player w) + 1
          /\ max_ (exp_bar (player w)) < max_ (exp_bar (player w'))
          /\ max_ (exp_bar (player w')) = level_up_time (level (player w'))
          /\ position (exp_bar (player w')) = 0%Q
          /\ (exists h h', stat_of (stats (player w)) hp_max = Some h
                           /\ stat_of (stats (player w')) hp_max = Some h'
                           /\ h <= h')
          /\ (exists m m', stat_of (stats (player w)) mp_max = Some m
                           /\ stat_of (stats (player w')) mp_max = Some m'
                           /\ m <= m')).
Proof.
  intros HC. split.
  - intros w Hw. destruct (reachable_engine_inv C HC w Hw) as [Ht Hs He].
    split; [apply (inv_level _ Ht) | now split].
  - intros w Hl Hok Hexp.
    destruct (runs_level_up C HC (player w) Hok Hl w eq_refl)
      as ([] & w' & E & p2 & Hk & Hp).
    exists w'. rewrite Hp. destruct Hk. simpl in *.
    assert (Hgrow : forall k, In k named_stats ->
              exists v v', stat_of (stats (player w)) k = Some v
                           /\ stat_of (stats p2) k = Some v' /\ v <= v').
    { intros k Hk. destruct (stats_ok_named C _ k HC Hok Hk) as [v Hv].
      destruct (stats_le_stat_of _ _ _ _ keeps_stats0 Hv)
        as (v' & Hv' & Hle).
      now exists v, v'. }
    repeat split.
    + exact E.
    + exact keeps_level0.
    + rewrite Hexp, keeps_level0. unfold level_up_time. lia.
    + apply Hgrow. simpl; tauto.
    + apply Hgrow. simpl; tauto.
Qed.

Lemma level_up_advances_witness :
  exists w',
    level_up Demo.content Demo.world = Ok (tt, w')
    /\ level (player w') = 2
    /\ max_ (exp_bar (player w')) = 2400.
Proof.
  destruct (proj1 (level_up_advances Demo.content Demo_content_ok)
              Demo.world Demo_world_reachable) as (Hl & Hs & He).
  destruct (proj2 (level_up_advances Demo.content Demo_content_ok)
              Demo.world Hl Hs He) as (w' & E & Hl' & _ & Hmax & _).
  exists w'. split; [exact E |]. split; [exact Hl' |].
  rewrite Hmax, Hl'. reflexivity.
Defined.

(** ** C2: dequeue returns with a task that takes time *)

(** C2: every reachable player satisfies the task invariant (level at least
    1, an active task measured by the task bar, a [SellTask] only with
    something to sell, a queue of regular tasks that take time), and on every
    player satisfying it (the reachable ones, and those [tick] hands to
    [dequeue]) [dequeue] returns as soon as it is given enough fuel: its loop
    terminates.  On return the invariant holds again and the player has an
    active task of duration greater than 0. *)
Theorem dequeue_liveness (C : Content) :
  content_ok C ->
  (forall w, reachable C w -> task_inv (player w))
  /\ (forall w, task_inv (player w) ->
      exists n, forall fuel, (n <= fuel)%nat ->
        exists w',
          dequeue C fuel w = Ok (tt, w')
          /\ task_inv (player w')
          /\ exists t, task (player w') = Some t /\ 0 < duration (base t)).
Proof.
  intros HC. split.
  - intros w Hw. apply (inv_tasks C). now apply reachable_engine_inv.
  - intros w Hinv. exists (kill_budget (player w) + 2)%nat.
    intros fuel Hfuel.
    destruct (runs_dequeue C HC (player w) fuel Hinv Hfuel w eq_refl)
      as ([] & w' & E & _ & Hinv' & Hdone).
    exists w'. split; [exact E |]. split; [exact Hinv' |].
    destruct Hinv' as [_ (t & Ht & _ & Hpos & _) _ _].
    exists t. split; [exact Ht | now apply Hpos].
Qed.

Lemma dequeue_liveness_witness :
  exists n, forall fuel, (n <= fuel)%nat ->
    exists w',
      dequeue Demo.content fuel Demo.finished = Ok (tt, w')
      /\ task_inv (player w')
      /\ exists t, task (player w') = Some t /\ 0 < duration (base t).
Proof.
  apply (proj2 (dequeue_liveness Demo.content Demo_content_ok) Demo.finished).
  apply (proj1 (dequeue_liveness Demo.content Demo_content_ok) Demo.finished).
  exact Demo_finished_reachable.
Defined.

(** ** C8: the purchase scenario *)


Section Purchase.

Variable C : Content.
Hypothesis HC : content_ok C.



End Purchase.




(** * Further properties of the engine *)

(** ** Inventory.add *)

Lemma add_existing_spec (l : list InventoryItem) (name : string) (qty : Z) :
  match add_existing l name qty with
  | Some (l', changed) =>
      exists before item after,
        l = (before ++ item :: after)%list
        /\ item_name item = name
        /\ ~ In name (map item_name before)
        /\ changed = {| item_name := item_name item;
                        quantity := quantity item + qty |}
        /\ l' = (before ++ changed :: after)%list
  | None => ~ In name (map item_name l)
  end.
Proof.
  induction l as [| item rest IH]; simpl.
  - tauto.
  - destruct (String.eqb (item_name item) name) eqn:E.
    + apply String.eqb_eq in E.
      exists [], item, rest. repeat split; auto.
    + apply String.eqb_neq in E.
      destruct (add_existing rest name qty) as [[rest' changed] |].
      * destruct IH as (before & it & after & -> & Hn & Hnot & Hc & ->).
        exists (item :: before), it, after. repeat split; auto.
        simpl. intros [H | H]; [now apply E | now apply Hnot].
      * intros [H | H]; [now apply E | now apply IH].
Qed.

(** X1: [add] of a name the inventory holds adds the quantity to the first
    item of that name and leaves the list as long as it was; [add] of a new
    name appends one item.  Gold is untouched and the sum of the quantities
    grows by the quantity added. *)
Theorem Inventory_add_merges (inv : Inventory) (name : string) (qty : Z) :
  gold (Inventory_add inv name qty) = gold inv
  /\ total_quantity (items (Inventory_add inv name qty))
     = total_quantity (items inv) + qty
  /\ (In name (map item_name (items inv)) ->
      exists before item after,
        items inv = (before ++ item :: after)%list
        /\ item_name item = name
        /\ ~ In name (map item_name before)
        /\ items (Inventory_add inv name qty)
           = (before
              ++ {| item_name := name; quantity := quantity item + qty |}
              :: after)%list)
  /\ (~ In name (map item_name (items inv)) ->
      items (Inventory_add inv name qty)
      = (items inv ++ [ {| item_name := name; quantity := qty |} ])%list).
Proof.
  split; [| split; [apply Inventory_add_total |]].
  - unfold Inventory_add.
    now destruct (add_existing (items inv) name qty) as [[l' c] |].
  - pose proof (add_existing_spec (items inv) name qty) as H.
    unfold Inventory_add.
    destruct (add_existing (items inv) name qty) as [[l' c] |]; simpl.
    + destruct H as (before & item & after & Hl & Hn & Hnot & Hc & Hl').
      split.
      * intros _. exists before, item, after.
        rewrite Hl', Hc, Hn. auto.
      * intros Habs. exfalso. apply Habs. rewrite Hl, map_app. simpl.
        apply in_or_app. right. left. exact Hn.
    + split; [intros Hin; contradiction | reflexivity].
Qed.

Lemma Inventory_add_merges_witness :
  (exists before item after,
     items one_nail = (before ++ item :: after)%list
     /\ item_name item = "nail"
     /\ ~ In "nail" (map item_name before)
     /\ items (Inventory_add one_nail "nail" 4)
        = (before
           ++ {| item_name := "nail"; quantity := quantity item + 4 |}
           :: after)%list)
  /\ items (Inventory_add one_nail "lunchpail" 2)
     = [ {| item_name := "nail"; quantity := 1 |};
         {| item_name := "lunchpail"; quantity := 2 |} ].
Proof.
  split.
  - apply (proj1 (proj2 (proj2 (Inventory_add_merges one_nail "nail" 4)))).
    simpl. now left.
  - apply (proj2 (proj2 (proj2 (Inventory_add_merges one_nail "lunchpail" 2)))).
    simpl. intros [H | []]. discriminate H.
Defined.

(** X2: an inventory whose items have distinct names keeps distinct names
    through [add] and through [pop]. *)
Theorem Inventory_names_unique (inv : Inventory) :
  NoDup (map item_name (items inv)) ->
  (forall name qty,
     NoDup (map item_name (items (Inventory_add inv name qty))))
  /\ (forall index r inv',
        Inventory_pop inv index = Ok (r, inv') ->
        NoDup (map item_name (items inv'))).
Proof.
  intros Hnd. split.
  - intros name qty.
    pose proof (add_existing_spec (items inv) name qty) as H.
    unfold Inventory_add.
    destruct (add_existing (items inv) name qty) as [[l' c] |]; simpl.
    + destruct H as (before & item & after & Hl & Hn & Hnot & Hc & Hl').
      rewrite Hl in Hnd. rewrite Hl', Hc.
      rewrite map_app in *. exact Hnd.
    + rewrite map_app. simpl.
      apply NoDup_app; [exact Hnd | repeat constructor; auto |].
      intros x Hx [<- | []]. now apply H.
  - intros index r inv' Hpop.
    unfold Inventory_pop in Hpop.
    destruct (Z_lt_ge_dec index (- Z.of_nat (List.length (items inv))))
      as [Hlo | Hlo];
      [rewrite py_index_out_of_range in Hpop by (left; exact Hlo);
       discriminate Hpop |].
    destruct (Z_lt_ge_dec index (Z.of_nat (List.length (items inv))))
      as [Hhi | Hhi];
      [| rewrite py_index_out_of_range in Hpop by (right; lia);
         discriminate Hpop].
    destruct (py_index_in_range (items inv) index)
      as (before & item & after & Hl & _ & Hget & Hrest); [lia |].
    rewrite Hget, Hrest in Hpop. injection Hpop as _ <-. simpl.
    rewrite Hl in Hnd. rewrite map_app in *. simpl in Hnd.
    eapply NoDup_remove_1. exact Hnd.
Qed.

Lemma Inventory_names_unique_witness :
  NoDup (map item_name
           (items (Inventory_add (Inventory_add one_nail "lunchpail" 2)
                     "nail" 3)))
  /\ match Inventory_pop (Inventory_add one_nail "lunchpail" 2) (-1) with
     | Ok (_, inv') => NoDup (map item_name (items inv'))
     | _ => False
     end.
Proof.
  assert (H : NoDup (map item_name
                       (items (Inventory_add one_nail "lunchpail" 2)))).
  { simpl. repeat constructor; simpl; intuition discriminate. }
  split.
  - exact (proj1 (Inventory_names_unique _ H) "nail" 3).
  - destruct (Inventory_pop (Inventory_add one_nail "lunchpail" 2) (-1))
      as [[r inv'] | e |] eqn:E.
    + exact (proj2 (Inventory_names_unique _ H) (-1) r inv' E).
    + vm_compute in E. discriminate E.
    + vm_compute in E. discriminate E.
Defined.

(** ** Dictionaries: order of the keys *)

Lemma dict_set_present {K V} (dec : forall a b : K, {a = b} + {a <> b})
  (d : list (K * V)) (k : K) (v : V) :
  dict_get dec d k <> None -> map fst (dict_set dec d k v) = map fst d.
Proof.
  induction d as [| [k' v'] rest IH]; simpl.
  - intros H. now contradiction H.
  - destruct (dec k k') as [-> | Hne]; simpl.
    + reflexivity.
    + intros H. now rewrite IH.
Qed.

Lemma dict_set_absent {K V} (dec : forall a b : K, {a = b} + {a <> b})
  (d : list (K * V)) (k : K) (v : V) :
  dict_get dec d k = None ->
  dict_set dec d k v = (d ++ [(k, v)])%list /\ ~ In k (map fst d).
Proof.
  induction d as [| [k' v'] rest IH]; simpl.
  - intros _. split; [reflexivity | tauto].
  - destruct (dec k k') as [-> | Hne]; [discriminate |].
    intros H. destruct (IH H) as [-> Hnot]. split; [reflexivity |].
    intros [Heq | Hin]; [now apply Hne | now apply Hnot].
Qed.

(** ** Stats *)

(** X3: [increment] and [__getitem__] raise [KeyError] exactly on a stat that
    has no entry; on a stat that has one, [increment] adds the quantity to it,
    leaves every other stat as it was and keeps the order of the entries. *)
Theorem Stats_increment_lookup (s : Stats) (stat : StatType) (qty : Z) :
  (stat_of s stat = None ->
   Stats_increment s stat qty = Raise KeyError
   /\ Stats_getitem s stat = Raise KeyError)
  /\ (forall v, stat_of s stat = Some v ->
      exists s',
        Stats_increment s stat qty = Ok s'
        /\ Stats_getitem s' stat = Ok (v + qty)
        /\ (forall k, k <> stat -> Stats_getitem s' k = Stats_getitem s k)
        /\ map fst (values s') = map fst (values s)).
Proof.
  unfold stat_of, Stats_increment, Stats_getitem. split.
  - intros ->. split; reflexivity.
  - intros v Hv. rewrite Hv. eexists. split; [reflexivity |]. simpl.
    split; [| split].
    + now rewrite dict_get_set_same.
    + intros k Hk. now rewrite dict_get_set_other.
    + apply dict_set_present. rewrite Hv. discriminate.
Qed.

Lemma Stats_increment_lookup_witness :
  Stats_increment (Stats_init [(strength, 12); (wisdom, 9)]) condition 1
  = Raise KeyError
  /\ exists s',
       Stats_increment (Stats_init [(strength, 12); (wisdom, 9)]) wisdom 2
       = Ok s'
       /\ Stats_getitem s' wisdom = Ok 11
       /\ Stats_getitem s' strength = Ok 12.
Proof.
  split.
  - apply (proj1 (Stats_increment_lookup
                    (Stats_init [(strength, 12); (wisdom, 9)]) condition 1)).
    reflexivity.
  - destruct (proj2 (Stats_increment_lookup
                       (Stats_init [(strength, 12); (wisdom, 9)]) wisdom 2)
                9 eq_refl)
      as (s' & Hs' & Hget & Hother & _).
    exists s'. split; [exact Hs' | split; [exact Hget |]].
    rewrite Hother by discriminate. reflexivity.
Defined.

(** ** Equipment *)

(** X4: an equipment whose slots are distinct keeps distinct slots through
    [put]: a slot that holds an item keeps its place in the iteration order,
    a slot that holds none is appended after the others. *)
Theorem Equipment_put_order (e : Equipment) (slot : EquipmentType)
  (name : string) :
  NoDup (map fst (equipment_items e)) ->
  NoDup (map fst (equipment_items (Equipment_put e slot name)))
  /\ (Equipment_getitem e slot <> None ->
      map fst (Equipment_iter (Equipment_put e slot name))
      = map fst (Equipment_iter e))
  /\ (Equipment_getitem e slot = None ->
      Equipment_iter (Equipment_put e slot name)
      = (Equipment_iter e ++ [(slot, name)])%list).
Proof.
  intros Hnd. unfold Equipment_getitem, Equipment_iter, Equipment_put. simpl.
  destruct (dict_get EquipmentType_eq_dec (equipment_items e) slot)
    as [old |] eqn:E.
  - assert (Hk : map fst (dict_set EquipmentType_eq_dec (equipment_items e)
                            slot name)
                 = map fst (equipment_items e))
      by (apply dict_set_present; rewrite E; discriminate).
    rewrite Hk. split; [exact Hnd | split; [reflexivity | discriminate]].
  - destruct (dict_set_absent EquipmentType_eq_dec _ slot name E)
      as [Hset Hnot].
    rewrite Hset. split; [| split; [intros H; now contradiction H | reflexivity]].
    rewrite map_app. simpl.
    apply NoDup_app; [exact Hnd | repeat constructor; auto |].
    intros x Hx [<- | []]. now apply Hnot.
Qed.

Lemma Equipment_put_order_witness :
  NoDup (map fst (equipment_items (Equipment_put Equipment_init shield
                                     "Buckler")))
  /\ Equipment_iter (Equipment_put Equipment_init shield "Buckler")
     = [(weapon, "Sharp Rock"); (hauberk, "-3 Burlap"); (shield, "Buckler")].
Proof.
  assert (H : NoDup (map fst (equipment_items Equipment_init))).
  { simpl. repeat constructor; simpl; intuition discriminate. }
  split.
  - apply (proj1 (Equipment_put_order Equipment_init shield "Buckler" H)).
  - apply (proj2 (proj2 (Equipment_put_order Equipment_init shield "Buckler"
                           H))).
    reflexivity.
Defined.

(** ** SpellBook.add *)

Lemma learn_existing_spec (l : list Spell) (name : string) (lvl : Z) :
  match learn_existing l name lvl with
  | Some (l', changed) =>
      exists before spell after,
        l = (before ++ spell :: after)%list
        /\ spell_name spell = name
        /\ ~ In name (map spell_name before)
        /\ changed = {| spell_name := spell_name spell;
                        spell_level := spell_level spell + lvl |}
        /\ l' = (before ++ changed :: after)%list
  | None => ~ In name (map spell_name l)
  end.
Proof.
  induction l as [| spell rest IH]; simpl.
  - tauto.
  - destruct (String.eqb (spell_name spell) name) eqn:E.
    + apply String.eqb_eq in E.
      exists [], spell, rest. repeat split; auto.
    + apply String.eqb_neq in E.
      destruct (learn_existing rest name lvl) as [[rest' changed] |].
      * destruct IH as (before & sp & after & -> & Hn & Hnot & Hc & ->).
        exists (spell :: before), sp, after. repeat split; auto.
        simpl. intros [H | H]; [now apply E | now apply Hnot].
      * intros [H | H]; [now apply E | now apply IH].
Qed.

(** X5: a spell book in which no spell is listed twice stays so through
    [add]: learning a spell it lists raises the level of that spell by the
    levels learnt and adds no entry; learning another one appends it. *)
Theorem SpellBook_add_unique (b : SpellBook) (name : string) (lvl : Z) :
  NoDup (map spell_name (spells b)) ->
  NoDup (map spell_name (spells (SpellBook_add b name lvl)))
  /\ (In name (map spell_name (spells b)) ->
      exists before spell after,
        spells b = (before ++ spell :: after)%list
        /\ spell_name spell = name
        /\ spells (SpellBook_add b name lvl)
           = (before
              ++ {| spell_name := name;
                    spell_level := spell_level spell + lvl |}
              :: after)%list)
  /\ (~ In name (map spell_name (spells b)) ->
      spells (SpellBook_add b name lvl)
      = (spells b ++ [ {| spell_name := name; spell_level := lvl |} ])%list).
Proof.
  intros Hnd. pose proof (learn_existing_spec (spells b) name lvl) as H.
  unfold SpellBook_add.
  destruct (learn_existing (spells b) name lvl) as [[l' c] |]; simpl.
  - destruct H as (before & spell & after & Hl & Hn & Hnot & Hc & Hl').
    split; [| split].
    + rewrite Hl in Hnd. rewrite Hl', Hc. rewrite map_app in *. exact Hnd.
    + intros _. exists before, spell, after. rewrite Hl', Hc, Hn. auto.
    + intros Habs. exfalso. apply Habs. rewrite Hl, map_app. simpl.
      apply in_or_app. right. left. exact Hn.
  - split; [| split; [intros Hin; contradiction | reflexivity]].
    rewrite map_app. simpl.
    apply NoDup_app; [exact Hnd | repeat constructor; auto |].
    intros x Hx [<- | []]. now apply H.
Qed.

Lemma SpellBook_add_unique_witness :
  NoDup (map spell_name
           (spells (SpellBook_add
                      (SpellBook_add SpellBook_init "Slime Finger" 1)
                      "Slime Finger" 1)))
  /\ spells (SpellBook_add (SpellBook_add SpellBook_init "Slime Finger" 1)
               "Tonguehairs" 1)
     = [ {| spell_name := "Slime Finger"; spell_level := 1 |};
         {| spell_name := "Tonguehairs"; spell_level := 1 |} ].
Proof.
  assert (H : NoDup (map spell_name
                       (spells (SpellBook_add SpellBook_init
                                  "Slime Finger" 1)))).
  { simpl. repeat constructor; simpl; tauto. }
  split.
  - apply (proj1 (SpellBook_add_unique _ "Slime Finger" 1 H)).
  - apply (proj2 (proj2 (SpellBook_add_unique _ "Tonguehairs" 1 H))).
    simpl. intros [E | []]. discriminate E.
Defined.
(** ** QuestBook.add_quest *)

(** X6: [add_quest] drops quests only from the old end of the log: the
    latest (at most 100) quests are kept in their order, followed by the new
    one; what is dropped is what the log held beyond 100. *)
Theorem add_quest_keeps_latest (q : QuestBook) (name : string) :
  exists dropped kept,
    quests q = (dropped ++ kept)%list
    /\ quests (add_quest q name) = (kept ++ [name])%list
    /\ List.length kept = Nat.min (List.length (quests q)) 100
    /\ List.length dropped = (List.length (quests q) - 100)%nat.
Proof.
  exists (firstn (List.length (quests q) - 100) (quests q)),
         (py_last_n 100 (quests q)).
  split; [| split; [| split]].
  - unfold py_last_n. now rewrite firstn_skipn.
  - reflexivity.
  - apply py_last_n_length.
  - rewrite length_firstn. lia.
Qed.

(** ** Bar.increment *)



(** ** Inventory.set_capacity *)

(** X8: [set_capacity] changes the maximum of the encumbrance bar and nothing
    else: the position is not recomputed.  Raising the capacity of an
    inventory whose bar is in step with its items therefore leaves the bar
    not done, however much the inventory holds. *)
Theorem set_capacity_keeps_position (inv : Inventory) (capacity : Z) :
  items (set_capacity inv capacity) = items inv
  /\ gold (set_capacity inv capacity) = gold inv
  /\ max_ (encum_bar (set_capacity inv capacity)) = capacity
  /\ position (encum_bar (set_capacity inv capacity))
     = position (encum_bar inv)
  /\ (position (encum_bar inv)
      = inject_Z (Z.min (total_quantity (items inv)) (max_ (encum_bar inv))) ->
      max_ (encum_bar inv) < capacity ->
      Bar_done (encum_bar (set_capacity inv capacity)) = false).
Proof.
  repeat split.
  intros Hsync Hraise. unfold Bar_done. simpl. rewrite Hsync.
  rewrite Qle_bool_inject_Z. apply Z.leb_gt. lia.
Qed.

Lemma set_capacity_keeps_position_witness :
  total_quantity
    (items (set_capacity (Inventory_add (Inventory_init 10) "nail" 15) 11))
  = 15
  /\ Bar_done
       (encum_bar
          (set_capacity (Inventory_add (Inventory_init 10) "nail" 15) 11))
     = false.
Proof.
  split; [reflexivity |].
  apply (proj2 (proj2 (proj2 (proj2
           (set_capacity_keeps_position
              (Inventory_add (Inventory_init 10) "nail" 15) 11))))).
  - reflexivity.
  - reflexivity.
Defined.

(** ** Nearest of the candidates drawn *)

Lemma choices_In {A} (n : nat) (l : list A) (g : random.State) (a : A) :
  In a (choices n l g) -> In a l.
Proof.
  revert g. induction n as [| n IH]; intros g; simpl; [tauto |].
  destruct (random.choice l g) as [[b g'] | |] eqn:E; simpl; try tauto.
  intros [<- | H]; [| now apply (IH g')].
  destruct l as [| x l']; [discriminate E |].
  assert (Hne : x :: l' <> []) by discriminate.
  destruct (draws_choice (x :: l') Hne g) as (b' & g1 & E1 & Hb).
  rewrite E in E1. now injection E1 as -> _.
Qed.

Lemma closer_equipment_nearest (n : nat) (source : list EquipmentPreset)
  (goal : Z) (result : EquipmentPreset) (g : random.State) :
  source <> [] ->
  exists r g',
    closer_equipment n source goal result g = Ok (r, g')
    /\ (r = result \/ In r (choices n source g))
    /\ Z.abs (goal - preset_quality r) <= Z.abs (goal - preset_quality result)
    /\ Forall (fun c => Z.abs (goal - preset_quality r)
                        <= Z.abs (goal - preset_quality c))
              (choices n source g).
Proof.
  intros Hs. revert result g.
  induction n as [| n IH]; intros result g.
  - exists result, g. simpl. repeat split; auto. lia.
  - destruct (draws_choice source Hs g) as (alt & g1 & E & _).
    cbn [closer_equipment choices]. unfold bind at 1. rewrite E.
    set (result' := if Z.abs (goal - preset_quality alt)
                       <? Z.abs (goal - preset_quality result)
                    then alt else result).
    destruct (IH result' g1) as (r & g2 & Er & Hr & Hle & Hall).
    assert (H' : Z.abs (goal - preset_quality result')
                 <= Z.abs (goal - preset_quality result)
                 /\ Z.abs (goal - preset_quality result')
                    <= Z.abs (goal - preset_quality alt)
                 /\ (result' = result \/ result' = alt)).
    { unfold result'.
      destruct (Z.ltb_spec (Z.abs (goal - preset_quality alt))
                  (Z.abs (goal - preset_quality result)));
        repeat split; auto; lia. }
    destruct H' as (H1 & H2 & H3).
    exists r, g2. split; [exact Er |]. split; [| split].
    + destruct Hr as [-> | Hr]; [| right; now right].
      destruct H3 as [-> | ->]; [now left | right; now left].
    + lia.
    + constructor; [lia | exact Hall].
Qed.






(** ** win_stat: the weighted choice *)

(** X11: the loop of [win_stat] that favours the best stat picks, for a draw
    [t] below the sum of the squares, the stat whose square covers [t] when
    the squares are laid end to end in iteration order. *)
Theorem weighted_stat_interval (l : list (StatType * Z)) (t : Z)
  (chosen_stat : option StatType) :
  0 <= t < sum_squares l ->
  exists before c v after,
    l = (before ++ (c, v) :: after)%list
    /\ weighted_stat l t chosen_stat = Some c
    /\ sum_squares before <= t < sum_squares before + v ^ 2.
Proof.
  revert t chosen_stat.
  induction l as [| [s v] rest IH]; intros t chosen_stat Ht.
  - unfold sum_squares in Ht. simpl in Ht. lia.
  - assert (Hsum : sum_squares ((s, v) :: rest) = v ^ 2 + sum_squares rest)
      by reflexivity.
    cbn [weighted_stat].
    destruct (Z.ltb_spec (t - v ^ 2) 0) as [Hlt | Hge].
    + exists [], s, v, rest. repeat split; try reflexivity.
      * unfold sum_squares; simpl. lia.
      * unfold sum_squares; simpl. lia.
    + destruct (IH (t - v ^ 2) (Some s)) as (before & c & v' & after & -> & Hw & Hr);
        [lia |].
      exists ((s, v) :: before), c, v', after.
      split; [reflexivity |]. split; [exact Hw |].
      assert (Hb : sum_squares ((s, v) :: before) = v ^ 2 + sum_squares before)
        by reflexivity.
      rewrite Hb. lia.
Qed.

Lemma weighted_stat_interval_witness :
  exists before c v after,
    [(strength, 3); (wisdom, 4); (hp_max, 2)]
    = (before ++ (c, v) :: after)%list
    /\ weighted_stat [(strength, 3); (wisdom, 4); (hp_max, 2)] 9 None = Some c
    /\ sum_squares before <= 9 < sum_squares before + v ^ 2.
Proof.
  apply (weighted_stat_interval [(strength, 3); (wisdom, 4); (hp_max, 2)] 9
           None).
  split; [discriminate | reflexivity].
Defined.

(** ** win_spell *)

Lemma py_index_nth {A} (l : list A) (i : Z) (x : A) :
  0 <= i -> py_index l i = Ok x -> nth_error l (Z.to_nat i) = Some x.
Proof.
  intros Hi. unfold py_index.
  assert (E : (i <? 0) = false) by (apply Z.ltb_ge; lia).
  cbv zeta. rewrite E. cbv iota. rewrite E, orb_false_l.
  destruct (Z.of_nat (List.length l) <=? i); [intros H; discriminate H |].
  destruct (nth_error l (Z.to_nat i)); intros H; [congruence | discriminate H].
Qed.

(** X12: [win_spell] teaches one level of one spell of [SPELLS], whose rank
    in the list is below both [wisdom + level] and the length of the list;
    nothing but the spell book changes.  Without a wisdom stat it raises
    [KeyError]. *)
Theorem win_spell_rank (C : Content) (w0 : World) :
  (stat_of (stats (player w0)) wisdom = None ->
   win_spell C w0 = Raise KeyError)
  /\ (forall wis,
        SPELLS C <> [] ->
        stat_of (stats (player w0)) wisdom = Some wis ->
        1 <= wis + level (player w0) ->
        exists i sp w',
          win_spell C w0 = Ok (tt, w')
          /\ 0 <= i < Z.min (wis + level (player w0))
                            (Z.of_nat (List.length (SPELLS C)))
          /\ nth_error (SPELLS C) (Z.to_nat i) = Some sp
          /\ player w'
             = set_spell_book (player w0)
                 (SpellBook_add (spell_book (player w0)) sp 1)).
Proof.
  split.
  - intros Hw. unfold win_spell, stats_getitem, bind, get_player, lift_result,
      Stats_getitem.
    unfold stat_of in Hw. simpl. now rewrite Hw.
  - intros wis Hs Hw Hpos.
    assert (H : runs (player w0) (win_spell C)
                  (fun _ p =>
                     exists i sp,
                       0 <= i < Z.min (wis + level (player w0))
                                      (Z.of_nat (List.length (SPELLS C)))
                       /\ nth_error (SPELLS C) (Z.to_nat i) = Some sp
                       /\ p = set_spell_book (player w0)
                                (SpellBook_add (spell_book (player w0)) sp 1))).
    { unfold win_spell.
      run_as (apply runs_stats_getitem; exact Hw) as a p1 H1.
      destruct H1 as [-> ->].
      run_as (apply runs_get_player) as a p1 H1. destruct H1 as [-> ->].
      pose proof (length_pos _ Hs) as Hlen.
      run_as (apply runs_rand, draws_below_low; lia) as i p1 H1.
      destruct H1 as [Hi Hp]; subst p1.
      destruct (py_index_in_range (SPELLS C) i) as (_ & sp & _ & _ & _ & E & _);
        [lia |].
      run_as (apply runs_lift_result; exact E) as a p1 H1.
      destruct H1 as [-> ->].
      eapply runs_conseq; [apply runs_modify_player |].
      intros _ p ->. exists i, sp. split; [exact Hi |]. split; [| reflexivity].
      apply py_index_nth; [lia | exact E]. }
    destruct (H w0 eq_refl) as ([] & w' & E & i & sp & Hi & Hn & Hp).
    exists i, sp, w'. auto.
Qed.

Lemma win_spell_rank_witness :
  win_spell Demo.content witless = Raise KeyError
  /\ exists i sp w',
       win_spell Demo.content Demo.world = Ok (tt, w')
       /\ 0 <= i < Z.min (14 + level (player Demo.world))
                         (Z.of_nat (List.length (SPELLS Demo.content)))
       /\ nth_error (SPELLS Demo.content) (Z.to_nat i) = Some sp
       /\ player w'
          = set_spell_book (player Demo.world)
              (SpellBook_add (spell_book (player Demo.world)) sp 1).
Proof.
  split.
  - apply (proj1 (win_spell_rank Demo.content witless)). reflexivity.
  - apply (proj2 (win_spell_rank Demo.content Demo.world) 14).
    + discriminate.
    + vm_compute. reflexivity.
    + vm_compute. discriminate.
Defined.

(** ** win_equipment *)

Lemma prefix_app (s rest : string) : String.prefix s (s ++ rest) = true.
Proof.
  induction s as [| a s IH]; simpl.
  - now destruct rest.
  - destruct (ascii_dec a a); [exact IH | congruence].
Qed.

Lemma contains_prefix (s hay : string) :
  String.prefix s hay = true -> contains s hay = true.
Proof. intros H. destruct hay; cbn [contains]; now rewrite H. Qed.

Lemma contains_app (s before rest : string) :
  contains s (before ++ s ++ rest) = true.
Proof.
  induction before as [| c before IH].
  - change (contains s (s ++ rest) = true).
    apply contains_prefix. apply prefix_app.
  - change ((String c before ++ s ++ rest)%string)
      with (String c (before ++ s ++ rest)).
    cbn [contains]. rewrite IH. now destruct (String.prefix s _).
Qed.

Lemma contains_skip (s before hay : string) :
  contains s hay = true -> contains s (before ++ hay) = true.
Proof.
  intros H. induction before as [| c before IH]; [exact H |].
  change ((String c before ++ hay)%string) with (String c (before ++ hay)).
  cbn [contains]. rewrite IH. now destruct (String.prefix s _).
Qed.

Lemma add_modifiers_applied (n : nat) (pool : list Modifier) (name0 : string)
  (plus : Z) (g : random.State) :
  pool <> [] ->
  exists applied name plus' g',
    add_modifiers n pool name0 plus g = Ok ((name, plus'), g')
    /\ (List.length applied <= n)%nat
    /\ Forall (fun m => In m pool
                        /\ contains (modifier_name m) name0 = false) applied
    /\ NoDup (map modifier_name applied)
    /\ plus = sum_Z (map modifier_quality applied) + plus'
    /\ name = modified applied name0.
Proof.
  intros Hp. revert name0 plus g.
  induction n as [| n IH]; intros name0 plus g.
  - exists [], name0, plus, g. simpl. repeat split; auto; constructor.
  - cbn [add_modifiers].
    assert (Hstop : forall g',
               exists applied name plus' g'',
                 (ret (name0, plus) : random.Rand (string * Z)) g'
                 = Ok ((name, plus'), g'')
                 /\ (List.length applied <= S n)%nat
                 /\ Forall (fun m => In m pool
                                     /\ contains (modifier_name m) name0
                                        = false) applied
                 /\ NoDup (map modifier_name applied)
                 /\ plus = sum_Z (map modifier_quality applied) + plus'
                 /\ name = modified applied name0).
    { intros g'. exists [], name0, plus, g'. simpl.
      repeat split; auto; try constructor. lia. }
    destruct (plus =? 0); [apply Hstop |].
    destruct (draws_choice pool Hp g) as (m & g1 & E & Hm).
    unfold bind at 1. rewrite E.
    destruct (contains (modifier_name m) name0) eqn:Hc; [apply Hstop |].
    destruct (Z.abs plus <? Z.abs (modifier_quality m)); [apply Hstop |].
    destruct (IH (modifier_name m ++ " " ++ name0)%string
                (plus - modifier_quality m) g1)
      as (applied & name & plus' & g2 & Er & Hlen & Hall & Hnd & Hsum & Hname).
    exists (m :: applied), name, plus', g2.
    split; [exact Er |]. split; [simpl; lia |].
    split; [| split; [| split]].
    + constructor; [now split |].
      eapply Forall_impl; [| exact Hall].
      intros m' [Hin Hnot]. split; [exact Hin |].
      destruct (contains (modifier_name m') name0) eqn:E'; [| reflexivity].
      rewrite <- Hnot. symmetry.
      apply (contains_skip _ " ") in E'.
      now apply (contains_skip _ (modifier_name m)) in E'.
    + simpl. constructor; [| exact Hnd].
      intros Hin. apply in_map_iff in Hin. destruct Hin as (m' & Hn' & Hin').
      rewrite Forall_forall in Hall. destruct (Hall m' Hin') as [_ Hnot].
      rewrite Hn' in Hnot.
      pose proof (contains_app (modifier_name m) EmptyString
                    (" " ++ name0)) as Hyes.
      simpl in Hyes. simpl in Hnot. congruence.
    + simpl. lia.
    + exact Hname.
Qed.

Lemma draws_pick_equipment_In (source : list EquipmentPreset) (goal : Z) :
  source <> [] -> draws (pick_equipment source goal) (fun r => In r source).
Proof.
  intros Hs g.
  destruct (draws_choice source Hs g) as (first & g1 & E & Hf).
  destruct (closer_equipment_nearest 5 source goal first g1 Hs)
    as (r & g2 & Er & Hr & _).
  exists r, g2. unfold pick_equipment, bind. rewrite E.
  split; [exact Er |].
  destruct Hr as [-> | Hr]; [exact Hf | eapply choices_In; exact Hr].
Qed.

(** X13: [win_equipment] puts one item in one slot of [EquipmentType] and
    changes nothing else.  The item is a preset of the slot's table, with at
    most two modifiers of distinct names in front, taken from the table the
    sign of [level - quality] selects, and a number in front of those: the
    preset's quality, the modifiers' qualities and that number add up to the
    player's level. *)
Theorem win_equipment_names (C : Content) (w0 : World) :
  content_ok C ->
  exists slot preset applied plus w',
    win_equipment C w0 = Ok (tt, w')
    /\ In slot (EquipmentType_members C)
    /\ In preset (equipment_source C slot)
    /\ (List.length applied <= 2)%nat
    /\ Forall (fun m =>
                 In m (modifier_source C slot
                         (level (player w0) - preset_quality preset)))
              applied
    /\ NoDup (map modifier_name applied)
    /\ level (player w0)
       = preset_quality preset + sum_Z (map modifier_quality applied) + plus
    /\ player w'
       = set_equipment (player w0)
           (Equipment_put (equipment (player w0)) slot
              (numbered plus (modified applied (preset_name preset)))).
Proof.
  intros HC.
  assert (Hsrc : forall slot, equipment_source C slot <> []).
  { intros slot. unfold equipment_source.
    destruct (EquipmentType_eq_dec slot weapon); [apply (ok_weapons C HC) |].
    destruct (EquipmentType_eq_dec slot shield);
      [apply (ok_shields C HC) | apply (ok_armors C HC)]. }
  assert (Hpool : forall slot plus, modifier_source C slot plus <> []).
  { intros slot plus. unfold modifier_source.
    destruct (plus <? 0); destruct (EquipmentType_eq_dec slot weapon);
      first [ apply (ok_offense_bad C HC) | apply (ok_defense_bad C HC)
            | apply (ok_offense_attrib C HC)
            | apply (ok_defense_attrib C HC) ]. }
  destruct (draws_choice _ (ok_slots C HC) (gen w0)) as (slot & g1 & E1 & Hslot).
  destruct (draws_pick_equipment_In (equipment_source C slot)
              (level (player w0)) (Hsrc slot) g1)
    as (preset & g2 & E2 & Hpreset).
  destruct (add_modifiers_applied 2
              (modifier_source C slot
                 (level (player w0) - preset_quality preset))
              (preset_name preset)
              (level (player w0) - preset_quality preset) g2 (Hpool _ _))
    as (applied & name & plus & g3 & E3 & Hlen & Hall & Hnd & Hsum & Hname).
  exists slot, preset, applied, plus.
  eexists. split; [| split; [exact Hslot | split; [exact Hpreset |
    split; [exact Hlen | split; [| split; [exact Hnd | split; [lia |]]]]]]].
  - unfold win_equipment, bind, rand, get_player, modify_player, put_player.
    rewrite E1. cbv beta iota zeta. cbn [player gen elapsed].
    unfold equipment_source in E2. rewrite E2. cbv beta iota zeta.
    cbn [player gen elapsed].
    unfold modifier_source in E3.
    destruct (level (player w0) - preset_quality preset <? 0);
      rewrite E3; reflexivity.
  - eapply Forall_impl; [| exact Hall]. now intros m [Hin _].
  - simpl. rewrite <- Hname. unfold numbered.
    destruct (Z.ltb_spec plus 0) as [Hneg | Hnn].
    + replace (0 <? plus) with false by (symmetry; apply Z.ltb_ge; lia).
      reflexivity.
    + reflexivity.
Qed.

Lemma win_equipment_names_witness :
  exists slot preset applied plus w',
    win_equipment Demo.content Demo.world = Ok (tt, w')
    /\ In slot (EquipmentType_members Demo.content)
    /\ In preset (equipment_source Demo.content slot)
    /\ (List.length applied <= 2)%nat
    /\ Forall (fun m =>
                 In m (modifier_source Demo.content slot
                         (level (player Demo.world) - preset_quality preset)))
              applied
    /\ NoDup (map modifier_name applied)
    /\ level (player Demo.world)
       = preset_quality preset + sum_Z (map modifier_quality applied) + plus
    /\ player w'
       = set_equipment (player Demo.world)
           (Equipment_put (equipment (player Demo.world)) slot
              (numbered plus (modified applied (preset_name preset)))).
Proof. apply (win_equipment_names Demo.content Demo.world Demo_content_ok). Defined.

(** ** monster_task *)

Section Monster_task.

Variable C : Content.
Hypothesis HC : content_ok C.

Lemma raises_bind {A B} (r : random.Rand A) (k : A -> random.Rand B)
  (R : A -> Prop) (e : exn) :
  draws r R -> (forall a g, R a -> k a g = Raise e) ->
  forall g, bind r k g = Raise e.
Proof.
  intros Hr Hk g. destruct (Hr g) as (a & g1 & E & Ha).
  unfold bind. rewrite E. now apply Hk.
Qed.

Lemma draws_monster_task_target_from (level : Z)
  (quest_monster0 : option Monster) :
  draws (monster_task_target C level quest_monster0)
        (fun t => let m := snd (fst (fst t)) in
                  m = None \/ m = quest_monster0
                  \/ exists x, m = Some x /\ In x (MONSTERS C)).
Proof.
  unfold monster_task_target.
  draw_by ltac:(apply draws_odds; lia).
  destruct a.
  - draw_by ltac:(apply draws_choice, (ok_races C HC)).
    draw_by ltac:(apply draws_odds; lia).
    destruct a0.
    + draw_by ltac:(apply draws_choice, (ok_classes C HC)).
      apply draws_ret. now left.
    + draw_by ltac:(apply draws_choice_low, (ok_titles C HC)).
      draw_by ltac:(apply draws_generate_name; exact HC).
      apply draws_ret. now left.
  - assert (Hrandom :
      draws (m <- unnamed_monster C level 5 ;;
             ret (false, Some m, monster_name m, monster_level m))
            (fun t => let m := snd (fst (fst t)) in
                      m = None \/ m = quest_monster0
                      \/ exists x, m = Some x /\ In x (MONSTERS C))).
    { draw_by ltac:(apply draws_unnamed_monster; exact HC).
      apply draws_ret. simpl. right. right. now exists a. }
    destruct quest_monster0 as [m |].
    + draw_by ltac:(apply draws_odds; lia).
      destruct a; [apply draws_ret; simpl; now (right; left) | exact Hrandom].
    + eapply draws_bind with (R1 := fun _ => True);
        [now apply draws_ret | intros ? _; exact Hrandom].
Qed.

Lemma draws_monster_task_pack_pos (level lev : Z) :
  1 <= level ->
  draws (monster_task_pack level lev)
        (fun pack => 1 <= fst pack /\ 1 <= snd pack).
Proof.
  intros Hl. unfold monster_task_pack. destruct (10 <? level - lev).
  - draw_by ltac:(apply draws_below; lia).
    apply draws_ret. cbn [fst snd].
    set (m := Z.max lev 1) in *.
    assert (Hm : 1 <= m) by (unfold m; lia).
    assert (Hq : (level + a) / m <= level).
    { apply Z.lt_succ_r. apply Z.div_lt_upper_bound; nia. }
    destruct (Z.ltb_spec ((level + a) / m) 1).
    + split; [lia |]. rewrite Z.div_1_r. exact Hl.
    + split; [lia |]. apply Z.div_le_lower_bound; lia.
  - apply draws_ret. simpl. lia.
Qed.

(** X14: for a player of level 1 or more, [monster_task] returns a
    [KillTask] whose duration is not negative, and is at least 1 up to level
    6000; its monster is none (a passing character), the quest monster or a
    member of [MONSTERS].  For a player of level 0 it raises
    [ZeroDivisionError]. *)
Theorem monster_task_duration (player_level : Z)
  (quest_monster0 : option Monster) :
  (player_level = 0 ->
   forall g, monster_task C player_level quest_monster0 g
             = Raise ZeroDivisionError)
  /\ (1 <= player_level ->
      draws (monster_task C player_level quest_monster0)
            (fun t => exists b m,
                 t = KillTask b m
                 /\ 0 <= duration b
                 /\ (player_level <= 6000 -> 1 <= duration b)
                 /\ (m = None \/ m = quest_monster0
                     \/ exists x, m = Some x /\ In x (MONSTERS C)))).
Proof.
  split.
  - intros -> . unfold monster_task.
    eapply raises_bind; [apply draws_perturb_level |]. intros level g _.
    revert g.
    eapply raises_bind; [apply draws_monster_task_target_from |].
    intros [[[is_definite monster] result] lev] g _. revert g.
    eapply raises_bind; [apply draws_monster_task_pack |].
    intros [qty level'] g _. revert g.
    eapply raises_bind; [apply draws_monster_task_decorate |].
    intros result' g _. reflexivity.
  - intros Hl. unfold monster_task.
    draw_by ltac:(apply draws_perturb_level).
    draw_by ltac:(apply draws_monster_task_target_from).
    destruct a0 as [[[is_definite monster] result] lev]. cbn [fst snd] in H0.
    draw_by ltac:(apply draws_monster_task_pack_pos;
                  destruct (a <? 1) eqn:E; [lia | apply Z.ltb_ge in E; lia]).
    destruct a0 as [qty level']. cbn [fst snd] in H1.
    draw_by ltac:(apply draws_monster_task_decorate).
    replace (player_level =? 0) with false by (symmetry; apply Z.eqb_neq; lia).
    apply draws_ret. eexists _, _. split; [reflexivity |]. cbn [duration].
    split; [| split; [| exact H0]].
    + apply Z.div_pos; nia.
    + intros Hmax. apply Z.div_le_lower_bound; nia.
Qed.

End Monster_task.

Lemma monster_task_duration_witness :
  (forall g, monster_task Demo.content 0 None g = Raise ZeroDivisionError)
  /\ draws (monster_task Demo.content 7 None)
           (fun t => exists b m,
                t = KillTask b m
                /\ 0 <= duration b
                /\ (7 <= 6000 -> 1 <= duration b)
                /\ (m = None \/ m = None
                    \/ exists x, m = Some x /\ In x (MONSTERS Demo.content))).
Proof.
  split.
  - apply (proj1 (monster_task_duration Demo.content Demo_content_ok 0 None)).
    reflexivity.
  - apply (proj2 (monster_task_duration Demo.content Demo_content_ok 7 None)).
    lia.
Defined.

(** ** StatsBuilder *)

Lemma draws_roll_prime_range (l : list StatType) (acc : list (StatType * Z)) :
  draws (roll_prime l acc)
        (fun d =>
           (forall k, dict_get StatType_eq_dec d k <> None <->
                      In k l \/ dict_get StatType_eq_dec acc k <> None)
           /\ (forall k v, dict_get StatType_eq_dec d k = Some v ->
                           3 <= v <= 18
                           \/ dict_get StatType_eq_dec acc k = Some v)).
Proof.
  revert acc. induction l as [| stat rest IH]; intros acc; cbn [roll_prime].
  - apply draws_ret. split; [| now right].
    intros k. simpl. tauto.
  - draw_by ltac:(apply draws_below; lia). rename H into Ha.
    draw_by ltac:(apply draws_below; lia). rename H into Hb.
    draw_by ltac:(apply draws_below; lia). rename H into Hc.
    eapply draws_conseq; [apply IH |].
    intros d [Hkeys Hvals]. split.
    + intros k. rewrite Hkeys. simpl.
      destruct (StatType_eq_dec k stat) as [-> | Hne].
      * rewrite dict_get_set_same. split; [auto | intros _; right; discriminate].
      * rewrite dict_get_set_other by exact Hne.
        split.
        -- intros [H | H]; [left; now right | now right].
        -- intros [[H | H] | H];
             [now contradiction Hne | now left | now right].
    + intros k v Hv. destruct (Hvals k v Hv) as [H | H]; [now left |].
      destruct (StatType_eq_dec k stat) as [-> | Hne].
      * rewrite dict_get_set_same in H.
        assert (Ev : v = 3 + a + a0 + a1) by congruence. left. lia.
      * rewrite dict_get_set_other in H by exact Hne. now right.
Qed.

Lemma draws_roll_ranges (C : Content) (history : list Stats) :
  In condition (PRIME_STATS C) -> In intelligence (PRIME_STATS C) ->
  draws (roll C history)
        (fun r =>
           snd r = (history ++ [fst r])%list
           /\ (forall k, In k (PRIME_STATS C) ->
                         k <> hp_max -> k <> mp_max ->
                         exists v, stat_of (fst r) k = Some v
                                   /\ 3 <= v <= 18)
           /\ (exists con h,
                  stat_of (fst r) condition = Some con
                  /\ stat_of (fst r) hp_max = Some h
                  /\ con / 6 <= h <= con / 6 + 7 /\ 0 <= h <= 10)
           /\ (exists int m,
                  stat_of (fst r) intelligence = Some int
                  /\ stat_of (fst r) mp_max = Some m
                  /\ int / 6 <= m <= int / 6 + 7 /\ 0 <= m <= 10)).
Proof.
  intros Hcon Hint. unfold roll.
  draw_by ltac:(apply draws_roll_prime_range).
  destruct H as [Hkeys Hvals]. rename a into vals.
  assert (Hget : forall k, In k (PRIME_STATS C) ->
                   exists v, dict_get StatType_eq_dec vals k = Some v
                             /\ 3 <= v <= 18).
  { intros k Hk.
    destruct (dict_get StatType_eq_dec vals k) as [v |] eqn:E.
    - exists v. split; [reflexivity |].
      destruct (Hvals k v E) as [H | H]; [exact H | discriminate H].
    - exfalso. apply (proj2 (Hkeys k)); [now left | exact E]. }
  destruct (Hget condition Hcon) as (con & Econ & Hconr).
  destruct (Hget intelligence Hint) as (int & Eint & Hintr).
  draw_by ltac:(apply draws_below; lia). rename a into r1, H into Hr1.
  draw_by ltac:(apply draws_dict_getitem; exact Econ). subst a.
  draw_by ltac:(apply draws_below; lia). rename a into r2, H into Hr2.
  draw_by ltac:(apply draws_dict_getitem;
                rewrite dict_get_set_other by discriminate; exact Eint).
  subst a. apply draws_ret. cbn [fst snd].
  assert (Hc6 : 0 <= con / 6 <= 3).
  { split; [apply Z.div_pos; lia | apply Z.div_le_upper_bound; lia]. }
  assert (Hi6 : 0 <= int / 6 <= 3).
  { split; [apply Z.div_pos; lia | apply Z.div_le_upper_bound; lia]. }
  split; [reflexivity |]. unfold stat_of, Stats_init; cbn [values].
  split; [| split].
  + intros k Hk Hh Hm. destruct (Hget k Hk) as (v & Ev & Hv).
    exists v. rewrite !dict_get_set_other by assumption. now split.
  + exists con, (r1 + con / 6).
    rewrite !dict_get_set_other by discriminate.
    rewrite dict_get_set_same. repeat split; try assumption; lia.
  + exists int, (r2 + int / 6).
    rewrite dict_get_set_same.
    rewrite !dict_get_set_other by discriminate.
    repeat split; try assumption; lia.
Qed.

(** X15: [roll] gives every prime stat a value from 3 to 18, sets [hp_max]
    and [mp_max] to a draw below 8 plus a sixth of condition and of
    intelligence (so at most 10), and appends the statistics to the history.
    When condition is not a prime stat, it raises [KeyError]. *)
Theorem roll_ranges (C : Content) (history : list Stats) :
  (~ In condition (PRIME_STATS C) ->
   forall g, roll C history g = Raise KeyError)
  /\ (In condition (PRIME_STATS C) -> In intelligence (PRIME_STATS C) ->
      draws (roll C history)
            (fun r =>
               snd r = (history ++ [fst r])%list
               /\ (forall k, In k (PRIME_STATS C) ->
                             k <> hp_max -> k <> mp_max ->
                             exists v, stat_of (fst r) k = Some v
                                       /\ 3 <= v <= 18)
               /\ (exists con h,
                      stat_of (fst r) condition = Some con
                      /\ stat_of (fst r) hp_max = Some h
                      /\ con / 6 <= h <= con / 6 + 7 /\ 0 <= h <= 10)
               /\ (exists int m,
                      stat_of (fst r) intelligence = Some int
                      /\ stat_of (fst r) mp_max = Some m
                      /\ int / 6 <= m <= int / 6 + 7 /\ 0 <= m <= 10))).
Proof.
  split.
  - intros Hnot. unfold roll.
    eapply raises_bind; [apply draws_roll_prime_range |].
    intros vals g [Hkeys _]. revert g.
    eapply raises_bind; [apply draws_below; lia |].
    intros r g _. unfold bind, dict_getitem.
    destruct (dict_get StatType_eq_dec vals condition) as [con |] eqn:E;
      [| reflexivity].
    exfalso. assert (H : dict_get StatType_eq_dec vals condition <> None)
      by (rewrite E; discriminate).
    apply Hkeys in H. destruct H as [H | H]; [now apply Hnot | now apply H].
  - apply draws_roll_ranges.
Qed.

Lemma roll_ranges_witness :
  roll bare [] (random.seed Demo.sequence) = Raise KeyError
  /\ draws (roll Demo.content [])
        (fun r =>
           snd r = ([] ++ [fst r])%list
           /\ (forall k, In k (PRIME_STATS Demo.content) ->
                         k <> hp_max -> k <> mp_max ->
                         exists v, stat_of (fst r) k = Some v /\ 3 <= v <= 18)
           /\ (exists con h,
                  stat_of (fst r) condition = Some con
                  /\ stat_of (fst r) hp_max = Some h
                  /\ con / 6 <= h <= con / 6 + 7 /\ 0 <= h <= 10)
           /\ (exists int m,
                  stat_of (fst r) intelligence = Some int
                  /\ stat_of (fst r) mp_max = Some m
                  /\ int / 6 <= m <= int / 6 + 7 /\ 0 <= m <= 10)).
Proof.
  split.
  - apply (proj1 (roll_ranges bare [])).
    simpl. intros [H | []]. discriminate H.
  - apply (proj2 (roll_ranges Demo.content [])); simpl; tauto.
Defined.

(** X16: [unroll] drops the latest statistics of the history and returns the
    ones before them; on a history of fewer than two rolls it raises
    [IndexError] (after a single roll there is nothing to go back to). *)
Theorem unroll_previous (history : list Stats) :
  ((List.length history < 2)%nat -> unroll history = Raise IndexError)
  /\ (forall earlier previous latest,
        history = (earlier ++ [previous; latest])%list ->
        unroll history = Ok (previous, (earlier ++ [previous])%list)).
Proof.
  split.
  - intros Hlen. destruct history as [| a [| b rest]];
      [reflexivity | reflexivity | simpl in Hlen; lia].
  - intros earlier previous latest ->. unfold unroll.
    assert (Hpop : py_list_pop (earlier ++ [previous; latest]) (-1)
                   = Ok (earlier ++ [previous])%list).
    { destruct (py_index_in_range (earlier ++ [previous; latest]) (-1))
        as (before & x & after & Hl & Hlen & _ & Hpop).
      { rewrite length_app. cbn [List.length]. lia. }
      rewrite Hpop. f_equal.
      unfold normal_index in Hlen. cbn [Z.ltb Z.compare] in Hlen.
      assert (Hafter : after = []).
      { apply (f_equal (@List.length Stats)) in Hl.
        rewrite !length_app in Hl. cbn [List.length] in Hl.
        rewrite length_app in Hlen. cbn [List.length] in Hlen.
        destruct after; [reflexivity | cbn [List.length] in Hl; lia]. }
      subst after. rewrite app_nil_r.
      change (earlier ++ [previous; latest])%list
        with (earlier ++ [previous] ++ [latest])%list in Hl.
      rewrite app_assoc in Hl. now apply app_inj_tail in Hl as [<- _]. }
    rewrite Hpop.
    destruct (py_index_in_range (earlier ++ [previous]) (-1))
      as (before & x & after & Hl & Hlen & Hget & _).
    { rewrite length_app. cbn [List.length]. lia. }
    rewrite Hget.
    unfold normal_index in Hlen. cbn [Z.ltb Z.compare] in Hlen.
    assert (Hafter : after = []).
    { apply (f_equal (@List.length Stats)) in Hl.
      rewrite !length_app in Hl. cbn [List.length] in Hl.
      rewrite length_app in Hlen. cbn [List.length] in Hlen.
      destruct after; [reflexivity | cbn [List.length] in Hl; lia]. }
    subst after. apply app_inj_tail in Hl as [_ <-]. reflexivity.
Qed.

Lemma unroll_previous_witness :
  unroll [Stats_init [(strength, 9)]] = Raise IndexError
  /\ unroll [Stats_init [(strength, 9)]; Stats_init [(strength, 12)]]
     = Ok (Stats_init [(strength, 9)], [Stats_init [(strength, 9)]]).
Proof.
  split.
  - apply (proj1 (unroll_previous [Stats_init [(strength, 9)]])).
    simpl. lia.
  - apply (proj2 (unroll_previous
                    [Stats_init [(strength, 9)]; Stats_init [(strength, 12)]])
             [] (Stats_init [(strength, 9)]) (Stats_init [(strength, 12)])).
    reflexivity.
Defined.

(** ** create_player *)

(** X17: [create_player] raises [KeyError] on statistics without strength.
    On statistics that [roll] produced it returns a level 1 player with an
    empty inventory of capacity 10 plus strength (13 to 28), no elapsed
    time, the loading task active and five tasks pending, the last of them
    the one that loads the first act. *)
Theorem create_player_rolled (C : Content) (now : Z) (sequence : nat -> Z)
  (name0 : string) (race0 : Race) (class0 : Class) (st : Stats) :
  (stat_of st strength = None ->
   create_player C now sequence name0 race0 class0 st = Raise KeyError)
  /\ (In strength (PRIME_STATS C) -> In condition (PRIME_STATS C) ->
      In intelligence (PRIME_STATS C) -> rolled C st ->
      exists w str,
        create_player C now sequence name0 race0 class0 st = Ok w
        /\ stat_of st strength = Some str
        /\ level (player w) = 1
        /\ items (inventory (player w)) = []
        /\ max_ (encum_bar (inventory (player w))) = 10 + str
        /\ 13 <= max_ (encum_bar (inventory (player w))) <= 28
        /\ elapsed w = 0%Q
        /\ task (player w) = Some (mk_task RegularTask "Loading" 2000)
        /\ Bar_done (task_bar (player w)) = false
        /\ List.length (queue (player w)) = 5%nat
        /\ exists b, last (queue (player w))
                          (mk_task RegularTask "Loading" 2000)
                      = PlotTask b
                      /\ duration b = 2000).
Proof.
  split.
  - intros Hs. unfold create_player, Player_init, Stats_getitem.
    unfold stat_of in Hs. now rewrite Hs.
  - intros Hstr Hcon Hint (history & g & history' & g' & E).
    destruct (draws_roll_ranges C history Hcon Hint g)
      as (r & g1 & E1 & _ & Hprime & _).
    rewrite E in E1. injection E1 as <- _. cbn [fst] in Hprime.
    destruct (Hprime strength Hstr) as (str & Es & Hr); try discriminate.
    unfold create_player, Player_init, Stats_getitem.
    pose proof Es as Es'. unfold stat_of in Es'. rewrite Es'.
    eexists _, str. split; [reflexivity |]. split; [exact Es |]. cbn -[Z.add].
    split; [reflexivity |]. split; [reflexivity |]. split; [reflexivity |].
    split; [lia |]. split; [reflexivity |]. split; [reflexivity |].
    split; [reflexivity |]. split; [reflexivity |].
    eexists. split; reflexivity.
Qed.

Lemma create_player_rolled_witness :
  create_player Demo.content 0 Demo.sequence "Hero"
    {| race_name := "Half Orc" |} {| class_name := "Ur-Paladin" |}
    (Stats_init [(wisdom, 9)])
  = Raise KeyError
  /\ exists w str,
       create_player Demo.content 0 Demo.sequence "Hero"
         {| race_name := "Half Orc" |} {| class_name := "Ur-Paladin" |}
         (stats (player Demo.world))
       = Ok w
       /\ stat_of (stats (player Demo.world)) strength = Some str
       /\ level (player w) = 1
       /\ items (inventory (player w)) = []
       /\ max_ (encum_bar (inventory (player w))) = 10 + str
       /\ 13 <= max_ (encum_bar (inventory (player w))) <= 28
       /\ elapsed w = 0%Q
       /\ task (player w) = Some (mk_task RegularTask "Loading" 2000)
       /\ Bar_done (task_bar (player w)) = false
       /\ List.length (queue (player w)) = 5%nat
       /\ exists b, last (queue (player w))
                         (mk_task RegularTask "Loading" 2000)
                     = PlotTask b
                     /\ duration b = 2000.
Proof.
  split.
  - apply (proj1 (create_player_rolled Demo.content 0 Demo.sequence "Hero"
                    {| race_name := "Half Orc" |}
                    {| class_name := "Ur-Paladin" |}
                    (Stats_init [(wisdom, 9)]))).
    reflexivity.
  - apply (proj2 (create_player_rolled Demo.content 0 Demo.sequence "Hero"
                    {| race_name := "Half Orc" |}
                    {| class_name := "Ur-Paladin" |}
                    (stats (player Demo.world)))).
    + simpl. tauto.
    + simpl. tauto.
    + simpl. tauto.
    + exists [], (random.seed Demo.sequence). eexists _, _.
      vm_compute. reflexivity.
Defined.

(** ** complete_act *)

Section Acts.

Variable C : Content.
Hypothesis HC : content_ok C.

Lemma runs_complete_act_exact (p0 : Player) :
  runs p0 (complete_act C)
       (fun _ p =>
          quest_book p
          = QuestBook_emit
              (set_plot_bar
                 (set_act (quest_book p0) (act (quest_book p0) + 1))
                 (Bar_reset (plot_bar (quest_book p0))
                    (60 * 60 * (1 + 5 * (act (quest_book p0) + 1))) 0))
              "complete_act"
          /\ settled p0 p
          /\ spell_book p = spell_book p0
          /\ if 1 <? act (quest_book p0) + 1 then
               exists name slot item,
                 inventory p = Inventory_add (inventory p0) name 1
                 /\ equipment p = Equipment_put (equipment p0) slot item
             else inventory p = inventory p0 /\ equipment p = equipment p0).
Proof.
  unfold complete_act.
  run_as (apply runs_modify_quest_book) as u1 p1 H1.
  run_as (apply runs_modify_quest_book) as u2 p2 H2.
  run_as (apply runs_get_player) as q p3 H3. destruct H3 as [-> ->].
  assert (F2 : quest_book p2
               = set_plot_bar
                   (set_act (quest_book p0) (act (quest_book p0) + 1))
                   (Bar_reset (plot_bar (quest_book p0))
                      (60 * 60 * (1 + 5 * (act (quest_book p0) + 1))) 0)
               /\ settled p0 p2 /\ spell_book p2 = spell_book p0
               /\ inventory p2 = inventory p0
               /\ equipment p2 = equipment p0).
  { subst p2 p1. split; [reflexivity |].
    split; [| split; [reflexivity | split; reflexivity]].
    eapply settled_trans; apply settled_quest_book; reflexivity. }
  clear H1 H2. destruct F2 as (Q2 & S2 & Sp2 & I2 & E2).
  assert (Ea : act (quest_book p2) = act (quest_book p0) + 1)
    by (rewrite Q2; reflexivity).
  rewrite Ea.
  eapply runs_bind
    with (Q1 := fun _ p =>
                  quest_book p = quest_book p2
                  /\ settled p2 p /\ spell_book p = spell_book p2
                  /\ if 1 <? act (quest_book p0) + 1 then
                       exists name slot item,
                         inventory p = Inventory_add (inventory p2) name 1
                         /\ equipment p = Equipment_put (equipment p2) slot item
                     else inventory p = inventory p2
                          /\ equipment p = equipment p2).
  - destruct (1 <? act (quest_book p0) + 1).
    + run_as (apply (runs_win_item C HC)) as u4 p4 H4.
      destruct H4 as [name ->].
      eapply runs_conseq; [apply (runs_win_equipment C HC) |].
      intros _ p (slot & item & ->).
      split; [reflexivity |].
      split; [eapply settled_trans;
              [apply settled_inventory | apply settled_equipment] |].
      split; [reflexivity |]. exists name, slot, item. now split.
    + apply runs_ret. split; [reflexivity |].
      split; [apply settled_refl | auto].
  - intros _ p5 (Hq & S5 & Hs & Hbonus). cbv beta.
    eapply runs_conseq; [apply runs_modify_quest_book |].
    intros _ p ->. cbn [quest_book set_quest_book].
    split; [rewrite Hq, Q2; reflexivity |].
    split; [eapply settled_trans; [exact S2 |];
            eapply settled_trans; [exact S5 |];
            apply settled_quest_book; reflexivity |].
    split; [simpl; congruence |].
    rewrite I2, E2 in Hbonus. exact Hbonus.
Qed.

(** X18: [complete_act] adds one to the act and resets the plot bar to
    3600 * (1 + 5 * act) for the new act, at position zero.  Completing the
    prologue (act 0) brings nothing; completing a later act adds one unit of
    one item to the inventory and puts one item of equipment.  Quests, quest
    bar, level, statistics, spells, task and queue stay as they were. *)
Theorem complete_act_advances (w0 : World) :
  exists w',
    complete_act C w0 = Ok (tt, w')
    /\ act (quest_book (player w')) = act (quest_book (player w0)) + 1
    /\ max_ (plot_bar (quest_book (player w')))
       = 3600 * (1 + 5 * act (quest_book (player w')))
    /\ position (plot_bar (quest_book (player w'))) = 0%Q
    /\ quests (quest_book (player w')) = quests (quest_book (player w0))
    /\ quest_bar (quest_book (player w')) = quest_bar (quest_book (player w0))
    /\ settled (player w0) (player w')
    /\ spell_book (player w') = spell_book (player w0)
    /\ (act (quest_book (player w0)) < 1 ->
        inventory (player w') = inventory (player w0)
        /\ equipment (player w') = equipment (player w0))
    /\ (1 <= act (quest_book (player w0)) ->
        exists name slot item,
          inventory (player w')
          = Inventory_add (inventory (player w0)) name 1
          /\ equipment (player w')
             = Equipment_put (equipment (player w0)) slot item).
Proof.
  destruct (runs_complete_act_exact (player w0) w0 eq_refl)
    as ([] & w' & E & Hq & Hs & Hsp & Hbonus).
  exists w'. split; [exact E |]. rewrite Hq. cbn [act plot_bar quests quest_bar
    QuestBook_emit set_plot_bar set_act Bar_reset max_ position].
  split; [reflexivity |]. split; [lia |]. split; [reflexivity |].
  split; [reflexivity |]. split; [reflexivity |]. split; [exact Hs |].
  split; [exact Hsp |].
  destruct (Z.ltb_spec 1 (act (quest_book (player w0)) + 1)).
  - split; [lia | intros _; exact Hbonus].
  - split; [intros _; exact Hbonus | lia].
Qed.

End Acts.

Lemma complete_act_advances_witness :
  exists w',
    complete_act Demo.content Demo.world = Ok (tt, w')
    /\ act (quest_book (player w')) = 1
    /\ max_ (plot_bar (quest_book (player w'))) = 21600
    /\ inventory (player w') = inventory (player Demo.world).
Proof.
  destruct (complete_act_advances Demo.content Demo_content_ok Demo.world)
    as (w' & E & Ha & Hm & _ & _ & _ & _ & _ & Hnone & _).
  exists w'. split; [exact E |]. split; [exact Ha |].
  split; [rewrite Hm, Ha; reflexivity |].
  apply Hnone. vm_compute. reflexivity.
Defined.

(** ** complete_quest *)

Section Quests.

Variable C : Content.
Hypothesis HC : content_ok C.

Lemma runs_reward (p0 : Player) :
  stats_ok C (stats p0) -> 1 <= level p0 ->
  runs p0
       (reward <- rand (random.choice
                          [win_spell C; win_equipment C;
                           (win_stat C ;;; ret tt); win_item C]) ;;
        reward)
       (fun _ p => rewarded p0 p).
Proof.
  intros Hok Hl.
  run_as (apply runs_rand, draws_choice; discriminate) as reward p1 H1.
  destruct H1 as [Hin ->]. simpl in Hin.
  destruct Hin as [<- | [<- | [<- | [<- | []]]]].
  - destruct (stats_ok_named C (stats p0) wisdom HC Hok) as [w Hw].
    { simpl; tauto. }
    pose proof (stat_of_nonneg C _ _ _ Hok Hw).
    eapply runs_conseq; [apply (runs_win_spell C HC p0 w Hw); lia |].
    intros ? p Hp. cbv beta in Hp. now left.
  - eapply runs_conseq; [apply (runs_win_equipment C HC) |].
    intros ? p Hp. cbv beta in Hp. right. now left.
  - run_as (apply runs_win_stat;
            [ now apply stat_members_nonempty
            | apply (ok_keys C _ Hok) | apply (ok_positive C _ Hok) ])
      as b p2 H2.
    apply runs_ret. destruct H2 as (_ & c & v & Hc & ->).
    right. right. left. now exists c, v.
  - eapply runs_conseq; [apply (runs_win_item C HC) |].
    intros ? p Hp. cbv beta in Hp. right. right. now right.
Qed.

Lemma rewarded_quest_book (p p' : Player) (q : QuestBook) :
  rewarded p p' ->
  quest_book p' = quest_book p
  /\ rewarded (set_quest_book p q) (set_quest_book p' q).
Proof.
  intros [[sp ->] | [(slot & name & ->) | [(c & v & Hc & ->) | [name ->]]]].
  - split; [reflexivity |]. left. now exists sp.
  - split; [reflexivity |]. right. left. now exists slot, name.
  - split; [unfold won_stat; now destruct (StatType_eq_dec c strength) |].
    right. right. left. exists c, v. split; [exact Hc |].
    unfold won_stat. now destruct (StatType_eq_dec c strength).
  - split; [reflexivity |]. right. right. right. now exists name.
Qed.

Lemma runs_complete_quest_exact (p0 : Player) :
  stats_ok C (stats p0) -> 1 <= level p0 ->
  runs p0 (complete_quest C)
       (fun _ p =>
          (exists r caption,
              0 <= r < 1000
              /\ quest_bar (quest_book p)
                 = Bar_reset (quest_bar (quest_book p0)) (50 + r) 0
              /\ quests (quest_book p)
                 = (py_last_n 100 (quests (quest_book p0)) ++ [caption])%list)
          /\ act (quest_book p) = act (quest_book p0)
          /\ plot_bar (quest_book p) = plot_bar (quest_book p0)
          /\ (quest_monster (quest_book p) = None
              \/ exists m, quest_monster (quest_book p) = Some m
                           /\ In m (MONSTERS C))
          /\ if truthy (current_quest (quest_book p0))
             then rewarded p0 (set_quest_book p (quest_book p0))
             else set_quest_book p (quest_book p0) = p0).
Proof.
  intros Hok Hl. unfold complete_quest.
  run_as (apply runs_rand, draws_below_low; lia) as r p1 H1.
  destruct H1 as [Hr ->].
  run_as (apply runs_modify_quest_book) as u1 p1 H1.
  run_as (apply runs_get_player) as q p2 H2. destruct H2 as [-> ->].
  assert (Ecur : current_quest (quest_book p1) = current_quest (quest_book p0))
    by (subst p1; reflexivity).
  rewrite Ecur.
  eapply runs_bind
    with (Q1 := fun _ p =>
                  quest_book p = quest_book p1
                  /\ if truthy (current_quest (quest_book p0))
                     then rewarded p0 (set_quest_book p (quest_book p0))
                     else set_quest_book p (quest_book p0) = p0).
  { destruct (truthy (current_quest (quest_book p0))).
    - eapply runs_conseq.
      + apply runs_reward; subst p1; assumption.
      + intros ? p Hp. cbv beta in Hp. cbv beta.
        destruct (rewarded_quest_book _ _ (quest_book p0) Hp) as [Hq Hrew].
        split; [exact Hq |]. subst p1. destruct p0; exact Hrew.
    - apply runs_ret. split; [reflexivity |]. subst p1. now destruct p0. }
  intros u2 p2 [Hq2 Hrew]. cbv beta.
  run_as (apply runs_modify_quest_book) as u3 p3 H3.
  run_as (apply runs_rand, draws_below; lia) as choice p4 H4.
  destruct H4 as [Hchoice ->].
  run_as (apply runs_get_player) as q p4 H4. destruct H4 as [-> ->].
  eapply runs_bind
    with (Q1 := fun _ p =>
                  set_quest_book p (quest_book p0)
                  = set_quest_book p3 (quest_book p0)
                  /\ quests (quest_book p) = quests (quest_book p3)
                  /\ quest_bar (quest_book p) = quest_bar (quest_book p3)
                  /\ act (quest_book p) = act (quest_book p3)
                  /\ plot_bar (quest_book p) = plot_bar (quest_book p3)
                  /\ (quest_monster (quest_book p) = None
                      \/ exists m, quest_monster (quest_book p) = Some m
                                   /\ In m (MONSTERS C))).
  { assert (H3' : quest_monster (quest_book p3) = None)
      by (subst p3; reflexivity).
    destruct (choice =? 0) eqn:E0.
    { run_as (apply runs_rand, (draws_unnamed_monster C HC)) as m p5 H5.
      destruct H5 as [Hm ->].
      run_as (apply runs_modify_quest_book) as u6 p6 H6.
      apply runs_ret. subst p6. repeat split; try reflexivity.
      right. now exists m. }
    assert (Hplain : forall caption : string,
               runs p3 (ret caption)
                 (fun _ p =>
                    set_quest_book p (quest_book p0)
                    = set_quest_book p3 (quest_book p0)
                    /\ quests (quest_book p) = quests (quest_book p3)
                    /\ quest_bar (quest_book p) = quest_bar (quest_book p3)
                    /\ act (quest_book p) = act (quest_book p3)
                    /\ plot_bar (quest_book p) = plot_bar (quest_book p3)
                    /\ (quest_monster (quest_book p) = None
                        \/ exists m, quest_monster (quest_book p) = Some m
                                     /\ In m (MONSTERS C)))).
    { intros caption. apply runs_ret. repeat split; try reflexivity.
      now left. }
    destruct (choice =? 1) eqn:E1.
    { run_as (apply runs_rand, (draws_interesting_item C HC)) as i p5 H5.
      destruct H5 as [_ ->]. apply Hplain. }
    destruct (choice =? 2) eqn:E2.
    { run_as (apply runs_rand, (draws_boring_item C HC)) as i p5 H5.
      destruct H5 as [_ ->]. apply Hplain. }
    destruct (choice =? 3) eqn:E3.
    { run_as (apply runs_rand, (draws_boring_item C HC)) as i p5 H5.
      destruct H5 as [_ ->]. apply Hplain. }
    destruct (choice =? 4) eqn:E4.
    { run_as (apply runs_rand, (draws_unnamed_monster C HC)) as i p5 H5.
      destruct H5 as [_ ->]. apply Hplain. }
    apply Z.eqb_neq in E0, E1, E2, E3, E4. lia. }
  intros caption p5 (Hback & Hquests & Hbar & Hact & Hplot & Hmon). cbv beta.
  run_as (apply runs_modify_quest_book) as u6 p6 H6.
  eapply runs_conseq; [apply runs_modify_quest_book |].
  intros _ p ->. subst p6. cbn [quest_book set_quest_book].
  assert (Q3 : quests (quest_book p3) = quests (quest_book p0)
               /\ quest_bar (quest_book p3)
                  = Bar_reset (quest_bar (quest_book p0)) (50 + r) 0
               /\ act (quest_book p3) = act (quest_book p0)
               /\ plot_bar (quest_book p3) = plot_bar (quest_book p0)).
  { subst p3. cbn [quest_book set_quest_book]. rewrite Hq2. subst p1.
    repeat split. }
  destruct Q3 as (Q3a & Q3b & Q3c & Q3d).
  split; [| split; [| split; [| split]]].
  - exists r, caption. split; [exact Hr |].
    cbn [quest_bar quests QuestBook_emit add_quest].
    rewrite Hbar, Hquests, Q3a, Q3b. now split.
  - cbn [act QuestBook_emit add_quest]. congruence.
  - cbn [plot_bar QuestBook_emit add_quest]. congruence.
  - exact Hmon.
  - assert (Eb : set_quest_book
                   (set_quest_book
                      (set_quest_book p5 (add_quest (quest_book p5) caption))
                      (QuestBook_emit (add_quest (quest_book p5) caption)
                         "complete_quest"))
                   (quest_book p0)
                 = set_quest_book p2 (quest_book p0)).
    { change (set_quest_book p5 (quest_book p0)
              = set_quest_book p2 (quest_book p0)).
      rewrite Hback. subst p3. reflexivity. }
    rewrite Eb. exact Hrew.
Qed.

(** X19: [complete_quest], on a player of level 1 or more with well-formed
    statistics, resets the quest bar to a maximum from 50 to 1049 at position
    zero, appends one new quest to the latest 100 of the log, and leaves the
    quest monster unset or set to a member of [MONSTERS]; act and plot bar
    stay.  Outside the quest book the player changes by exactly one reward
    (a spell level, an item of equipment, a stat point or an item) when there
    was a current quest, and not at all when there was none. *)
Theorem complete_quest_renews (w0 : World) :
  stats_ok C (stats (player w0)) -> 1 <= level (player w0) ->
  exists w' caption,
    complete_quest C w0 = Ok (tt, w')
    /\ quests (quest_book (player w'))
       = (py_last_n 100 (quests (quest_book (player w0))) ++ [caption])%list
    /\ current_quest (quest_book (player w')) = Some caption
    /\ position (quest_bar (quest_book (player w'))) = 0%Q
    /\ 50 <= max_ (quest_bar (quest_book (player w'))) < 1050
    /\ act (quest_book (player w')) = act (quest_book (player w0))
    /\ plot_bar (quest_book (player w')) = plot_bar (quest_book (player w0))
    /\ (quest_monster (quest_book (player w')) = None
        \/ exists m, quest_monster (quest_book (player w')) = Some m
                     /\ In m (MONSTERS C))
    /\ if truthy (current_quest (quest_book (player w0)))
       then rewarded (player w0)
              (set_quest_book (player w') (quest_book (player w0)))
       else set_quest_book (player w') (quest_book (player w0)) = player w0.
Proof.
  intros Hok Hl.
  destruct (runs_complete_quest_exact (player w0) Hok Hl w0 eq_refl)
    as ([] & w' & E & (r & caption & Hr & Hbar & Hquests) & Hact & Hplot
        & Hmon & Hrew).
  exists w', caption. split; [exact E |]. split; [exact Hquests |].
  split.
  { unfold current_quest. rewrite Hquests.
    destruct (py_last_n 100 (quests (quest_book (player w0))) ++ [caption])%list
      as [| x rest] eqn:El.
    - now destruct (py_last_n 100 (quests (quest_book (player w0)))).
    - f_equal. rewrite <- (last_cons_default rest x x), <- El.
      apply last_last. }
  rewrite Hbar. cbn [position max_ Bar_reset].
  split; [reflexivity |]. split; [lia |].
  split; [exact Hact |]. split; [exact Hplot |]. split; [exact Hmon |].
  exact Hrew.
Qed.

End Quests.

Lemma complete_quest_renews_witness :
  exists w' caption,
    complete_quest Demo.content Demo.world = Ok (tt, w')
    /\ quests (quest_book (player w')) = [caption]
    /\ 50 <= max_ (quest_bar (quest_book (player w'))) < 1050
    /\ set_quest_book (player w') (quest_book (player Demo.world))
       = player Demo.world.
Proof.
  destruct (complete_quest_renews Demo.content Demo_content_ok Demo.world
              Demo_stats_ok ltac:(vm_compute; discriminate))
    as (w' & caption & E & Hq & _ & _ & Hmax & _ & _ & _ & Hrew).
  exists w', caption. split; [exact E |]. split; [exact Hq |].
  split; [exact Hmax |]. exact Hrew.
Defined.
(** ** Selling *)

Lemma runs_sale (C : Content) (w0 : World) (b : BaseTask)
  (item : InventoryItem) (rest : list InventoryItem) :
  task (player w0) = Some (SellTask b) ->
  items (inventory (player w0)) = item :: rest ->
  1 <= level (player w0) ->
  runs (player w0) (task_effects C)
       (fun broke p =>
          exists k inv1,
            1 <= k <= 10 * level (player w0)
            /\ (contains " of " (item_name item) = false -> k = 1)
            /\ items inv1 = rest
            /\ gold inv1 = gold (inventory (player w0))
            /\ market_outcome C
                 (set_inventory (player w0)
                    (add_gold inv1 (quantity item * level (player w0) * k)))
                 broke p).
Proof.
  intros Ht Hitems Hl.
  unfold task_effects.
  run_as (apply runs_get_player) as p p1 H. destruct H as [-> ->].
  rewrite Ht. cbv iota.
  destruct (Inventory_pop_in_range (inventory (player w0)) 0)
    as (before & item' & after & inv1 & Epop & Eitems & Elen & Erest & Egold).
  { rewrite Hitems. cbn [List.length]. lia. }
  assert (Hb : before = []).
  { unfold normal_index in Elen. cbn [Z.ltb Z.compare] in Elen.
    destruct before; [reflexivity | discriminate Elen]. }
  subst before. rewrite Hitems in Eitems. injection Eitems as <- <-.
  assert (Eget : Inventory_getitem (inventory (player w0)) 0 = Ok item).
  { unfold Inventory_getitem. rewrite Hitems. reflexivity. }
  eapply runs_bind with
    (Q1 := fun _ p =>
             exists k,
               1 <= k <= 10 * level (player w0)
               /\ (contains " of " (item_name item) = false -> k = 1)
               /\ p = set_inventory (player w0)
                        (add_gold inv1
                           (quantity item * level (player w0) * k))).
  - run_as (apply runs_lift_result; exact Eget) as it p1 H.
    destruct H as [-> ->].
    eapply runs_bind with
      (Q1 := fun amount p =>
               p = player w0
               /\ exists k,
                    1 <= k <= 10 * level (player w0)
                    /\ (contains " of " (item_name item) = false -> k = 1)
                    /\ amount = quantity item * level (player w0) * k).
    + destruct (contains " of " (item_name item)).
      * run_as (apply runs_rand, draws_below_low; lia) as a p1 H.
        destruct H as [Ha ->].
        run_as (apply runs_rand, draws_below_low; lia) as a2 p1 H.
        destruct H as [Ha2 ->]. apply runs_ret.
        split; [reflexivity |]. exists ((1 + a) * (1 + a2)).
        split; [nia |]. split; [discriminate | ring].
      * apply runs_ret. split; [reflexivity |]. exists 1.
        split; [lia |]. split; [reflexivity | ring].
    + intros amount p1 (-> & k & Hk & Hof & ->). cbv beta.
      run_as (apply runs_lift_result; exact Epop) as popped p1 H.
      destruct H as [-> ->].
      run_as (apply runs_modify_player) as u p1 H. subst p1.
      eapply runs_conseq; [apply runs_modify_player |].
      intros ? p ->. exists k. auto.
  - intros ? p1 (k & Hk & Hof & ->). cbv beta.
    eapply runs_conseq; [apply runs_market |].
    intros broke p Hp. cbv beta in Hp. exists k, inv1. auto.
Qed.

(** X20: when a [SellTask] completes, the first item of the inventory is
    sold: it is removed and the gold grows by its quantity times the player's
    level, times a factor from 1 to 10 * level for an item with " of " in its
    name.  With items left, the next sale is set as the task and the loop of
    [dequeue] breaks; with none left it goes on. *)
Theorem sale_pays (C : Content) (w0 : World) (b : BaseTask)
  (item : InventoryItem) (rest : list InventoryItem) :
  task (player w0) = Some (SellTask b) ->
  items (inventory (player w0)) = item :: rest ->
  1 <= level (player w0) ->
  exists broke w' k,
    task_effects C w0 = Ok (broke, w')
    /\ items (inventory (player w')) = rest
    /\ gold (inventory (player w'))
       = gold (inventory (player w0))
         + quantity item * level (player w0) * k
    /\ 1 <= k <= 10 * level (player w0)
    /\ (contains " of " (item_name item) = false -> k = 1)
    /\ match rest with
       | [] => broke = false /\ task (player w') = Some (SellTask b)
       | next :: _ =>
           broke = true
           /\ task (player w')
              = Some (mk_task SellTask
                        ("Selling "
                         ++ indefinite C (item_name next) (quantity next))
                        1000)
           /\ Bar_done (task_bar (player w')) = false
       end.
Proof.
  intros Ht Hitems Hl.
  pose proof (runs_sale C w0 b item rest Ht Hitems Hl) as H.
  destruct (H w0 eq_refl)
    as (broke & w' & E & k & inv1 & Hk & Hof & Hrest & Hgold & Hm).
  exists broke, w', k. split; [exact E |].
  unfold market_outcome in Hm. cbn [inventory set_inventory items add_gold] in Hm.
  rewrite Hrest in Hm.
  destruct rest as [| next rest'].
  - destruct Hm as [-> ->]. cbn [inventory set_inventory items gold add_gold task].
    rewrite Hgold. repeat split; try assumption; lia.
  - destruct Hm as [-> ->].
    cbn [inventory set_inventory items gold add_gold task set_task Player_emit
         task_bar].
    rewrite Hgold. repeat split; try assumption; lia.
Qed.

Lemma sale_pays_witness :
  exists broke w' k,
    task_effects Demo.content seller = Ok (broke, w')
    /\ items (inventory (player w'))
       = [ {| item_name := "lunchpail"; quantity := 1 |} ]
    /\ gold (inventory (player w'))
       = gold (inventory (player seller)) + 1 * level (player seller) * k
    /\ 1 <= k <= 10 * level (player seller)
    /\ (contains " of " "nail" = false -> k = 1)
    /\ broke = true
    /\ task (player w')
       = Some (mk_task SellTask
                 ("Selling " ++ indefinite Demo.content "lunchpail" 1) 1000)
    /\ Bar_done (task_bar (player w')) = false.
Proof.
  apply (sale_pays Demo.content seller
           {| description := "Selling nail"; duration := 1000 |}
           {| item_name := "nail"; quantity := 1 |}
           [ {| item_name := "lunchpail"; quantity := 1 |} ]).
  - reflexivity.
  - reflexivity.
  - vm_compute. discriminate.
Defined.

(** ** interplot_cinematic *)

Section Cinematic.

Variable C : Content.
Hypothesis HC : content_ok C.

Lemma scene_task_ok (d : string) (n : Z) :
  0 < n -> scene_task (mk_task RegularTask d n).
Proof. intros Hn. eexists. split; [reflexivity | exact Hn]. Qed.

Lemma runs_enqueue_queued (p1 p : Player) (added : list Task) (fuel : nat)
  (t : Task) :
  Bar_done (task_bar p1) = false -> queued p1 added p ->
  runs p (enqueue C fuel t) (fun _ p' => queued p1 (added ++ [t]) p').
Proof.
  intros Hdone ->. unfold enqueue.
  run_as (apply runs_modify_player) as u p2 H2. subst p2.
  eapply runs_conseq; [apply runs_dequeue_idle; exact Hdone |].
  intros ? p ->. unfold queued. cbn [queue set_queue].
  now rewrite <- app_assoc.
Qed.

Lemma runs_enqueue_kill (p0 : Player) (f : nat) (t : Task) :
  task_inv p0 -> is_kill (task p0) = true ->
  Bar_done (task_bar p0) = true -> queue_task_ok t ->
  runs p0 (enqueue C (S f) t)
       (fun _ p =>
          exists name hd rest,
            (queue p0 ++ [t])%list = hd :: rest
            /\ queue_task_ok hd
            /\ p = set_task
                     (set_queue
                        (set_inventory (set_queue p0 (queue p0 ++ [t]))
                           (Inventory_add (inventory p0) name 1))
                        rest)
                     hd).
Proof.
  intros [Hl (t0 & Ht0 & Hbar & Hpos & Hsell & Hm) Hq Hqm] Hkill Hdone Ht.
  unfold enqueue.
  run_as (apply runs_modify_player) as u p1 H1.
  rewrite dequeue_S.
  run_as (apply runs_get_player) as q p2 H2. destruct H2 as [-> ->].
  assert (Hd1 : Bar_done (task_bar p1) = true) by (subst p1; exact Hdone).
  rewrite Hd1. cbn [negb].
  rewrite Ht0 in Hkill. cbn [is_kill] in Hkill.
  destruct t0 as [b m | | | | | |]; try discriminate Hkill.
  run_as (apply (runs_task_effects C HC p1 (KillTask b m));
          [ subst p1; exact Ht0 | subst p1; exact Hl
          | discriminate | exact Hm ]) as broke p2 H2.
  cbn [effects_outcome] in H2. destruct H2 as (-> & name & ->).
  assert (Hne : exists hd rest,
             (queue p0 ++ [t])%list = hd :: rest /\ queue_task_ok hd).
  { destruct (queue p0) as [| hd rest] eqn:E.
    - exists t, []. now split.
    - exists hd, (rest ++ [t])%list. split; [reflexivity |].
      now inversion Hq. }
  destruct Hne as (hd & rest & Ehd & Hhd).
  run_as (apply (runs_next_task C HC);
          [ subst p1; exact Hl | subst p1; exact Hqm ]) as u2 p3 H3.
  unfold next_outcome in H3. subst p1.
  cbn [queue set_inventory set_queue] in H3. rewrite Ehd in H3. subst p3.
  eapply runs_conseq.
  - apply runs_dequeue_idle. rewrite set_task_done.
    apply Z.leb_gt. now destruct Hhd.
  - intros ? p ->. exists name, hd, rest. auto.
Qed.

Lemma runs_nemesis_combat (p1 : Player) (fuel : nat) (nemesis : string) :
  Bar_done (task_bar p1) = false ->
  forall (rounds : nat) (i s : Z) (added : list Task) (p : Player),
    queued p1 added p -> Forall scene_task added ->
    0 <= i -> Z.max 0 (act (quest_book p1) + 2 - i) < Z.of_nat rounds ->
    0 < act (quest_book p1) + 2 ->
    runs p (nemesis_combat C fuel rounds nemesis i s)
         (fun _ p' => exists added',
              queued p1 (added ++ added') p'
              /\ Forall scene_task added').
Proof.
  intros Hdone rounds.
  induction rounds as [| rounds IH]; intros i s added p Hp Hadded Hi Hr Hact.
  - simpl in Hr. lia.
  - cbn [nemesis_combat].
    run_as (apply runs_get_player) as q p2 H2. destruct H2 as [-> ->].
    assert (Eact : act (quest_book p) = act (quest_book p1))
      by (rewrite Hp; reflexivity).
    rewrite Eact.
    run_as (apply runs_rand, draws_below; lia) as r p2 H2.
    destruct H2 as [Hrr ->].
    destruct (Z.ltb_spec r i) as [Hlt | Hge].
    { apply runs_ret. exists []. rewrite app_nil_r. split; [exact Hp |].
      constructor. }
    run_as (apply runs_rand, draws_below; lia) as d p2 H2.
    destruct H2 as [Hd ->].
    pose proof (Z.mod_pos_bound (s + (1 + d)) 3 ltac:(lia)) as Hmod.
    assert (Hstep : forall t, scene_task t ->
              runs p (enqueue C fuel t ;;;
                      nemesis_combat C fuel rounds nemesis (i + 1)
                        (s + (1 + d)))
                (fun _ p' => exists added',
                     queued p1 (added ++ added') p'
                     /\ Forall scene_task added')).
    { intros t Hst.
      run_as (eapply runs_enqueue_queued; [exact Hdone | exact Hp])
        as u p2 H2.
      eapply runs_conseq.
      - apply (IH (i + 1) (s + (1 + d)) (added ++ [t])%list p2 H2).
        + apply Forall_app. split; [exact Hadded | now constructor].
        + lia.
        + lia.
        + exact Hact.
      - intros ? p' (added' & Hq & Ha). cbv beta.
        exists (t :: added'). split; [| now constructor].
        now rewrite <- app_assoc in Hq. }
    destruct ((s + (1 + d)) mod 3 =? 0) eqn:E0;
      [apply Hstep, scene_task_ok; lia |].
    destruct ((s + (1 + d)) mod 3 =? 1) eqn:E1;
      [apply Hstep, scene_task_ok; lia |].
    destruct ((s + (1 + d)) mod 3 =? 2) eqn:E2;
      [apply Hstep, scene_task_ok; lia |].
    apply Z.eqb_neq in E0, E1, E2. lia.
Qed.


Lemma runs_interplot_cinematic (p0 : Player) (f : nat) :
  task_inv p0 -> is_kill (task p0) = true ->
  Bar_done (task_bar p0) = true ->
  0 <= act (quest_book p0) -> act (quest_book p0) + 1 < Z.of_nat (S f) ->
  runs p0 (interplot_cinematic C (S f))
       (fun _ p =>
          exists first name hd rest added,
            (queue p0 ++ [first])%list = hd :: rest
            /\ queue_task_ok hd
            /\ scene_task first
            /\ Forall scene_task added
            /\ (3 <= List.length added)%nat
            /\ queued (first_scene p0 first name hd rest)
                 (added
                  ++ [mk_task PlotTask
                        ("Loading "
                         ++ act_name C (act (quest_book p0) + 1)) 1000])
                 p).
Proof.
  intros Hinv Hkill Hdone Hact Hfuel. unfold interplot_cinematic.
  run_as (apply runs_rand, draws_below; lia) as choice p1 H1.
  destruct H1 as [Hchoice ->].
  eapply runs_bind
    with (Q1 := fun _ p =>
                  exists first name hd rest added,
                    (queue p0 ++ [first])%list = hd :: rest
                    /\ queue_task_ok hd
                    /\ scene_task first
                    /\ Forall scene_task added
                    /\ (3 <= List.length added)%nat
                    /\ queued (first_scene p0 first name hd rest) added p).
  - assert (Hfirst : forall (d : string) (n : Z) (k : W unit)
                            (Q : unit -> Player -> Prop),
               0 < n ->
               (forall name hd rest,
                   (queue p0 ++ [mk_task RegularTask d n])%list = hd :: rest ->
                   queue_task_ok hd ->
                   let p1 := first_scene p0 (mk_task RegularTask d n)
                               name hd rest in
                   Bar_done (task_bar p1) = false ->
                   queued p1 [] p1 ->
                   runs p1 k Q) ->
               runs p0 (enqueue C (S f) (mk_task RegularTask d n) ;;; k) Q).
    { intros d n k Q Hn Hk.
      run_as (apply (runs_enqueue_kill p0 f (mk_task RegularTask d n));
              [ exact Hinv | exact Hkill | exact Hdone
              | now apply queue_task_ok_regular ]) as u p1 H1.
      destruct H1 as (name & hd & rest & Ehd & Hhd & ->).
      apply (Hk name hd rest Ehd Hhd).
      - unfold first_scene. rewrite set_task_done.
        apply Z.leb_gt. now destruct Hhd.
      - unfold queued, first_scene, set_task, Player_emit, set_queue.
        cbn. now rewrite app_nil_r. }
    destruct (choice =? 0) eqn:E0.
    { apply Hfirst; [lia |]. intros name hd rest Ehd Hhd p1 Hd1 Hq1.
      run_as (eapply runs_enqueue_queued; [exact Hd1 | exact Hq1])
        as u2 p2 H2.
      run_as (eapply runs_enqueue_queued; [exact Hd1 | exact H2])
        as u3 p3 H3.
      eapply runs_conseq;
        [eapply runs_enqueue_queued; [exact Hd1 | exact H3] |].
      intros ? p Hp. cbv beta in Hp. cbn [app] in Hp.
      eexists _, name, hd, rest, _.
      split; [exact Ehd |]. split; [exact Hhd |].
      split; [apply scene_task_ok; lia |].
      split; [| split; [| exact Hp]].
      - repeat constructor; apply scene_task_ok; lia.
      - simpl. lia. }
    destruct (choice =? 1) eqn:E1.
    { apply Hfirst; [lia |]. intros name hd rest Ehd Hhd p1 Hd1 Hq1.
      run_as (apply runs_get_player) as q p2 H2. destruct H2 as [-> ->].
      run_as (apply runs_rand, (draws_named_monster C HC)) as nemesis p2 H2.
      destruct H2 as [_ ->].
      run_as (eapply runs_enqueue_queued; [exact Hd1 | exact Hq1])
        as u2 p2 H2.
      run_as (apply runs_rand, draws_below; lia) as s p3 H3.
      destruct H3 as [_ ->]. cbn [app] in H2.
      run_as (eapply (runs_nemesis_combat p1 (S f) nemesis Hd1 (S f) 1 s);
              [ exact H2 | repeat constructor; apply scene_task_ok; lia
              | lia
              | unfold p1, first_scene; cbn [quest_book set_task Player_emit
                                             set_queue set_inventory]; lia
              | unfold p1, first_scene; cbn [quest_book set_task Player_emit
                                             set_queue set_inventory]; lia ])
        as u4 p4 H4.
      destruct H4 as (added' & H4 & Hadded').
      run_as (eapply runs_enqueue_queued; [exact Hd1 | exact H4])
        as u5 p5 H5.
      eapply runs_conseq;
        [eapply runs_enqueue_queued; [exact Hd1 | exact H5] |].
      intros ? p Hp. cbv beta in Hp.
      eexists _, name, hd, rest, _.
      split; [exact Ehd |]. split; [exact Hhd |].
      split; [apply scene_task_ok; lia |].
      split; [| split; [| exact Hp]].
      - repeat (apply Forall_app; split);
          try (repeat constructor; apply scene_task_ok; lia).
        exact Hadded'.
      - rewrite !length_app. simpl. lia. }
    destruct (choice =? 2) eqn:E2.
    { run_as (apply runs_rand, (draws_impressive_guy C HC)) as nemesis p2 H2.
      destruct H2 as [_ ->].
      apply Hfirst; [lia |]. intros name hd rest Ehd Hhd p1 Hd1 Hq1.
      run_as (eapply runs_enqueue_queued; [exact Hd1 | exact Hq1])
        as u2 p2 H2.
      run_as (apply runs_rand, (draws_boring_item C HC)) as b p3 H3.
      destruct H3 as [_ ->].
      run_as (eapply runs_enqueue_queued; [exact Hd1 | exact H2])
        as u3 p3 H3.
      run_as (eapply runs_enqueue_queued; [exact Hd1 | exact H3])
        as u4 p4 H4.
      run_as (eapply runs_enqueue_queued; [exact Hd1 | exact H4])
        as u5 p5 H5.
      eapply runs_conseq;
        [eapply runs_enqueue_queued; [exact Hd1 | exact H5] |].
      intros ? p Hp. cbv beta in Hp. cbn [app] in Hp.
      eexists _, name, hd, rest, _.
      split; [exact Ehd |]. split; [exact Hhd |].
      split; [apply scene_task_ok; lia |].
      split; [| split; [| exact Hp]].
      - repeat constructor; apply scene_task_ok; lia.
      - simpl. lia. }
    apply Z.eqb_neq in E0, E1, E2. lia.
  - intros ? p
      (first & name & hd & rest & added & Ehd & Hhd & Hf & Ha & Hlen & Hq).
    cbv beta.
    run_as (apply runs_get_player) as q p2 H2. destruct H2 as [-> ->].
    assert (Hd1 : Bar_done (task_bar (first_scene p0 first name hd rest))
                  = false).
    { unfold first_scene. rewrite set_task_done.
      apply Z.leb_gt. now destruct Hhd. }
    assert (Eact : act (quest_book p) = act (quest_book p0))
      by (rewrite Hq; reflexivity).
    rewrite Eact.
    eapply runs_conseq;
      [eapply runs_enqueue_queued; [exact Hd1 | exact Hq] |].
    intros ? p' Hp'. cbv beta in Hp'.
    exists first, name, hd, rest, added. auto 10.
Qed.

(** X21: when a [KillTask] has run out, [interplot_cinematic] returns, given
    fuel for the combat rounds its act allows.  The first [enqueue] collects
    the loot of the kill and starts the first pending task; after that the
    active task followed by the pending queue is the old queue, a burst of
    at least four scene tasks and, last, the one [PlotTask] that loads the
    next act.  Act and level are untouched and the task bar is not done. *)
Theorem interplot_cinematic_queues (w0 : World) (fuel : nat) :
  task_inv (player w0) -> is_kill (task (player w0)) = true ->
  Bar_done (task_bar (player w0)) = true ->
  0 <= act (quest_book (player w0)) ->
  act (quest_book (player w0)) + 2 <= Z.of_nat fuel ->
  exists w' t burst,
    interplot_cinematic C fuel w0 = Ok (tt, w')
    /\ task (player w') = Some t
    /\ (t :: queue (player w')
        = queue (player w0) ++ burst
          ++ [mk_task PlotTask
                ("Loading "
                 ++ act_name C (act (quest_book (player w0)) + 1)) 1000])%list
    /\ Forall scene_task burst
    /\ (4 <= List.length burst)%nat
    /\ Bar_done (task_bar (player w')) = false
    /\ act (quest_book (player w')) = act (quest_book (player w0))
    /\ level (player w') = level (player w0)
    /\ total_quantity (items (inventory (player w')))
       = total_quantity (items (inventory (player w0))) + 1.
Proof.
  intros Hinv Hkill Hdone Hact Hfuel.
  destruct fuel as [| f]; [simpl in Hfuel; lia |].
  destruct (runs_interplot_cinematic (player w0) f Hinv Hkill Hdone Hact
              ltac:(lia) w0 eq_refl)
    as ([] & w' & E & first & name & hd & rest & added & Ehd & Hhd & Hf & Ha
        & Hlen & Hq).
  exists w', hd, (first :: added). split; [exact E |].
  rewrite Hq. unfold first_scene.
  cbn [task queue set_queue set_task Player_emit task_bar quest_book level
       inventory set_inventory].
  split; [reflexivity |]. split.
  { change (first :: added) with ([first] ++ added)%list.
    rewrite !app_assoc. rewrite Ehd. reflexivity. }
  split; [now constructor |]. split; [simpl; lia |].
  split.
  { change (Bar_done (task_bar (set_task (player w0) hd)) = false).
    rewrite set_task_done. apply Z.leb_gt. now destruct Hhd. }
  split; [reflexivity |]. split; [reflexivity |].
  apply Inventory_add_total.
Qed.

End Cinematic.

Lemma hunter_task_inv : task_inv (player hunter).
Proof.
  split.
  - vm_compute. discriminate.
  - eexists. split; [reflexivity |]. unfold task_ok.
    split; [reflexivity |]. split; [intros H; discriminate H |].
    split; [intros H; discriminate H | exact I].
  - apply (initial_queue_ok Demo.content).
  - exact I.
Qed.

Lemma interplot_cinematic_queues_witness :
  exists w' t burst,
    interplot_cinematic Demo.content 5 hunter = Ok (tt, w')
    /\ task (player w') = Some t
    /\ (t :: queue (player w')
        = queue (player hunter) ++ burst
          ++ [mk_task PlotTask
                ("Loading "
                 ++ act_name Demo.content
                      (act (quest_book (player hunter)) + 1)) 1000])%list
    /\ Forall scene_task burst
    /\ (4 <= List.length burst)%nat
    /\ Bar_done (task_bar (player w')) = false
    /\ act (quest_book (player w')) = act (quest_book (player hunter))
    /\ level (player w') = level (player hunter)
    /\ total_quantity (items (inventory (player w')))
       = total_quantity (items (inventory (player hunter))) + 1.
Proof.
  apply (interplot_cinematic_queues Demo.content Demo_content_ok hunter 5).
  - exact hunter_task_inv.
  - reflexivity.
  - reflexivity.
  - vm_compute. discriminate.
  - vm_compute. discriminate.
Defined.

(** ** Level and statistics never go down *)

Lemma grown_refl (p : Player) : grown p p.
Proof. split; [lia | apply stats_le_refl]. Qed.

Lemma grown_trans (p1 p2 p3 : Player) :
  grown p1 p2 -> grown p2 p3 -> grown p1 p3.
Proof.
  intros [Hl1 Hs1] [Hl2 Hs2]. split; [lia |].
  eapply stats_le_trans; eassumption.
Qed.

Lemma grown_same (p0 p : Player) :
  level p = level p0 -> stats p = stats p0 -> grown p0 p.
Proof. intros El Es. split; [lia | rewrite Es; apply stats_le_refl]. Qed.

Section Growth.

Variable C : Content.
Hypothesis HC : content_ok C.

Lemma growing_ret {A} (a : A) : growing C (ret a).
Proof.
  intros p0 Hinv. apply returns_ret. split; [exact Hinv | apply grown_refl].
Qed.

Lemma growing_raise {A} (e : exn) : growing C (@raise World A e).
Proof. intros p0 Hinv. apply returns_raise. Qed.

Lemma growing_out_of_fuel {A} : growing C (@out_of_fuel World A).
Proof. intros p0 Hinv. apply returns_out_of_fuel. Qed.

Lemma growing_bind {A B} (m : W A) (k : A -> W B) :
  growing C m -> (forall a, growing C (k a)) -> growing C (bind m k).
Proof.
  intros Hm Hk p0 Hinv. eapply returns_bind; [now apply Hm |].
  intros a p1 [H1 G1]. eapply returns_conseq; [now apply Hk |].
  intros b p [H2 G2]. split; [exact H2 | eapply grown_trans; eassumption].
Qed.

Lemma growing_rand {A} (r : random.Rand A) : growing C (rand r).
Proof.
  intros p0 Hinv. eapply returns_conseq; [apply returns_rand |].
  intros _ p ->. split; [exact Hinv | apply grown_refl].
Qed.

Lemma growing_get_player : growing C get_player.
Proof.
  intros p0 Hinv. apply runs_returns.
  eapply runs_conseq; [apply runs_get_player |].
  intros a p [_ ->]. split; [exact Hinv | apply grown_refl].
Qed.

Lemma growing_modify_player (f : Player -> Player) :
  (forall p, engine_inv C p -> engine_inv C (f p)) ->
  (forall p, level (f p) = level p /\ stats (f p) = stats p) ->
  growing C (modify_player f).
Proof.
  intros Hf Hsame p0 Hinv. apply runs_returns.
  eapply runs_conseq; [apply runs_modify_player |].
  intros _ p ->. split; [now apply Hf |].
  destruct (Hsame p0). now apply grown_same.
Qed.

Lemma growing_rewarding {A} (m : W A) : rewarding C m -> growing C m.
Proof.
  intros Hm p0 Hinv. apply runs_returns.
  eapply runs_conseq.
  - apply Hm; [apply (inv_stats C p0 Hinv) |].
    apply (inv_level p0 (inv_tasks C p0 Hinv)).
  - intros a p Hk. cbv beta in Hk.
    split; [eapply engine_inv_keeps; eassumption |].
    split; [rewrite (keeps_level _ _ Hk); lia | apply (keeps_stats _ _ Hk)].
Qed.

Lemma growing_level_up : growing C (level_up C).
Proof.
  intros p0 Hinv w a w' Hw E.
  split; [exact (preserves_level_up C HC p0 Hinv w a w' Hw E) |].
  pose proof (inv_level p0 (inv_tasks C p0 Hinv)) as Hl.
  destruct (runs_level_up C HC p0 (inv_stats C p0 Hinv) Hl w Hw)
    as (a1 & w1 & E1 & p2 & Hk & Hp).
  rewrite E in E1. injection E1 as _ <-. rewrite Hp.
  split.
  - cbn [level leveled Player_emit set_exp_bar].
    rewrite (keeps_level _ _ Hk). simpl. lia.
  - cbn [stats leveled Player_emit set_exp_bar].
    apply (keeps_stats _ _ Hk).
Qed.

Lemma growing_dequeue (fuel : nat) : growing C (dequeue C fuel).
Proof.
  intros p0 Hinv w a w' Hw E.
  split; [exact (preserves_dequeue C HC fuel p0 Hinv w a w' Hw E) |].
  pose proof (inv_tasks C p0 Hinv) as Ht.
  apply (dequeue_refines C fuel (Nat.max fuel (kill_budget p0 + 2))) in E;
    [| lia].
  destruct (runs_dequeue C HC p0 (Nat.max fuel (kill_budget p0 + 2)) Ht
              ltac:(lia) w Hw)
    as (a1 & w1 & E1 & (Hl & He & Hs) & _).
  rewrite E in E1. injection E1 as _ <-.
  now apply grown_same.
Qed.

Lemma growing_enqueue (fuel : nat) (t : Task) :
  queue_task_ok t -> growing C (enqueue C fuel t).
Proof.
  intros Ht. unfold enqueue.
  apply growing_bind; [| intros _; apply growing_dequeue].
  apply growing_modify_player; [| now split].
  intros p [[Hl (t0 & Ht0) Hq Hqm] Hs He].
  split; [split | |]; simpl; try assumption.
  - now exists t0.
  - apply Forall_app. split; [exact Hq | now constructor].
Qed.

Ltac grow_step :=
  first
    [ apply growing_ret
    | apply growing_raise
    | apply growing_out_of_fuel
    | apply growing_get_player
    | apply growing_rand
    | apply growing_dequeue
    | apply growing_enqueue;
      first [ apply queue_task_ok_regular | apply queue_task_ok_plot ]; lia
    | assumption
    | apply growing_bind; [| intros ?]
    | match goal with
      | |- growing _ (if ?b then _ else _) => destruct b
      end ].

Lemma growing_nemesis_combat (fuel rounds : nat) (nemesis : string)
  (i s : Z) :
  growing C (nemesis_combat C fuel rounds nemesis i s).
Proof.
  revert i s. induction rounds as [| n IH]; intros i s; simpl.
  - apply growing_out_of_fuel.
  - repeat first [ apply IH | grow_step ].
Qed.

Lemma growing_interplot_cinematic (fuel : nat) :
  growing C (interplot_cinematic C fuel).
Proof.
  unfold interplot_cinematic.
  repeat first [ apply growing_nemesis_combat | grow_step ].
Qed.

Lemma growing_tick (fuel : nat) (e : Q) : growing C (tick C fuel e).
Proof.
  intros p0 Hinv. unfold tick.
  eapply returns_bind; [apply runs_returns, runs_get_player |].
  intros a p1 [-> ->].
  destruct (Bar_done (task_bar p0)) eqn:Hdone; simpl negb; cbv iota.
  - match goal with
    | |- returns _ ?m _ => assert (Hrest : growing C m)
    end; [| exact (Hrest p0 Hinv)].
    unfold modify_quest_book.
    repeat first
      [ apply growing_level_up
      | apply (growing_rewarding _ (rewarding_complete_quest C HC))
      | apply growing_interplot_cinematic
      | apply growing_modify_player;
        [ intros p Hp;
          first [ apply engine_inv_bar_frame | apply engine_inv_quest_frame ];
          [exact Hp | reflexivity]
        | intros p; split; reflexivity ]
      | grow_step ].
  - intros w u w' Hw E. injection E as _ <-. simpl. subst p0.
    split; [now apply engine_inv_task_bar | now apply grown_same].
Qed.

(** X22: a tick never lowers the level or a statistic: from a reachable
    state, when [tick] returns, the level is at least what it was and every
    statistic has a value that is at least what it was. *)
Theorem tick_never_lowers (w w' : World) (fuel : nat) (e : Q) :
  reachable C w -> tick C fuel e w = Ok (tt, w') ->
  level (player w) <= level (player w')
  /\ forall k v, stat_of (stats (player w)) k = Some v ->
                 exists v', stat_of (stats (player w')) k = Some v'
                            /\ v <= v'.
Proof.
  intros Hr E.
  destruct (growing_tick fuel e (player w) (reachable_engine_inv C HC w Hr)
              w tt w' eq_refl E) as [_ [Hl Hs]].
  split; [exact Hl |]. intros k v Hk.
  exact (stats_le_stat_of _ _ k v Hs Hk).
Qed.

End Growth.

Lemma tick_never_lowers_witness :
  level (player Demo.world) <= level (player Demo.finished)
  /\ forall k v, stat_of (stats (player Demo.world)) k = Some v ->
                 exists v', stat_of (stats (player Demo.finished)) k = Some v'
                            /\ v <= v'.
Proof.
  apply (tick_never_lowers Demo.content Demo_content_ok Demo.world
           Demo.finished 0 2000).
  - exact Demo_world_reachable.
  - reflexivity.
Defined.

(** ** Gold never runs out *)

Lemma stocked_refl (p : Player) : stocked p p.
Proof. repeat split; auto. Qed.

Lemma stocked_trans (p1 p2 p3 : Player) :
  stocked p1 p2 -> stocked p2 p3 -> stocked p1 p3.
Proof.
  intros (G1 & I1 & T1) (G2 & I2 & T2).
  split; [congruence | split; [auto | congruence]].
Qed.

Lemma stocked_same (p p' : Player) :
  inventory p' = inventory p -> task p' = task p -> stocked p p'.
Proof. intros Ei Et. unfold stocked. rewrite Ei, Et. auto. Qed.

Lemma add_existing_nonneg (l : list InventoryItem) (name : string) (qty : Z) :
  0 <= qty -> Forall (fun it => 0 <= quantity it) l ->
  match add_existing l name qty with
  | Some (l', _) => Forall (fun it => 0 <= quantity it) l'
  | None => True
  end.
Proof.
  intros Hq Hl. induction Hl as [| item rest Hitem Hrest IH]; simpl.
  - exact I.
  - destruct (String.eqb (item_name item) name).
    + constructor; [simpl; lia | exact Hrest].
    + destruct (add_existing rest name qty) as [[rest' c] |]; [| exact I].
      now constructor.
Qed.

Lemma Inventory_add_nonneg (inv : Inventory) (name : string) (qty : Z) :
  0 <= qty -> Forall (fun it => 0 <= quantity it) (items inv) ->
  Forall (fun it => 0 <= quantity it) (items (Inventory_add inv name qty)).
Proof.
  intros Hq Hl. pose proof (add_existing_nonneg _ name qty Hq Hl) as H.
  unfold Inventory_add.
  destruct (add_existing (items inv) name qty) as [[l' c] |]; simpl.
  - exact H.
  - apply Forall_app. split; [exact Hl | now repeat constructor].
Qed.

Lemma stocked_add (p : Player) (name : string) :
  stocked p (set_inventory p (Inventory_add (inventory p) name 1)).
Proof.
  split; [| split; [| reflexivity]].
  - unfold Inventory_add. simpl.
    now destruct (add_existing (items (inventory p)) name 1) as [[l' c] |].
  - intros H. simpl. apply Inventory_add_nonneg; [lia | exact H].
Qed.

Section Stocking.

Variable C : Content.

Lemma stocking_ret {A} (a : A) : stocking (ret a).
Proof. intros p0. apply returns_ret. apply stocked_refl. Qed.

Lemma stocking_raise {A} (e : exn) : stocking (@raise World A e).
Proof. intros p0. apply returns_raise. Qed.

Lemma stocking_bind {A B} (m : W A) (k : A -> W B) :
  stocking m -> (forall a, stocking (k a)) -> stocking (bind m k).
Proof.
  intros Hm Hk p0. eapply returns_bind; [apply Hm |].
  intros a p1 H1. eapply returns_conseq; [apply Hk |].
  intros b p H2. cbv beta in *. eapply stocked_trans; eassumption.
Qed.

Lemma stocking_rand {A} (r : random.Rand A) : stocking (rand r).
Proof.
  intros p0. eapply returns_conseq; [apply returns_rand |].
  intros _ p ->. apply stocked_refl.
Qed.

Lemma stocking_get_player : stocking get_player.
Proof.
  intros p0. apply runs_returns.
  eapply runs_conseq; [apply runs_get_player |].
  intros a p [_ ->]. apply stocked_refl.
Qed.

Lemma stocking_modify_player (f : Player -> Player) :
  (forall p, stocked p (f p)) -> stocking (modify_player f).
Proof.
  intros Hf p0. apply runs_returns.
  eapply runs_conseq; [apply runs_modify_player |].
  intros _ p ->. apply Hf.
Qed.

Lemma stocking_lift_result {A} (r : result A) : stocking (lift_result r).
Proof.
  intros p0 w a w' <- E. unfold lift_result in E.
  destruct r; try discriminate E. injection E as _ <-. apply stocked_refl.
Qed.

Lemma stocking_put_player (p : Player) :
  forall p0, stocked p0 p -> returns p0 (put_player p) (fun _ p' => stocked p0 p').
Proof. intros p0 H w a w' _ E. injection E as _ <-. exact H. Qed.

Lemma stocking_stats_getitem (k : StatType) : stocking (stats_getitem k).
Proof.
  unfold stats_getitem.
  apply stocking_bind; [apply stocking_get_player | intros p].
  apply stocking_lift_result.
Qed.

Lemma stocking_stats_increment (k : StatType) (qty : Z) :
  stocking (stats_increment k qty).
Proof.
  intros p0 w a w' <- E. unfold stats_increment, bind, get_player in E.
  unfold lift_result in E.
  destruct (Stats_increment (stats (player w)) k qty) as [s | |];
    try discriminate E.
  injection E as _ <-. now apply stocked_same.
Qed.

Ltac stock_step :=
  first
    [ apply stocking_ret
    | apply stocking_raise
    | apply stocking_get_player
    | apply stocking_rand
    | apply stocking_lift_result
    | apply stocking_stats_getitem
    | apply stocking_stats_increment
    | apply stocking_modify_player; intros ?;
      first [ apply stocked_add | now apply stocked_same ]
    | assumption
    | apply stocking_bind; [| intros ?]
    | match goal with
      | |- stocking (if ?b then _ else _) => destruct b
      | |- stocking (match ?x with Some _ => _ | None => _ end) => destruct x
      | |- stocking (let '(_, _) := ?x in _) => destruct x
      end ].

Lemma stocking_win_stat : stocking (win_stat C).
Proof.
  unfold win_stat.
  apply stocking_bind; [apply stocking_rand | intros uniform].
  apply stocking_bind.
  { destruct uniform; repeat stock_step. }
  intros [c |]; [| apply stocking_raise].
  apply stocking_bind; [apply stocking_stats_increment | intros _].
  apply stocking_bind; [| intros _; apply stocking_ret].
  destruct (StatType_eq_dec c strength); [| apply stocking_ret].
  apply stocking_bind; [apply stocking_stats_getitem | intros s].
  apply stocking_modify_player. intros p.
  split; [reflexivity | split; [auto | reflexivity]].
Qed.

Lemma stocking_win_spell : stocking (win_spell C).
Proof. unfold win_spell. repeat stock_step. Qed.

Lemma stocking_win_equipment : stocking (win_equipment C).
Proof. unfold win_equipment. repeat stock_step. Qed.

Lemma stocking_win_item : stocking (win_item C).
Proof. unfold win_item. repeat stock_step. Qed.

Lemma stocking_level_up : stocking (level_up C).
Proof.
  unfold level_up.
  repeat first [ apply stocking_win_stat | apply stocking_win_spell
               | stock_step ].
Qed.

Lemma stocking_complete_act : stocking (complete_act C).
Proof.
  unfold complete_act, modify_quest_book.
  repeat first [ apply stocking_win_item | apply stocking_win_equipment
               | stock_step ].
Qed.

Lemma stocking_complete_quest : stocking (complete_quest C).
Proof.
  unfold complete_quest, modify_quest_book.
  apply stocking_bind; [apply stocking_rand | intros r].
  apply stocking_bind; [stock_step | intros _].
  apply stocking_bind; [apply stocking_get_player | intros p].
  apply stocking_bind.
  { destruct (truthy (current_quest (quest_book p))); [| apply stocking_ret].
    intros p0.
    eapply returns_bind;
      [apply runs_returns, runs_rand, draws_choice; discriminate |].
    intros reward p1 [Hin ->]. simpl in Hin.
    destruct Hin as [<- | [<- | [<- | [<- | []]]]].
    - apply stocking_win_spell.
    - apply stocking_win_equipment.
    - apply stocking_bind; [apply stocking_win_stat | intros _].
      apply stocking_ret.
    - apply stocking_win_item. }
  intros _.
  repeat first [ stock_step ].
Qed.

End Stocking.

Lemma returns_and {A} (p0 : Player) (m : W A) (Q1 Q2 : A -> Player -> Prop) :
  returns p0 m Q1 -> returns p0 m Q2 ->
  returns p0 m (fun a p => Q1 a p /\ Q2 a p).
Proof. intros H1 H2 w a w' Hw E. split; [eapply H1 | eapply H2]; eassumption. Qed.

Section Thrift.

Variable C : Content.
Hypothesis HC : content_ok C.

Lemma market_solvent (q : Player) (broke : bool) (p : Player) :
  market_outcome C q broke p ->
  gold (inventory p) = gold (inventory q)
  /\ items (inventory p) = items (inventory q)
  /\ level p = level q
  /\ (broke = true -> is_buy (task p) = false).
Proof.
  unfold market_outcome.
  destruct (items (inventory q)) as [| item rest] eqn:E.
  - intros [-> ->]. repeat split; auto; try (intros H; discriminate H).
  - intros [-> ->]. simpl. repeat split; auto.
Qed.

Lemma returns_effects_solvent (p0 : Player) (t : Task) :
  task_inv p0 -> solvent p0 -> task p0 = Some t ->
  returns p0 (task_effects C)
          (fun broke p =>
             0 <= gold (inventory p)
             /\ Forall (fun it => 0 <= quantity it) (items (inventory p))
             /\ level p = level p0
             /\ (broke = true -> is_buy (task p) = false)).
Proof.
  intros Hinv (Hgold & Hitems & Hbuy) Ht w broke w' Hw E.
  pose proof Hinv as [Hl (t' & Ht' & _ & _ & Hsell & Hm) Hq Hqm].
  rewrite Ht in Ht'. injection Ht' as <-.
  destruct t as [b m | b | b | b | b | b | b].
  - destruct (runs_task_effects C HC p0 _ Ht Hl Hsell Hm w Hw)
      as (broke' & w1 & E1 & Hout).
    rewrite E in E1. injection E1 as <- <-.
    destruct Hout as (-> & name & ->).
    destruct (stocked_add p0 name) as (Eg & Hi & _).
    rewrite Eg. repeat split; auto; try (intros H; discriminate H).
  - destruct (runs_task_effects C HC p0 _ Ht Hl Hsell Hm w Hw)
      as (broke' & w1 & E1 & Hout).
    rewrite E in E1. injection E1 as <- <-.
    destruct Hout as (-> & slot & name & ->). simpl.
    rewrite Ht in Hbuy. specialize (Hbuy eq_refl).
    repeat split; auto; try lia; try (intros H; discriminate H).
  - destruct (runs_task_effects C HC p0 _ Ht Hl Hsell Hm w Hw)
      as (broke' & w1 & E1 & Hout).
    rewrite E in E1. injection E1 as <- <-.
    destruct Hout as (-> & ->). repeat split; auto; try (intros H; discriminate H).
  - destruct (runs_task_effects C HC p0 _ Ht Hl Hsell Hm w Hw)
      as (broke' & w1 & E1 & Hout).
    rewrite E in E1. injection E1 as <- <-.
    destruct (market_solvent _ _ _ Hout) as (Eg & Ei & El & Hb).
    rewrite Eg, Ei, El. repeat split; auto.
  - specialize (Hsell eq_refl).
    destruct (items (inventory p0)) as [| item rest] eqn:Ei;
      [contradiction |].
    subst p0.
    destruct (runs_sale C w b item rest Ht Ei Hl w eq_refl)
      as (broke' & w1 & E1 & k & inv1 & Hk & _ & Hrest & Hg & Hout).
    rewrite E in E1. injection E1 as <- <-.
    destruct (market_solvent _ _ _ Hout) as (Eg & Ei' & El & Hb).
    rewrite Eg, Ei', El. cbn [inventory set_inventory gold items add_gold level].
    rewrite Hrest, Hg.
    inversion Hitems as [| x l Hx Hl']; subst.
    repeat split; auto. nia.
  - destruct (runs_task_effects C HC p0 _ Ht Hl Hsell Hm w Hw)
      as (broke' & w1 & E1 & Hout).
    rewrite E in E1. injection E1 as <- <-.
    destruct Hout as (-> & ->). repeat split; auto; try (intros H; discriminate H).
  - destruct (runs_task_effects C HC p0 _ Ht Hl Hsell Hm w Hw)
      as (broke' & w1 & E1 & Hout).
    rewrite E in E1. injection E1 as <- <-.
    destruct Hout as (-> & Hset).
    assert (Hst : stocked p0 (player w')).
    { assert (Hr : returns p0 (task_effects C) (fun _ p => stocked p0 p)).
      { unfold task_effects.
        eapply returns_bind; [apply runs_returns, runs_get_player |].
        intros q p1 [-> ->]. rewrite Ht.
        apply (stocking_bind (complete_act C) (fun _ => ret false)).
        - apply stocking_complete_act.
        - intros _. apply stocking_ret. }
      exact (Hr w false w' Hw E). }
    destruct Hst as (Eg & Hi & _). rewrite Eg.
    repeat split; auto.
    + apply (settled_level _ _ Hset).
    + intros H; discriminate H.
Qed.

Lemma next_solvent (p1 p2 : Player) :
  next_outcome p1 p2 ->
  0 <= gold (inventory p1) ->
  Forall (fun it => 0 <= quantity it) (items (inventory p1)) ->
  Forall queue_task_ok (queue p1) ->
  solvent p2.
Proof.
  unfold next_outcome. intros Hout Hg Hi Hq.
  destruct (queue p1) as [| t rest].
  - destruct (Bar_done (encum_bar (inventory p1))).
    { subst p2. split; [exact Hg | split; [exact Hi |]].
      intros H; discriminate H. }
    destruct (negb match task p1 with
                   | Some t => is_hunting t
                   | None => false
                   end).
    + destruct (Z.ltb_spec (equip_price p1) (gold (inventory p1))).
      * subst p2. split; [exact Hg | split; [exact Hi |]].
        intros _. exact H.
      * subst p2. split; [exact Hg | split; [exact Hi |]].
        intros H'; discriminate H'.
    + destruct Hout as (t & Hk & _ & ->).
      split; [exact Hg | split; [exact Hi |]].
      destruct t; try discriminate Hk. intros H; discriminate H.
  - subst p2. split; [exact Hg | split; [exact Hi |]].
    apply Forall_inv in Hq. destruct Hq as [[b [-> | ->]] _];
      intros Hx; discriminate Hx.
Qed.

Lemma returns_dequeue_solvent (fuel : nat) :
  forall p0, task_inv p0 -> solvent p0 ->
             returns p0 (dequeue C fuel) (fun _ p => solvent p).
Proof.
  induction fuel as [| f IH]; intros p0 Hinv Hsol.
  - simpl.
    eapply returns_bind; [apply runs_returns, runs_get_player |].
    intros q p1 [-> ->].
    destruct (negb (Bar_done (task_bar p0)));
      [now apply returns_ret | apply returns_out_of_fuel].
  - rewrite dequeue_S.
    eapply returns_bind; [apply runs_returns, runs_get_player |].
    intros q p1 [-> ->].
    destruct (negb (Bar_done (task_bar p0))); [now apply returns_ret |].
    pose proof Hinv as [Hl (t & Ht & _ & _ & Hsell & Hm) Hq Hqm].
    eapply returns_bind.
    { apply returns_and.
      - apply runs_returns.
        apply (runs_task_effects C HC p0 t Ht Hl Hsell Hm).
      - apply (returns_effects_solvent p0 t Hinv Hsol Ht). }
    intros broke p1 [Hout (Hg & Hi & Hlev & Hb)]. cbv beta in Hout.
    destruct (effects_summary C p0 t broke p1 Ht Hinv Hout)
      as (Hu & Hq1 & Hqm1 & Hsum).
    destruct broke.
    + apply returns_ret. split; [exact Hg | split; [exact Hi |]].
      intros H. rewrite (Hb eq_refl) in H. discriminate H.
    + destruct Hsum as (Ht1 & Hkill & Hhkf).
      assert (Hl1 : 1 <= level p1) by (rewrite Hlev; exact Hl).
      assert (Hqm1' : monster_ok (quest_monster (quest_book p1)))
        by (rewrite Hqm1; exact Hqm).
      eapply returns_bind;
        [apply runs_returns, (runs_next_task C HC p1 Hl1 Hqm1') |].
      intros u p2 H2. cbv beta in H2.
      pose proof (next_summary p0 p1 p2 t Hinv Ht Hu Hq1 Hqm1 Ht1 Hkill
                    Hhkf H2) as (_ & Hinv2 & _).
      apply IH; [exact Hinv2 |].
      apply (next_solvent p1 p2 H2 Hg Hi). now rewrite Hq1.
Qed.


Lemma thrifty_ret {A} (a : A) : thrifty C (ret a).
Proof. intros p0 Hinv Hsol. now apply returns_ret. Qed.

Lemma thrifty_raise {A} (e : exn) : thrifty C (@raise World A e).
Proof. intros p0 Hinv Hsol. apply returns_raise. Qed.

Lemma thrifty_out_of_fuel {A} : thrifty C (@out_of_fuel World A).
Proof. intros p0 Hinv Hsol. apply returns_out_of_fuel. Qed.

Lemma thrifty_bind {A B} (m : W A) (k : A -> W B) :
  thrifty C m -> (forall a, thrifty C (k a)) -> thrifty C (bind m k).
Proof.
  intros Hm Hk p0 Hinv Hsol. eapply returns_bind; [now apply Hm |].
  intros a p1 [H1 S1]. now apply Hk.
Qed.

Lemma thrifty_rand {A} (r : random.Rand A) : thrifty C (rand r).
Proof.
  intros p0 Hinv Hsol. eapply returns_conseq; [apply returns_rand |].
  now intros _ p ->.
Qed.

Lemma thrifty_get_player : thrifty C get_player.
Proof.
  intros p0 Hinv Hsol. apply runs_returns.
  eapply runs_conseq; [apply runs_get_player |]. now intros a p [_ ->].
Qed.

Lemma thrifty_dequeue (fuel : nat) : thrifty C (dequeue C fuel).
Proof.
  intros p0 Hinv Hsol. apply returns_and.
  - apply (preserves_dequeue C HC fuel p0 Hinv).
  - apply returns_dequeue_solvent; [apply (inv_tasks C p0 Hinv) | exact Hsol].
Qed.

Lemma thrifty_enqueue (fuel : nat) (t : Task) :
  queue_task_ok t -> thrifty C (enqueue C fuel t).
Proof.
  intros Ht. unfold enqueue.
  apply thrifty_bind; [| intros _; apply thrifty_dequeue].
  intros p0 Hinv Hsol. apply runs_returns.
  eapply runs_conseq; [apply runs_modify_player |].
  intros _ p ->. split; [| exact Hsol].
  destruct Hinv as [[Hl (t0 & Ht0) Hq Hqm] Hs He].
  split; [split | |]; simpl; try assumption.
  - now exists t0.
  - apply Forall_app. split; [exact Hq | now constructor].
Qed.

Ltac thrift_step :=
  first
    [ apply thrifty_ret
    | apply thrifty_raise
    | apply thrifty_out_of_fuel
    | apply thrifty_get_player
    | apply thrifty_rand
    | apply thrifty_dequeue
    | apply thrifty_enqueue;
      first [ apply queue_task_ok_regular | apply queue_task_ok_plot ]; lia
    | assumption
    | apply thrifty_bind; [| intros ?]
    | match goal with
      | |- thrifty _ (if ?b then _ else _) => destruct b
      end ].

Lemma thrifty_nemesis_combat (fuel rounds : nat) (nemesis : string)
  (i s : Z) :
  thrifty C (nemesis_combat C fuel rounds nemesis i s).
Proof.
  revert i s. induction rounds as [| n IH]; intros i s; simpl.
  - apply thrifty_out_of_fuel.
  - repeat first [ apply IH | thrift_step ].
Qed.

Lemma thrifty_interplot_cinematic (fuel : nat) :
  thrifty C (interplot_cinematic C fuel).
Proof.
  unfold interplot_cinematic.
  repeat first [ apply thrifty_nemesis_combat | thrift_step ].
Qed.

Lemma careful_of {A} (m : W A) : preserves C m -> stocking m -> careful C m.
Proof.
  intros Hp Hs p0 Hinv (Hg & Hi & _) Hnb w a w' Hw E.
  pose proof (Hp p0 Hinv w a w' Hw E) as Hinv'.
  destruct (Hs p0 w a w' Hw E) as (Eg & Hi' & Et).
  assert (Hnb' : is_buy (task (player w')) = false) by now rewrite Et.
  split; [exact Hinv' |]. split; [| exact Hnb'].
  split; [now rewrite Eg | split; [auto |]].
  intros H. rewrite Hnb' in H. discriminate H.
Qed.

Lemma careful_bind {A B} (m : W A) (k : A -> W B) :
  careful C m -> (forall a, careful C (k a)) -> careful C (bind m k).
Proof.
  intros Hm Hk p0 Hinv Hsol Hnb. eapply returns_bind; [now apply Hm |].
  intros a p1 (H1 & S1 & N1). now apply Hk.
Qed.

Lemma careful_modify_player (f : Player -> Player) :
  (forall p, engine_inv C p -> engine_inv C (f p)) ->
  (forall p, inventory (f p) = inventory p /\ task (f p) = task p) ->
  careful C (modify_player f).
Proof.
  intros Hf Hsame. apply careful_of.
  - now apply preserves_modify_player.
  - apply stocking_modify_player. intros p.
    destruct (Hsame p). now apply stocked_same.
Qed.

Lemma thrifty_tick (fuel : nat) (e : Q) : thrifty C (tick C fuel e).
Proof.
  intros p0 Hinv Hsol. unfold tick.
  eapply returns_bind; [apply runs_returns, runs_get_player |].
  intros a p1 [-> ->].
  destruct (Bar_done (task_bar p0)) eqn:Hdone; simpl negb; cbv iota.
  - destruct (is_kill (task p0)) eqn:Hkill; cbv iota; cbn [andb].
    + assert (Hnb : is_buy (task p0) = false).
      { destruct (task p0) as [[] |]; try discriminate Hkill; reflexivity. }
      eapply returns_bind
        with (Q1 := fun _ p => engine_inv C p /\ solvent p
                               /\ is_buy (task p) = false).
      { match goal with
        | |- returns _ ?m _ => assert (Hc : careful C m)
        end.
        { destruct (Bar_done (exp_bar p0)).
          - apply careful_of;
              [apply (preserves_level_up C HC) | apply stocking_level_up].
          - apply careful_modify_player; [| now split].
            intros p Hp. now apply engine_inv_bar_frame. }
        exact (Hc p0 Hinv Hsol Hnb). }
      intros u1 p1 (Hinv1 & Hsol1 & Hnb1). cbv beta.
      eapply returns_bind; [apply runs_returns, runs_get_player |].
      intros a p2 [-> ->].
      eapply returns_bind
        with (Q1 := fun _ p => engine_inv C p /\ solvent p).
      { match goal with
        | |- returns _ ?m _ => assert (Hc : careful C m)
        end.
        { destruct (1 <=? act (quest_book p1)).
          - destruct (Bar_done (quest_bar (quest_book p1))
                      || match current_quest (quest_book p1) with
                         | Some _ => false
                         | None => true
                         end).
            + apply careful_of.
              * apply (preserves_rewarding C _ (rewarding_complete_quest C HC)).
              * apply stocking_complete_quest.
            + apply careful_modify_player; [| now split].
              intros p Hp. now apply engine_inv_quest_frame.
          - apply careful_of; [apply preserves_ret | apply stocking_ret]. }
        eapply returns_conseq; [exact (Hc p1 Hinv1 Hsol1 Hnb1) |].
        intros ? p (H1 & H2 & _). now split. }
      intros u2 p2 (Hinv2 & Hsol2). cbv beta.
      match goal with
      | |- returns _ ?m _ => assert (Hrest : thrifty C m)
      end; [| exact (Hrest p2 Hinv2 Hsol2)].
      apply thrifty_bind; [apply thrifty_get_player | intros p3].
      apply thrifty_bind; [| intros _; apply thrifty_dequeue].
      destruct (Bar_done (plot_bar (quest_book p3)));
        [apply thrifty_interplot_cinematic |].
      intros p Hp Hs. apply runs_returns. unfold modify_quest_book.
      eapply runs_conseq; [apply runs_modify_player |].
      intros _ p' ->. split; [now apply engine_inv_quest_frame | exact Hs].
    + match goal with
      | |- returns _ ?m _ => assert (Hrest : thrifty C m)
      end; [| exact (Hrest p0 Hinv Hsol)].
      repeat thrift_step.
  - intros w u w' Hw E. injection E as _ <-. simpl. subst p0.
    split; [now apply engine_inv_task_bar | exact Hsol].
Qed.

Lemma create_player_solvent (now : Z) (sequence : nat -> Z) (name0 : string)
  (race0 : Race) (class0 : Class) (st : Stats) (w : World) :
  create_player C now sequence name0 race0 class0 st = Ok w ->
  solvent (player w).
Proof.
  unfold create_player, Player_init. intros E.
  destruct (Stats_getitem st strength) as [str | |]; try discriminate E.
  injection E as <-. split; [simpl; lia |].
  split; [constructor | intros H; discriminate H].
Qed.

Lemma reachable_solvent (w : World) : reachable C w -> solvent (player w).
Proof.
  induction 1 as [now sequence name0 race0 class0 st w Hr E
                 | w w' fuel e Hreach IH E].
  - eapply create_player_solvent; exact E.
  - exact (proj2 (thrifty_tick fuel e (player w)
                    (reachable_engine_inv C HC w Hreach) IH w tt w' eq_refl E)).
Qed.

(** X23: the player never goes into debt.  In every reachable state the gold
    is not negative, no item has a negative quantity, and while a purchase is
    being negotiated the gold exceeds the price that its completion will
    deduct. *)
Theorem gold_never_negative (w : World) :
  reachable C w ->
  0 <= gold (inventory (player w))
  /\ Forall (fun it => 0 <= quantity it) (items (inventory (player w)))
  /\ (forall b, task (player w) = Some (BuyTask b) ->
                equip_price (player w) < gold (inventory (player w))).
Proof.
  intros Hr. destruct (reachable_solvent w Hr) as (Hg & Hi & Hb).
  split; [exact Hg | split; [exact Hi |]].
  intros b Ht. apply Hb. now rewrite Ht.
Qed.

End Thrift.

Lemma gold_never_negative_witness :
  0 <= gold (inventory (player Demo.finished))
  /\ Forall (fun it => 0 <= quantity it)
            (items (inventory (player Demo.finished)))
  /\ (forall b, task (player Demo.finished) = Some (BuyTask b) ->
                equip_price (player Demo.finished)
                < gold (inventory (player Demo.finished))).
Proof.
  apply (gold_never_negative Demo.content Demo_content_ok Demo.finished).
  exact Demo_finished_reachable.
Defined.

(** ** win_item *)

Lemma draws_special_item_of (C : Content) :
  ITEM_ATTRIB C <> [] -> SPECIALS C <> [] -> ITEM_OFS C <> [] ->
  draws (special_item C)
        (fun name =>
           contains " of " name = true
           /\ exists a s o,
                In a (ITEM_ATTRIB C) /\ In s (SPECIALS C)
                /\ In o (ITEM_OFS C)
                /\ name = ((a ++ " " ++ s) ++ " of " ++ o)%string).
Proof.
  intros Ha Hs Ho. unfold special_item, interesting_item.
  eapply draws_bind
    with (R1 := fun i => exists a s, In a (ITEM_ATTRIB C)
                                     /\ In s (SPECIALS C)
                                     /\ i = (a ++ " " ++ s)%string).
  - draw_by ltac:(apply draws_choice, Ha).
    draw_by ltac:(apply draws_choice, Hs).
    apply draws_ret. now exists a, a0.
  - intros i (a & s & Hina & Hins & ->).
    draw_by ltac:(apply draws_choice, Ho).
    apply draws_ret. split.
    + apply (contains_app " of " (a ++ " " ++ s) a0).
    + now exists a, s, a0.
Qed.

(** X24: the item [win_item] adds is one unit of a special item, named
    [attribute special of something] from the three tables; its name has
    " of " in it, which is what [dequeue] looks for when it prices a
    sale. *)
Theorem win_item_special (C : Content) (w0 : World) :
  ITEM_ATTRIB C <> [] -> SPECIALS C <> [] -> ITEM_OFS C <> [] ->
  exists name w',
    win_item C w0 = Ok (tt, w')
    /\ contains " of " name = true
    /\ (exists a s o,
           In a (ITEM_ATTRIB C) /\ In s (SPECIALS C) /\ In o (ITEM_OFS C)
           /\ name = ((a ++ " " ++ s) ++ " of " ++ o)%string)
    /\ player w'
       = set_inventory (player w0)
           (Inventory_add (inventory (player w0)) name 1).
Proof.
  intros Ha Hs Ho.
  destruct (draws_special_item_of C Ha Hs Ho (gen w0))
    as (name & g & E & Hof & Hname).
  exists name. eexists. unfold win_item, bind, rand, modify_player,
    get_player, put_player.
  rewrite E. split; [reflexivity |]. split; [exact Hof |].
  split; [exact Hname | reflexivity].
Qed.

Lemma win_item_special_witness :
  exists name w',
    win_item Demo.content Demo.world = Ok (tt, w')
    /\ contains " of " name = true
    /\ (exists a s o,
           In a (ITEM_ATTRIB Demo.content) /\ In s (SPECIALS Demo.content)
           /\ In o (ITEM_OFS Demo.content)
           /\ name = ((a ++ " " ++ s) ++ " of " ++ o)%string)
    /\ player w'
       = set_inventory (player Demo.world)
           (Inventory_add (inventory (player Demo.world)) name 1).
Proof.
  apply (win_item_special Demo.content Demo.world); discriminate.
Defined.

(** ** The clock runs only while a task does *)











Section Clock.

Variable C : Content.

















End Clock.


(** ** Experience and level *)

Section Experience.

Variable C : Content.
Hypothesis HC : content_ok C.
















End Experience.



